(** * camibrate/boards.py: detection alignment and extraction layer

    A shallow embedding of [merge_rows], [extract_points], [extract_rtvecs]
    and of the two calibration objects ([Checkerboard], [CharucoBoard]) as
    far as those functions call into them.

    Conventions.
    - A numpy float is a [scalar]: either [NaN] or a finite value.  This
      layer never computes with coordinates, it only copies them and tests
      them with [np.isnan]; the finite payload is kept as an opaque integer
      token (the float32 casts of the source map NaN to NaN and non-NaN to
      non-NaN, and are the identity on tokens here).
    - A Python call returns a [result]: a value or a raised exception.
    - A detection record is a Python dict; each optional key is an [option]
      field of the record [row], [None] meaning that the key is absent.
    - Records are shared mutable objects: [extract_rtvecs] works on a heap
      of records addressed by [loc]. *)

From stdpp Require Import sorting functions gmap strings list.

Open Scope Z_scope.

(** ** Exceptions and results *)

Inductive exn : Type :=
  | AssertionError
  | ValueError
  | TypeError
  | IndexError
  | AttributeError
  | KeyError (key : string)
  | NameError (name : string)
  | cv2_error.

(** The name of the Python class of a raised exception. *)
Definition exn_class (e : exn) : string :=
  match e with
  | AssertionError => "AssertionError"
  | ValueError => "ValueError"
  | TypeError => "TypeError"
  | IndexError => "IndexError"
  | AttributeError => "AttributeError"
  | KeyError _ => "KeyError"
  | NameError _ => "NameError"
  | cv2_error => "cv2.error"
  end.

Inductive result (A : Type) : Type :=
  | Ok (a : A)
  | Raise (e : exn).
Arguments Ok {A} a.
Arguments Raise {A} e.

(** Sequencing of calls that may raise: the first exception propagates. *)
Global Instance result_ret : MRet result := @Ok.
Global Instance result_bind : MBind result := λ A B k m,
  match m with
  | Ok a => k a
  | Raise e => Raise e
  end.

Definition result_to_option {A} (r : result A) : option A :=
  match r with
  | Ok a => Some a
  | Raise _ => None
  end.

(** [d[key]] on a dict whose key may be missing. *)
Definition getitem {A} (key : string) (field : option A) : result A :=
  match field with
  | Some v => Ok v
  | None => Raise (KeyError key)
  end.

(** ** Scalars, points and detection records *)

Inductive scalar : Type :=
  | NaN
  | Fin (v : Z).

Definition isnan (x : scalar) : bool :=
  match x with
  | NaN => true
  | Fin _ => false
  end.

Definition point2 : Type := scalar * scalar.
Definition point3 : Type := scalar * scalar * scalar.
Definition vec3 : Type := scalar * scalar * scalar.

Definition nan2 : point2 := (NaN, NaN).
Definition nan3 : point3 := (NaN, NaN, NaN).

(** A camera name: the positional index that [merge_rows] uses when no
    names are given, or a caller-supplied string. *)
Inductive cam_name : Type :=
  | CamIdx (i : nat)
  | CamStr (s : string).

Global Instance cam_name_eq_dec : EqDecision cam_name.
Proof. solve_decision. Defined.

Global Instance cam_name_countable : Countable cam_name.
Proof.
  refine (inj_countable'
    (λ c, match c with CamIdx i => inl i | CamStr s => inr s end)
    (λ x, match x with inl i => CamIdx i | inr s => CamStr s end) _).
  by intros [].
Defined.

(** One camera's observation of one frame.  [corners], [ids], [filled],
    [rvec] and [tvec] are dict keys that may be missing; the values of
    [corners], [ids], [rvec] and [tvec] may themselves be Python's None. *)
Record row : Type := Row {
  framenum : Z;
  corners : option (option (list point2));
  ids : option (option (list Z));
  filled : option (list point2);
  rvec : option (option vec3);
  tvec : option (option vec3)
}.

(** ** merge_rows *)

Section merge_rows.
(** A frame key is a frame number or a (prefix, frame number) pair: any
    countable type [K] whose comparison [le] is a total order.  The merger
    only reads [r['framenum']]; it is parametric in what a record is (a
    value, or a reference into a heap). *)
Context {K : Type} `{Countable K} (le : relation K) `{!RelDecision le}.
Context {R : Type} (frame_of : R → K).

(** [rows_dict[cname]] on a [defaultdict(dict)]. *)
Definition rows_dict_get (d : gmap cam_name (gmap K R)) (cname : cam_name)
  : gmap K R :=
  default ∅ (d !! cname).

(** Body of the inner loop, lines 73-75. *)
Definition add_row (cname : cam_name)
    (acc : gmap cam_name (gmap K R) * gset K) (r : R)
  : gmap cam_name (gmap K R) * gset K :=
  let num := frame_of r in
  (<[cname := <[num := r]> (rows_dict_get acc.1 cname)]> acc.1,
   {[num]} ∪ acc.2).

Definition add_cam (acc : gmap cam_name (gmap K R) * gset K)
    (p : cam_name * list R) : gmap cam_name (gmap K R) * gset K :=
  foldl (add_row p.1) acc p.2.

(** Lines 68-75. *)
Definition collect (cam_names : list cam_name) (all_rows : list (list R))
  : gmap cam_name (gmap K R) * gset K :=
  foldl add_cam (∅, ∅) (zip cam_names all_rows).

(** [sorted(framenums)]. *)
Definition sorted (framenums : gset K) : list K :=
  merge_sort le (elements framenums).

(** Lines 81-84: the group of one frame number. *)
Definition group (rows_dict : gmap cam_name (gmap K R))
    (cam_names : list cam_name) (num : K) : gmap cam_name R :=
  foldl (λ d cname,
           match rows_dict_get rows_dict cname !! num with
           | Some r => <[cname := r]> d
           | None => d
           end) ∅ cam_names.

Definition default_names (n : nat) : list cam_name := CamIdx <$> seq 0 n.

Definition merge_rows (all_rows : list (list R))
    (cam_names : option (list cam_name))
  : result (list (gmap cam_name R)) :=
  let assertion :=
    match cam_names with
    | None => true
    | Some ns => Nat.eqb (length all_rows) (length ns)
    end in
  if negb assertion then Raise AssertionError
  else
    let cam_names :=
      match cam_names with
      | None => default_names (length all_rows)
      | Some ns => ns
      end in
    let '(rows_dict, framenums) := collect cam_names all_rows in
    Ok (group rows_dict cam_names <$> sorted framenums).

(** The records named [cname] among the zipped inputs, in input order. *)
Definition cam_rows (cname : cam_name) (l : list (cam_name * list R))
  : list R :=
  concat (snd <$> filter (λ p, p.1 = cname) l).

(** The record that a dict built by successive writes holds for [num]. *)
Definition last_with_key (num : K) (rows : list R) : option R :=
  last (filter (λ r, frame_of r = num) rows).
End merge_rows.

(** The comparison of keys of the form [(prefix, framenum)]: Python orders
    tuples lexicographically. *)
Definition prefixed_le (x y : string * Z) : Prop :=
  strict String.le x.1 y.1 ∨ (x.1 = y.1 ∧ x.2 ≤ y.2).

Global Instance prefixed_le_dec : RelDecision prefixed_le.
Proof. intros x y. unfold prefixed_le. apply _. Defined.

(** ** Calibration objects *)

Inductive board_kind : Type :=
  | Checker
  | Charuco.

(** The attributes of a board instance that this layer reads:
    [empty_detection] has [total_size] all-NaN points, [objPoints] is the
    object-point template. *)
Record board : Type := Board {
  kind : board_kind;
  squaresX : nat;
  squaresY : nat;
  total_size : nat;
  objPoints : list point3
}.

(** [x * square_length] for a grid index [x]. *)
Definition scale (square_length : scalar) (x : nat) : scalar :=
  match square_length with
  | NaN => NaN
  | Fin s => Fin (Z.of_nat x * s)
  end.

(** [np.mgrid[0:ny, 0:nx].T.reshape(-1, 2)], padded with a zero third
    coordinate and scaled: row [x * ny + y] is [(y, x, 0)]. *)
Definition grid_points (ny nx : nat) (square_length : scalar) : list point3 :=
  x ← seq 0 nx; y ← seq 0 ny;
  [(scale square_length y, scale square_length x, scale square_length 0)].

(** [Checkerboard.__init__]. *)
Definition Checkerboard (squaresX squaresY : nat) (square_length : scalar)
  : board :=
  Board Checker squaresX squaresY (squaresX * squaresY)
        (grid_points squaresY squaresX square_length).

(** [CharucoBoard.__init__]; the marker length and the marker dictionary
    only configure the external detector. *)
Definition CharucoBoard (squaresX squaresY : nat) (square_length : scalar)
  : board :=
  Board Charuco squaresX squaresY ((squaresX - 1) * (squaresY - 1))
        (grid_points (squaresY - 1) (squaresX - 1) square_length).

Definition get_empty_detection (b : board) : list point2 :=
  replicate (total_size b) nan2.

Definition get_object_points (b : board) : list point3 := objPoints b.

(** [out[i] = x] on an array of [n] slots: indices [-n .. n-1] are valid,
    negative ones count from the end, anything else raises. *)
Definition setitem {A} (out : list A) (i : Z) (x : A) : result (list A) :=
  let n := Z.of_nat (length out) in
  if bool_decide (0 ≤ i < n) then Ok (<[Z.to_nat i := x]> out)
  else if bool_decide (- n ≤ i < 0) then Ok (<[Z.to_nat (n + i) := x]> out)
  else Raise IndexError.

(** [for i, cxs in zip(ids, corners): out[i] = cxs]. *)
Fixpoint scatter (out : list point2) (l : list (Z * point2))
  : result (list point2) :=
  match l with
  | [] => Ok out
  | (i, cxs) :: l => out' ← setitem out i cxs; scatter out' l
  end.

(** [Checkerboard.fill_points] and [CharucoBoard.fill_points]. *)
Definition fill_points (b : board) (corners : option (list point2))
    (ids : option (list Z)) : result (list point2) :=
  let out := get_empty_detection b in
  match corners with
  | None | Some [] => Ok out
  | Some cs =>
      match kind b, ids with
      | Checker, None => Ok cs
      | Charuco, None => Raise AttributeError
      | _, Some ixs => scatter out (zip ixs cs)
      end
  end.

Record camera : Type := Camera {
  get_camera_matrix : list scalar;
  get_distortions : list scalar
}.

(** The two OpenCV solvers, external to this module.  Each returns the
    [rvec] and [tvec] outputs of the call, or raises. *)
Record opencv : Type := OpenCV {
  solvePnPRansac :
    list point3 → list point2 → list scalar → list scalar →
    result (option vec3 * option vec3);
  estimatePoseCharucoBoard :
    list point2 → list Z → board → list scalar → list scalar →
    result (option vec3 * option vec3)
}.

(** The values that a name of [Checkerboard.estimate_pose_points] can be
    bound to. *)
Inductive pyval : Type :=
  | VNone
  | VPoints (a : list point2)
  | VIds (a : list Z)
  | VCamera (c : camera)
  | VBoard (b : board)
  | VGlobal.

(** Names bound at module level in boards.py: imports, functions, classes
    and [ARUCO_DICTS]. *)
Definition module_globals : list string :=
  ["cv2"; "aruco"; "np"; "ABC"; "abstractmethod"; "trange"; "defaultdict";
   "get_video_params_cap"; "get_video_params"; "fix_rvec"; "merge_rows";
   "extract_points"; "extract_rtvecs"; "CalibrationObject"; "Checkerboard";
   "ARUCO_DICTS"; "CharucoBoard"].

(** Reading a variable inside a function: its parameters, then the module
    globals. *)
Definition load_name (locals : list (string * pyval)) (name : string)
  : result pyval :=
  match list_find (λ p, p.1 = name) locals with
  | Some (_, (_, v)) => Ok v
  | None =>
      if bool_decide (name ∈ module_globals) then Ok VGlobal
      else Raise (NameError name)
  end.

(** [np.sum(np.isnan(a))]. *)
Definition sum_isnan (a : pyval) : result Z :=
  match a with
  | VPoints ps =>
      Ok (Z.of_nat (length (filter (λ x, isnan x = true)
                                   (ps ≫= λ p, [p.1; p.2]))))
  | _ => Raise TypeError
  end.

Definition as_points (a : pyval) : result (list point2) :=
  match a with
  | VPoints ps => Ok ps
  | _ => Raise cv2_error
  end.

Definition points_val (points : option (list point2)) : pyval :=
  match points with
  | None => VNone
  | Some ps => VPoints ps
  end.

Definition ids_val (ids : option (list Z)) : pyval :=
  match ids with
  | None => VNone
  | Some ixs => VIds ixs
  end.

(** [Checkerboard.estimate_pose_points(self, camera, points, ids)], lines
    426-445.  The body reads a variable named [corners]. *)
Definition Checkerboard_estimate_pose_points (cv : opencv) (self : board)
    (cam : camera) (points : option (list point2)) (ids : option (list Z))
  : result (option vec3 * option vec3) :=
  let locals :=
    [("self", VBoard self); ("camera", VCamera cam);
     ("points", points_val points); ("ids", ids_val ids)] in
  corners ← load_name locals "corners";
  nnan ← sum_isnan corners;
  let ngood := nnan `div` 2 in
  match points with
  | None => Ok (None, None)
  | Some _ =>
      if bool_decide (ngood < 3) then Ok (None, None)
      else
        let K := get_camera_matrix cam in
        let D := get_distortions cam in
        let obj_points := get_object_points self in
        corners ← load_name locals "corners";
        img_points ← as_points corners;
        solvePnPRansac cv obj_points img_points K D
  end.

(** [CharucoBoard.estimate_pose_points(self, camera, corners, ids)], lines
    575-588. *)
Definition CharucoBoard_estimate_pose_points (cv : opencv) (self : board)
    (cam : camera) (corners : option (list point2)) (ids : option (list Z))
  : result (option vec3 * option vec3) :=
  match corners, ids with
  | Some cs, Some ixs =>
      if bool_decide (length cs < 3)%nat then Ok (None, None)
      else
        let K := get_camera_matrix cam in
        let D := get_distortions cam in
        estimatePoseCharucoBoard cv cs ixs self K D
  | _, _ => Ok (None, None)
  end.

(** Dispatch on the class of the board. *)
Definition estimate_pose_points (cv : opencv) (b : board) (cam : camera)
    (corners : option (list point2)) (ids : option (list Z))
  : result (option vec3 * option vec3) :=
  match kind b with
  | Checker => Checkerboard_estimate_pose_points cv b cam corners ids
  | Charuco => CharucoBoard_estimate_pose_points cv b cam corners ids
  end.

(** ** Camera ordering *)

Definition cam_idx (c : cam_name) : option nat :=
  match c with
  | CamIdx i => Some i
  | CamStr _ => None
  end.

Definition cam_str (c : cam_name) : option string :=
  match c with
  | CamIdx _ => None
  | CamStr s => Some s
  end.

(** [sorted(s)] on a set of camera names: integers sort among themselves
    and strings among themselves; comparing an integer with a string
    raises. *)
Definition sorted_names (s : gset cam_name) : result (list cam_name) :=
  let l := elements s in
  match omap cam_idx l, omap cam_str l with
  | idxs, [] => Ok (CamIdx <$> merge_sort (≤)%nat idxs)
  | [], strs => Ok (CamStr <$> merge_sort String.le strs)
  | _, _ => Raise TypeError
  end.

(** Lines 103-105 and 166-168: [set.union] applied to the unpacked list
    of key sets needs at least one group. *)
Definition resolve_cam_names {V} (merged : list (gmap cam_name V))
    (cam_names : option (list cam_name)) : result (list cam_name) :=
  match cam_names with
  | Some ns => Ok ns
  | None =>
      match merged with
      | [] => Raise TypeError
      | _ => sorted_names (⋃ (dom <$> merged))
      end
  end.

(** ** Dense arrays *)

(** An array of shape [(n_cams, n_rows, d)]: one plane of [n_rows] entries
    per camera.  [n_rows] is kept apart since it is not recoverable from
    the planes when there is no camera. *)
Record tensor (A : Type) : Type := Tensor {
  n_rows : nat;
  planes : list (list A)
}.
Arguments Tensor {A} n_rows planes.
Arguments n_rows {A} t.
Arguments planes {A} t.

(** [a[mask]] along one axis. *)
Definition select {A} (mask : list bool) (a : list A) : list A :=
  snd <$> filter (λ p, p.1 = true) (zip mask a).

Definition count_true (mask : list bool) : nat :=
  length (filter (λ b, b = true) mask).

(** Entry [cix] of every row of a row-major table. *)
Definition cam_plane {A} (rows : list (list A)) (cix : nat) : list A :=
  omap (λ r, r !! cix) rows.

(** [dst[...] = src] where [dst] has [n] entries: same length copies, a
    single entry is broadcast, anything else raises. *)
Definition assign_block {A} (n : nat) (src : list A) : result (list A) :=
  if bool_decide (length src = n) then Ok src
  else match src with
       | [x] => Ok (replicate n x)
       | _ => Raise ValueError
       end.

(** ** extract_points *)

Definition slot : Type := list point3 * list point2.

Definition nan_slot (n : nat) : slot := (replicate n nan3, replicate n nan2).

(** [np.any(np.isnan(filled), axis=1)] for one point. *)
Definition point_bad (p : point2) : bool := isnan p.1 || isnan p.2.

(** [r.get(key, None) is None]. *)
Definition get_is_None {A} (field : option (option A)) : bool :=
  match field with
  | Some (Some _) => false
  | _ => true
  end.

(** The test of lines 128-131. *)
Definition skip_detection (min_points : Z) (ignore_no_pose : bool) (r : row)
    (pts : list point2) : bool :=
  let num_good := Z.of_nat (length (filter (λ p, point_bad p = false) pts)) in
  bool_decide (num_good < min_points)
  || ignore_no_pose && (get_is_None (rvec r) || get_is_None (tvec r)).

(** [objp_here[bad] = np.nan]: the mask must be as long as the template. *)
Definition mask_bad (template : list point3) (bad : list bool)
  : result (list point3) :=
  if bool_decide (length bad = length template)
  then Ok (zip_with (λ (b : bool) p, if b then nan3 else p) bad template)
  else Raise IndexError.

(** Lines 125-137 for one present camera. *)
Definition visit_points (b : board) (min_points : Z) (ignore_no_pose : bool)
    (r : row) : result slot :=
  let n := total_size b in
  pts ← getitem "filled" (filled r);
  let bad := point_bad <$> pts in
  if skip_detection min_points ignore_no_pose r pts then Ok (nan_slot n)
  else
    imgp_here ← assign_block n pts;
    objp_here ← mask_bad (get_object_points b) bad;
    objp_here ← assign_block n objp_here;
    Ok (objp_here, imgp_here).

(** Lines 122-137; entry [rix] of the result lists the slots of frame
    [rix] in camera order. *)
Definition points_loop (b : board) (cam_names : list cam_name)
    (min_points : Z) (ignore_no_pose : bool)
    (merged : list (gmap cam_name row)) : result (list (list slot)) :=
  mapM (λ row : gmap cam_name row,
          mapM (λ cname,
                  match row !! cname with
                  | Some r => visit_points b min_points ignore_no_pose r
                  | None => Ok (nan_slot (total_size b))
                  end) cam_names) merged.

(** Line 142 for the observations of one frame: for each board point, the
    number of cameras whose first image coordinate is not NaN. *)
Definition num_good_points (n : nat) (slots : list slot) : list Z :=
  (λ pix, Z.of_nat (length (filter
             (λ s : slot, isnan (default nan2 (s.2 !! pix)).1 = false)
             slots))) <$> seq 0 n.

Definition good_mask (min_cameras : Z) (num_good : list Z) : list bool :=
  (λ c, bool_decide (min_cameras ≤ c)) <$> num_good.

Definition extract_points (merged : list (gmap cam_name row)) (b : board)
    (cam_names : option (list cam_name)) (min_cameras min_points : Z)
    (ignore_no_pose : bool) : result (tensor point3 * tensor point2) :=
  cam_names ← resolve_cam_names merged cam_names;
  let n_cams := length cam_names in
  let n := total_size b in
  rows ← points_loop b cam_names min_points ignore_no_pose merged;
  (* lines 139-140: [np.reshape] cannot infer the [-1] axis of an array
     without cameras *)
  if bool_decide (n_cams = 0%nat) then Raise ValueError else
  let good := good_mask min_cameras (rows ≫= num_good_points n) in
  let objp := (λ cix, select good (concat (fst <$> cam_plane rows cix)))
                <$> seq 0 n_cams in
  let imgp := (λ cix, select good (concat (snd <$> cam_plane rows cix)))
                <$> seq 0 n_cams in
  Ok (Tensor (count_true good) objp, Tensor (count_true good) imgp).

(** ** extract_rtvecs *)

(** Detection records are mutated in place: a merged group holds
    references into a heap of records.  [pose_calls] is a ghost trace of the
    records for which [estimate_pose_points] was invoked, most recent
    first. *)
Definition loc : Type := nat.

Record state : Type := State {
  heap : loc → row;
  pose_calls : list loc
}.

(** Computations that read and write the heap and may raise; the heap
    keeps the writes made before an exception. *)
Definition M (A : Type) : Type := state → result A * state.

Global Instance M_ret : MRet M := λ A a σ, (Ok a, σ).
Global Instance M_bind : MBind M := λ A B k m σ,
  match m σ with
  | (Ok a, σ') => k a σ'
  | (Raise e, σ') => (Raise e, σ')
  end.

Definition lift {A} (r : result A) : M A := λ σ, (r, σ).

Definition deref (l : loc) : M row := λ σ, (Ok (heap σ l), σ).

Definition set_pose_keys (rv tv : option vec3) (r : row) : row :=
  Row (framenum r) (corners r) (ids r) (filled r) (Some rv) (Some tv).

(** [r['rvec'] = rvec; r['tvec'] = tvec]. *)
Definition store_pose (l : loc) (rv tv : option vec3) : M () := λ σ,
  (Ok (), State (<[l := set_pose_keys rv tv (heap σ l)]> (heap σ))
                (pose_calls σ)).

Definition log_pose_call (l : loc) : M () := λ σ,
  (Ok (), State (heap σ) (l :: pose_calls σ)).

(** ['rvec' in r and 'tvec' in r]. *)
Definition has_pose_keys (r : row) : bool :=
  match rvec r, tvec r with
  | Some _, Some _ => true
  | _, _ => false
  end.

(** [cameras[cix]]. *)
Definition get_camera (cameras : option (list camera)) (cix : nat)
  : result camera :=
  match cameras with
  | None => Raise TypeError
  | Some cams =>
      match cams !! cix with
      | Some cam => Ok cam
      | None => Raise IndexError
      end
  end.

Definition nan6 : list scalar := replicate 6 NaN.

(** [np.hstack([rvec.ravel(), tvec.ravel()])]. *)
Definition hstack (rv tv : vec3) : list scalar :=
  [rv.1.1; rv.1.2; rv.2; tv.1.1; tv.1.2; tv.2].

(** Lines 194-201: the slot read off a record once it has both keys. *)
Definition pose_slot (r : row) : result (list scalar) :=
  rv ← getitem "rvec" (rvec r);
  tv ← getitem "tvec" (tvec r);
  match rv, tv with
  | Some rv, Some tv => Ok (hstack rv tv)
  | _, _ => Ok nan6
  end.

(** Lines 179-201 for one present camera: the slot written to
    [rtvecs[cix, rix]]. *)
Definition visit_pose (cv : opencv) (b : option board)
    (cameras : option (list camera)) (cix : nat) (l : loc)
  : M (list scalar) :=
  r ← deref l;
  _ ← (if has_pose_keys r then mret ()
        else
          match b with
          | None => lift (Raise ValueError)
          | Some b =>
              cam ← lift (get_camera cameras cix);
              cs ← lift (getitem "corners" (corners r));
              ixs ← lift (getitem "ids" (ids r));
              _ ← log_pose_call l;
              p ← lift (estimate_pose_points cv b cam cs ixs);
              store_pose l p.1 p.2
          end);
  r ← deref l;
  lift (pose_slot r).

Definition visit_cam (cv : opencv) (b : option board)
    (cameras : option (list camera)) (row : gmap cam_name loc)
    (p : nat * cam_name) : M (list scalar) :=
  match row !! p.2 with
  | Some l => visit_pose cv b cameras p.1 l
  | None => mret nan6
  end.

(** [enumerate(cam_names)]. *)
Definition enumerate {A} (l : list A) : list (nat * A) :=
  zip (seq 0 (length l)) l.

(** Lines 176-201; entry [rix] of the result lists the slots of frame
    [rix] in camera order. *)
Definition pose_loop (cv : opencv) (b : option board)
    (cameras : option (list camera)) (cam_names : list cam_name)
    (merged : list (gmap cam_name loc)) : M (list (list (list scalar))) :=
  mapM (λ row, mapM (visit_cam cv b cameras row) (enumerate cam_names))
       merged.

(** Line 203 for one frame: the number of cameras whose first pose
    component is not NaN. *)
Definition num_good_poses (slots : list (list scalar)) : Z :=
  Z.of_nat (length (filter (λ v, isnan (default NaN (head v)) = false) slots)).

Definition extract_rtvecs (cv : opencv) (merged : list (gmap cam_name loc))
    (cam_names : option (list cam_name)) (min_cameras : Z)
    (b : option board) (cameras : option (list camera))
  : M (tensor (list scalar)) :=
  cam_names ← lift (resolve_cam_names merged cam_names);
  rows ← pose_loop cv b cameras cam_names merged;
  let good := good_mask min_cameras (num_good_poses <$> rows) in
  mret (Tensor (count_true good)
               ((λ cix, select good (cam_plane rows cix))
                  <$> seq 0 (length cam_names))).




(** ** The row methods of a calibration object *)

(** [self.ids = np.arange(total_size)] of a checkerboard, line 369. *)
Definition board_ids (b : board) : list Z :=
  Z.of_nat <$> seq 0 (total_size b).

Definition set_filled (pts : list point2) (r : row) : row :=
  Row (framenum r) (corners r) (ids r) (Some pts) (rvec r) (tvec r).

(** Line 319: the record after
    [row['filled'] = self.fill_points(row['corners'], row['ids'])]. *)
Definition filled_row (b : board) (r : row) : result row :=
  cs ← getitem "corners" (corners r);
  ixs ← getitem "ids" (ids r);
  pts ← fill_points b cs ixs;
  Ok (set_filled pts r).

Definition store_row (l : loc) (r : row) : M () := λ σ,
  (Ok (), State (<[l := r]> (heap σ)) (pose_calls σ)).

(** [fill_points_rows], lines 317-320: the records are filled in place and
    the same list is returned. *)
Definition fill_points_rows (b : board) (rows : list loc) : M (list loc) :=
  _ ← mapM (λ l, r ← deref l; r' ← lift (filled_row b r); store_row l r')
           rows;
  mret rows.

(** [estimate_pose_rows], lines 309-315. *)
Definition estimate_pose_rows (cv : opencv) (b : board) (cam : camera)
    (rows : list loc) : M (list loc) :=
  _ ← mapM (λ l, r ← deref l;
                 cs ← lift (getitem "corners" (corners r));
                 ixs ← lift (getitem "ids" (ids r));
                 _ ← log_pose_call l;
                 p ← lift (estimate_pose_points cv b cam cs ixs);
                 store_pose l p.1 p.2)
           rows;
  mret rows.

(** Lines 332-337 for one record: the object points and the image points
    of the slots without a NaN coordinate.  A boolean index must be as long
    as the array it selects from. *)
Definition good_points (objpoints : list point3) (pts : list point2)
  : result (list point3 * list point2) :=
  let good := (λ p, negb (point_bad p)) <$> pts in
  if bool_decide (length good = length objpoints)
  then Ok (select good objpoints, select good pts)
  else Raise IndexError.

(** [np.vstack] of a list of arrays; it needs at least one array. *)
Definition vstack {A} (parts : list (list A)) : result (list A) :=
  match parts with
  | [] => Raise ValueError
  | _ => Ok (concat parts)
  end.

(** [get_all_calibration_points], lines 322-345. *)
Definition get_all_calibration_points (b : board) (rows : list loc)
  : M (list point3 * list point2) :=
  rows ← fill_points_rows b rows;
  let objpoints := get_object_points b in
  parts ← mapM (λ l, r ← deref l;
                     pts ← lift (getitem "filled" (filled r));
                     lift (good_points objpoints pts))
               rows;
  all_obj ← lift (vstack (fst <$> parts));
  all_img ← lift (vstack (snd <$> parts));
  mret (all_obj, all_img).

(** ** Detection of a video and of a list of images *)

(** A decoded frame; the detectors are external, so only its identity
    matters. *)
Definition image : Type := list (list Z).

(** [detect_image] of the board at hand, backed by OpenCV: the corners and
    identifiers found in a frame, or an exception. *)
Definition detector : Type :=
  image → result (option (list point2) * option (list Z)).

(** An opened video: the frame count that the container reports and the
    frames that [cap.read()] delivers, in order. *)
Record video : Type := Video {
  frame_count : Z;
  frames : list image
}.

(** [corners is not None and len(corners) > 0]. *)
Definition found (corners : option (list point2)) : bool :=
  match corners with
  | Some (_ :: _) => true
  | _ => false
  end.

(** Lines 284-301: [n] iterations of [range(length)] are left, [framenum]
    is the current index, [frames] are the frames not read yet.  [skip] is
    a positive stride (the source divides by it), [go] counts the frames
    still to examine after a detection. *)
Fixpoint video_loop (detect : detector) (skip : positive) (n : nat)
    (framenum go : Z) (frames : list image) : result (list row) :=
  match n, frames with
  | O, _ => Ok []
  | S _, [] => Ok []
  | S n, frame :: frames =>
      if bool_decide (framenum `mod` Z.pos skip ≠ 0) && bool_decide (go ≤ 0)
      then video_loop detect skip n (framenum + 1) go frames
      else
        d ← detect frame;
        let go := if found d.1 then Z.pos skip `div` 2 else go in
        let go := Z.max 0 (go - 1) in
        rest ← video_loop detect skip n (framenum + 1) go frames;
        Ok (if found d.1
            then Row framenum (Some d.1) (Some d.2) None None None :: rest
            else rest)
  end.

(** [detect_video], lines 272-307, without a prefix: the key of a record is
    its frame number.  (With a prefix every key is paired with it.)  The
    records are new, and are filled before they are returned. *)
Definition detect_video (detect : detector) (b : board) (v : video)
    (skip : positive) : result (list row) :=
  let length := Z.to_nat (frame_count v) in
  let go := Z.pos skip `div` 2 in
  rows ← video_loop detect skip length 0 go (frames v);
  mapM (filled_row b) rows.

(** Lines 247-264 of [detect_images] without a prefix: [cv2.imread] gives
    None for a file it cannot read, and [detect_image] fails on None when
    it asks for the shape of the image. *)
Fixpoint images_loop (imread : string → option image) (detect : detector)
    (framenum : Z) (images : list string) : result (list row) :=
  match images with
  | [] => Ok []
  | imname :: images =>
      d ← match imread imname with
          | Some frame => detect frame
          | None => Raise AttributeError
          end;
      rest ← images_loop imread detect (framenum + 1) images;
      Ok (match d.1 with
          | Some _ => Row framenum (Some d.1) (Some d.2) None None None :: rest
          | None => rest
          end)
  end.

(** [detect_images], lines 238-270.  After the loop the body reads the
    name [cap], which the function never assigns. *)
Definition detect_images (imread : string → option image)
    (detect : detector) (b : board) (images : list string)
  : result (list row) :=
  rows ← images_loop imread detect 0 images;
  _ ← load_name [] "cap";
  mapM (filled_row b) rows.

(** The OpenCV calls of [Checkerboard.detect_image], external to this
    module: the conversion of a colour image to gray scale (lines 403-406),
    the corner search, which returns a success flag and the corners or None,
    and the sub-pixel refinement of the corners. *)
Record chessboard_cv : Type := ChessboardCV {
  to_gray : image → result image;
  findChessboardCorners : image → result (bool * option (list point2));
  cornerSubPix : image → option (list point2) → result (option (list point2))
}.

(** [Checkerboard.detect_image], lines 402-421. *)
Definition Checkerboard_detect_image (cv : chessboard_cv) (self : board)
    (subpix : bool) (img : image)
  : result (option (list point2) * option (list Z)) :=
  gray ← to_gray cv img;
  res ← findChessboardCorners cv gray;
  corners ← (if res.1 && subpix then cornerSubPix cv gray res.2
             else Ok res.2);
  let ids := match corners with
             | None => None
             | Some _ => Some (board_ids self)
             end in
  Ok (corners, ids).

(** A detected ArUco marker: its four corners. *)
Definition marker : Type := list point2.

(** The ArUco calls of [CharucoBoard.detect_markers] and
    [CharucoBoard.detect_image], external to this module.  [K] and [D] are
    None when no camera is given. *)
Record aruco_cv : Type := ArucoCV {
  aruco_to_gray : image → result image;
  detectMarkers :
    image → result (list marker * option (list Z) * list marker);
  refineDetectedMarkers :
    image → board → list marker → list Z → list marker →
    option (list scalar) → option (list scalar) →
    result (list marker * option (list Z));
  interpolateCornersCharuco :
    list marker → option (list Z) → image → board →
    result (option (list point2) * option (list Z))
}.

(** [CharucoBoard.detect_markers], lines 522-553. *)
Definition detect_markers (cv : aruco_cv) (self : board) (img : image)
    (cam : option camera) : result (list marker * option (list Z)) :=
  gray ← aruco_to_gray cv img;
  res ← detectMarkers cv gray;
  let '(corners, ids, rejectedImgPoints) := res in
  match ids with
  | None => Ok ([], Some [])
  | Some ixs =>
      let K := get_camera_matrix <$> cam in
      let D := get_distortions <$> cam in
      refineDetectedMarkers cv gray self corners ixs rejectedImgPoints K D
  end.

(** [CharucoBoard.detect_image], lines 555-570; [np.float32([])] is the
    empty array. *)
Definition CharucoBoard_detect_image (cv : aruco_cv) (self : board)
    (cam : option camera) (img : image)
  : result (option (list point2) * option (list Z)) :=
  gray ← aruco_to_gray cv img;
  res ← detect_markers cv self img cam;
  match res.1 with
  | _ :: _ =>
      det ← interpolateCornersCharuco cv res.1 res.2 gray self;
      match det.2 with
      | None => Ok (Some [], Some [])
      | Some _ => Ok det
      end
  | [] => Ok (Some [], Some [])
  end.

(** [estimate_pose_image], lines 234-236, for the [detect_image] of the
    board at hand. *)
Definition estimate_pose_image (detect : detector) (cv : opencv) (b : board)
    (cam : camera) (img : image) : result (option vec3 * option vec3) :=
  d ← detect img;
  estimate_pose_points cv b cam d.1 d.2.

(** ** Specification predicates *)

(** A row-major table of slots for [n_cams] cameras and a board of [n]
    points. *)
Definition well_shaped (n_cams n : nat) (rows : list (list slot)) : Prop :=
  Forall (λ slots, length slots = n_cams ∧
                   Forall (λ s : slot, length s.1 = n ∧ length s.2 = n) slots)
         rows.

(** The records that have both pose keys in [σ] are unchanged in [σ']. *)
Definition frozen (σ σ' : state) : Prop :=
  ∀ l, has_pose_keys (heap σ l) = true → heap σ' l = heap σ l.

(** What a run with solver [cv] and board [b] from [σ] to [σ'] did to the
    record at [l]: nothing, or the record lacked a pose key and now holds
    the result of one pose estimate on its corners and identifiers. *)
Definition pose_cached (cv : opencv) (b : option board) (σ σ' : state)
    (l : loc) : Prop :=
  heap σ' l = heap σ l ∨
  (has_pose_keys (heap σ l) = false ∧
   ∃ b0 cam cs ixs p,
     b = Some b0 ∧ corners (heap σ l) = Some cs ∧ ids (heap σ l) = Some ixs ∧
     estimate_pose_points cv b0 cam cs ixs = Ok p ∧
     heap σ' l = set_pose_keys p.1 p.2 (heap σ l)).

(** The pose estimates invoked between [σ] and [σ'] were all on records
    that lacked a pose key in [σ]. *)
Definition only_new_calls (σ σ' : state) : Prop :=
  ∃ new, pose_calls σ' = new ++ pose_calls σ ∧
         ∀ l, l ∈ new → has_pose_keys (heap σ l) = false.

Definition evolves (cv : opencv) (b : option board) (σ σ' : state) : Prop :=
  (∀ l, pose_cached cv b σ σ' l) ∧ only_new_calls σ σ'.

(** A computation whose every run, returning or raising, evolves the
    state. *)
Definition preserves {A} (cv : opencv) (b : option board) (m : M A) : Prop :=
  ∀ σ, evolves cv b σ (m σ).2.

(** A filled point that the camera observed: neither coordinate is NaN. *)
Definition observed (p : point2) : bool :=
  match p with
  | (Fin _, Fin _) => true
  | _ => false
  end.

(** The record has no usable pose: [rvec] or [tvec] is missing or None. *)
Definition lacks_pose (r : row) : Prop :=
  rvec r = None ∨ rvec r = Some None ∨ tvec r = None ∨ tvec r = Some None.

(** The condition under which the specification has a detection skipped:
    fewer than [min_points] observed points, or a pose is required and the
    record has none. *)
Definition slot_skipped (min_points : Z) (ignore_no_pose : bool) (r : row)
    (pts : list point2) : Prop :=
  Z.of_nat (length (filter (λ p, observed p = true) pts)) < min_points ∨
  (ignore_no_pose = true ∧ lacks_pose r).

(** The object-point template with the points that the camera did not
    observe set to NaN. *)
Definition masked_template (template : list point3) (pts : list point2)
  : list point3 :=
  zip_with (λ p o, if observed p then o else nan3) pts template.



(** The position in a mask of its [j]-th true entry: where row [j] of
    [a[mask]] comes from. *)
Fixpoint true_index (mask : list bool) (j : nat) : option nat :=
  match mask with
  | [] => None
  | true :: mask =>
      match j with
      | O => Some O
      | S j => S <$> true_index mask j
      end
  | false :: mask => S <$> true_index mask j
  end.

(** Whether a camera's plane has data in row [j], as lines 142 and 203
    test it: the first component is not NaN. *)
Definition good_pose_at (j : nat) (plane : list (list scalar)) : bool :=
  match plane !! j with
  | Some v => negb (isnan (default NaN (head v)))
  | None => false
  end.

Definition good_point_at (j : nat) (plane : list point2) : bool :=
  match plane !! j with
  | Some p => negb (isnan p.1)
  | None => false
  end.

(** The image points of one frame, observation by observation: entry
    [pix] lists what each camera holds for board point [pix]. *)
Definition point_table (n : nat) (slots : list slot) : list (list point2) :=
  (λ pix, (λ s : slot, default nan2 (s.2 !! pix)) <$> slots) <$> seq 0 n.

(** Lines 311-314: the record after
    [row['rvec'], row['tvec'] = self.estimate_pose_points(...)]. *)
Definition posed_row (cv : opencv) (b : board) (cam : camera) (r : row)
  : result row :=
  cs ← getitem "corners" (corners r);
  ixs ← getitem "ids" (ids r);
  p ← estimate_pose_points cv b cam cs ixs;
  Ok (set_pose_keys p.1 p.2 r).

(** A frame of [detect_video] was examined: the detector returned for
    it, and a detection that it found is among the records. *)
Definition examined (detect : detector) (rows : list row) (k : Z)
    (frame : image) : Prop :=
  ∃ d, detect frame = Ok d ∧
       (found d.1 = true →
        ∃ r, r ∈ rows ∧ framenum r = k ∧
             corners r = Some d.1 ∧ ids r = Some d.2).

(** The frames that the sampling of [detect_video] looks at, as seen from
    frame [first], where [go] further frames are due: the multiples of the
    stride, the [go] frames from [first] on, and the frames less than half
    a stride after a detection. *)
Definition sampled (skip : positive) (first go : Z) (rows : list row)
    (k : Z) : Prop :=
  k `mod` Z.pos skip = 0 ∨ k - first < go ∨
  ∃ r, r ∈ rows ∧ framenum r < k < framenum r + Z.pos skip `div` 2.

(** What lines 178-201 compute for one camera when no board is given: a
    read of the heap, raising on a record that lacks a pose key. *)
Definition read_cam (σ : state) (row : gmap cam_name loc)
    (p : nat * cam_name) : result (list scalar) :=
  match row !! p.2 with
  | Some l =>
      if has_pose_keys (heap σ l) then pose_slot (heap σ l)
      else Raise ValueError
  | None => Ok nan6
  end.

(** The corner that the scatter loop leaves in slot [j]: the last one
    zipped with identifier [j], if any. *)
Definition scattered_to (j : Z) (l : list (Z * point2)) : option point2 :=
  snd <$> last (filter (λ p, p.1 = j) l).

(** ** Sample data for the examples *)

(** A detection of the single point [(v, v)], identifier 0, in frame
    [num]; no pose yet. *)
Definition sample_row (num v : Z) : row :=
  Row num (Some (Some [(Fin v, Fin v)])) (Some (Some [0]))
      (Some [(Fin v, Fin v)]) None None.

(** A board of two points and two kinds of detections of it: both points
    seen, and only the first one seen. *)
Definition sample_board : board := Checkerboard 2 1 (Fin 1).

Definition full_row (num : Z) : row :=
  Row num (Some (Some [(Fin 1, Fin 2); (Fin 3, Fin 4)])) (Some (Some [0; 1]))
      (Some [(Fin 1, Fin 2); (Fin 3, Fin 4)]) None None.

Definition partial_row (num : Z) : row :=
  Row num (Some (Some [(Fin 1, Fin 2)])) (Some (Some [0]))
      (Some [(Fin 1, Fin 2); (NaN, NaN)]) None None.

(** Two cameras, three frames: both see frame 0 in full, the left one sees
    frame 1 in part, the right one sees frame 2 in full. *)
Definition sample_merged : list (gmap cam_name row) :=
  [ {[CamStr "left" := full_row 0; CamStr "right" := full_row 0]};
    {[CamStr "left" := partial_row 1]};
    {[CamStr "right" := full_row 2]} ].

(** A solver that finds a pose, and one that raises whenever it is
    invoked. *)
Definition sample_cv : opencv :=
  OpenCV (λ _ _ _ _, Raise cv2_error)
         (λ _ _ _ _ _, Ok (Some (Fin 1, Fin 2, Fin 3),
                           Some (Fin 4, Fin 5, Fin 6))).

Definition failing_cv : opencv :=
  OpenCV (λ _ _ _ _, Raise cv2_error) (λ _ _ _ _ _, Raise cv2_error).

Definition sample_charuco : board := CharucoBoard 3 3 (Fin 1).

Definition sample_camera : camera := Camera [] [].

(** A heap of three kinds of records without [filled]: at 0 three corners
    and no pose, at 1 two corners and no pose, elsewhere a pose computed
    ahead of time. *)
Definition sample_heap (l : loc) : row :=
  match l with
  | 0%nat =>
      Row 0 (Some (Some [(Fin 1, Fin 1); (Fin 2, Fin 2); (Fin 3, Fin 3)]))
          (Some (Some [0; 1; 2])) None None None
  | 1%nat =>
      Row 0 (Some (Some [(Fin 1, Fin 1); (Fin 2, Fin 2)]))
          (Some (Some [0; 1])) None None None
  | _ =>
      Row 1 (Some (Some [])) (Some (Some [])) None
          (Some (Some (Fin 7, Fin 8, Fin 9)))
          (Some (Some (Fin 10, Fin 11, Fin 12)))
  end.

Definition sample_state : state := State sample_heap [].

Definition sample_groups : list (gmap cam_name loc) :=
  [ {[CamStr "left" := 0%nat; CamStr "right" := 1%nat]};
    {[CamStr "left" := 2%nat]} ].

(** A detector that finds one corner, of identifier 0, in the frames that
    consist of a single pixel, and nothing in the others. *)
Definition sample_detect : detector := λ frame,
  match frame with
  | [[x]] => Ok (Some [(Fin x, Fin x)], Some [0])
  | _ => Ok (None, None)
  end.

(** Six frames; the board is visible in frames 0, 1, 3 and 4. *)
Definition sample_video : video :=
  Video 6 [[[1]]; [[2]]; []; [[4]]; [[5]]; []].

(** * Properties *)

(** ** merge_rows *)

Lemma option_union_assoc {A} (x y z : option A) : x ∪ (y ∪ z) = x ∪ y ∪ z.
Proof. by destruct x, y, z. Qed.

Section merge_rows_facts.
Context {K : Type} `{Countable K} (le : relation K) `{!RelDecision le}.
Context {R : Type} (frame_of : R → K).
Implicit Types (acc : gmap cam_name (gmap K R) * gset K).
Implicit Types (rows : list R) (l : list (cam_name * list R)).

Lemma last_with_key_app num rows1 rows2 :
  last_with_key frame_of num (rows1 ++ rows2)
  = last_with_key frame_of num rows2 ∪ last_with_key frame_of num rows1.
Proof.
  unfold last_with_key. rewrite filter_app, last_app.
  destruct (last (filter _ rows2)); [by rewrite union_Some_l|].
  by rewrite (left_id None _).
Qed.

Lemma last_with_key_elem num rows r :
  last_with_key frame_of num rows = Some r → r ∈ rows ∧ frame_of r = num.
Proof.
  unfold last_with_key. intros [pre Hpre]%last_Some.
  assert (r ∈ filter (λ r, frame_of r = num) rows) as Hin.
  { rewrite Hpre. set_solver. }
  apply list_elem_of_filter in Hin as [? ?]. by split.
Qed.

Lemma last_with_key_None num rows :
  last_with_key frame_of num rows = None ↔
  ∀ r, r ∈ rows → frame_of r ≠ num.
Proof.
  unfold last_with_key. rewrite last_None. split.
  - intros Hnil r Hr Heq.
    assert (r ∈ filter (λ r, frame_of r = num) rows) as Hin
      by by apply list_elem_of_filter.
    rewrite Hnil in Hin. by apply not_elem_of_nil in Hin.
  - intros Hall. apply elem_of_nil_inv. intros r [? ?]%list_elem_of_filter.
    naive_solver.
Qed.

Lemma add_rows_get cname acc rows c num :
  rows_dict_get (foldl (add_row frame_of cname) acc rows).1 c !! num
  = if decide (cname = c)
    then last_with_key frame_of num rows ∪ rows_dict_get acc.1 c !! num
    else rows_dict_get acc.1 c !! num.
Proof.
  revert acc. induction rows as [|r rows IH]; intros acc; simpl.
  { case_decide; [|done]. unfold last_with_key. simpl.
    by rewrite (left_id None _). }
  rewrite IH. case_decide as Hc; simpl.
  - subst c.
    assert (∀ m, rows_dict_get (<[cname := m]> acc.1) cname = m) as ->.
    { intros m. unfold rows_dict_get. by rewrite lookup_insert_eq. }
    change (r :: rows) with ([r] ++ rows). rewrite last_with_key_app.
    destruct (last_with_key frame_of num rows) as [r'|] eqn:Hlast;
      [by rewrite !union_Some_l|].
    rewrite !(left_id None _). unfold last_with_key. rewrite filter_cons.
    case_decide as Hk; simpl.
    + subst num. by rewrite lookup_insert_eq, union_Some_l.
    + by rewrite lookup_insert_ne, (left_id None _).
  - unfold rows_dict_get at 1. by rewrite lookup_insert_ne.
Qed.

Lemma add_rows_framenums cname acc rows num :
  num ∈ (foldl (add_row frame_of cname) acc rows).2 ↔
  num ∈ acc.2 ∨ ∃ r, r ∈ rows ∧ frame_of r = num.
Proof.
  revert acc. induction rows as [|r rows IH]; intros acc; simpl.
  { split; [by left|]. intros [?|(r & Hr & _)]; [done|].
    by apply elem_of_nil in Hr. }
  rewrite IH. simpl. rewrite elem_of_union, elem_of_singleton. split.
  - intros [[->|Hacc]|(r' & Hr' & Hnum)].
    + right. exists r. split; [left|done].
    + by left.
    + right. exists r'. split; [by right|done].
  - intros [Hacc|(r' & [->|Hr']%elem_of_cons & Hnum)].
    + left. by right.
    + left. by left.
    + right. by exists r'.
Qed.

Lemma cam_rows_cons cname p l :
  cam_rows cname (p :: l)
  = (if decide (p.1 = cname) then p.2 else []) ++ cam_rows cname l.
Proof.
  unfold cam_rows. rewrite filter_cons. by case_decide.
Qed.

Lemma collect_get acc l c num :
  rows_dict_get (foldl (add_cam frame_of) acc l).1 c !! num
  = last_with_key frame_of num (cam_rows c l) ∪ rows_dict_get acc.1 c !! num.
Proof.
  revert acc. induction l as [|p l IH]; intros acc; simpl.
  { by rewrite (left_id None _). }
  rewrite IH, cam_rows_cons, last_with_key_app.
  unfold add_cam. rewrite add_rows_get.
  case_decide; [by rewrite option_union_assoc|].
  unfold last_with_key at 2. simpl. by rewrite (right_id None _).
Qed.

Lemma collect_framenums acc l num :
  num ∈ (foldl (add_cam frame_of) acc l).2 ↔
  num ∈ acc.2 ∨ ∃ p r, p ∈ l ∧ r ∈ p.2 ∧ frame_of r = num.
Proof.
  revert acc. induction l as [|p l IH]; intros acc; simpl.
  { split; [by left|]. intros [?|(p & r & Hp & _)]; [done|].
    by apply elem_of_nil in Hp. }
  rewrite IH. unfold add_cam. rewrite add_rows_framenums. split.
  - intros [[Hacc|(r & Hr & Hnum)]|(p' & r & Hp' & Hr & Hnum)].
    + by left.
    + right. exists p, r. split; [left|done].
    + right. exists p', r. split; [by right|done].
  - intros [Hacc|(p' & r & [->|Hp']%elem_of_cons & Hr & Hnum)].
    + left. by left.
    + left. right. by exists r.
    + right. by exists p', r.
Qed.

Lemma group_lookup (d : gmap cam_name (gmap K R)) names num c :
  group d names num !! c
  = if decide (c ∈ names) then rows_dict_get d c !! num else None.
Proof.
  unfold group.
  assert (∀ d0 : gmap cam_name R,
    foldl (λ d' cname,
             match rows_dict_get d cname !! num with
             | Some r => <[cname := r]> d'
             | None => d'
             end) d0 names !! c
    = (if decide (c ∈ names) then rows_dict_get d c !! num else None)
      ∪ d0 !! c) as Hgen.
  { induction names as [|n names IH]; intros d0; simpl.
    { by rewrite (left_id None _). }
    rewrite IH. destruct (decide (c ∈ names)) as [Hin|Hnin].
    - rewrite decide_True by set_solver.
      destruct (rows_dict_get d c !! num) eqn:Hc;
        [by rewrite !union_Some_l|].
      rewrite !(left_id None _).
      destruct (rows_dict_get d n !! num) eqn:Hn; [|done].
      destruct (decide (n = c)) as [->|]; [congruence|].
      by rewrite lookup_insert_ne.
    - rewrite (left_id None _). destruct (decide (n = c)) as [->|Hne].
      + rewrite decide_True by set_solver.
        destruct (rows_dict_get d c !! num) eqn:Hn.
        * by rewrite lookup_insert_eq, union_Some_l.
        * by rewrite (left_id None _).
      + rewrite decide_False
          by (rewrite elem_of_cons; intros [?|?]; [congruence|done]).
        rewrite (left_id None _).
        destruct (rows_dict_get d n !! num); [|done].
        by rewrite lookup_insert_ne. }
  rewrite Hgen, lookup_empty. by rewrite (right_id None _).
Qed.

Lemma cam_rows_not_named c l : c ∉ l.*1 → cam_rows c l = [].
Proof.
  intros Hnin. unfold cam_rows.
  replace (filter (λ p, p.1 = c) l) with (@nil (cam_name * list R)); [done|].
  symmetry. apply elem_of_nil_inv. intros p [Hp Hin]%list_elem_of_filter.
  apply Hnin. subst c. by apply list_elem_of_fmap_2.
Qed.

(** With the lengths checked by the assertion, the group of [num] holds
    for each camera name the last record written for that name. *)
Lemma collect_group names all_rows num c :
  length names = length all_rows →
  group (collect frame_of names all_rows).1 names num !! c
  = last_with_key frame_of num (cam_rows c (zip names all_rows)).
Proof.
  intros Hlen. rewrite group_lookup. unfold collect.
  rewrite collect_get. simpl. unfold rows_dict_get at 1.
  rewrite (lookup_empty c). simpl. rewrite (lookup_empty num).
  case_decide as Hin; [by rewrite (right_id None _)|].
  rewrite cam_rows_not_named; [done|].
  by rewrite fst_zip by lia.
Qed.
End merge_rows_facts.

Section sorted_facts.
Context {K : Type} `{Countable K} (le : relation K) `{!RelDecision le}.
Context `{!PartialOrder le, !Total le}.

Lemma sorted_elem_of (s : gset K) (num : K) : num ∈ sorted le s ↔ num ∈ s.
Proof. unfold sorted. by rewrite merge_sort_Permutation, elem_of_elements. Qed.


Lemma StronglySorted_strict (l : list K) :
  StronglySorted le l → NoDup l → StronglySorted (strict le) l.
Proof.
  induction 1 as [|x l Hl IH Hx]; intros Hnd; [constructor|].
  apply NoDup_cons in Hnd as [Hnin Hnd]. constructor; [by apply IH|].
  rewrite Forall_forall in Hx |- *. intros y Hy.
  split; [by apply Hx|]. intros Hyx.
  assert (x = y) as -> by (by apply (anti_symm le); [apply Hx|]). done.
Qed.

End sorted_facts.

Section merge_rows_order.
Context {K : Type} `{Countable K} (le : relation K) `{!RelDecision le}.
Context {R : Type} (frame_of : R → K).
Implicit Types (l : list (cam_name * list R)).

Lemma filter_name_nil c l : c ∉ l.*1 → filter (λ p, p.1 = c) l = [].
Proof.
  intros Hnin. apply elem_of_nil_inv. intros p [Hp Hin]%list_elem_of_filter.
  apply Hnin. subst c. by apply list_elem_of_fmap_2.
Qed.

Lemma filter_name_NoDup c l :
  NoDup l.*1 → (length (filter (λ p, p.1 = c) l) ≤ 1)%nat.
Proof.
  induction l as [|p l IH]; simpl; [lia|].
  intros [Hnin Hnd]%NoDup_cons. rewrite filter_cons. case_decide as Hp.
  - subst c. rewrite filter_name_nil by done. simpl. lia.
  - by apply IH.
Qed.

Lemma cam_rows_Permutation c l l' :
  NoDup l.*1 → l ≡ₚ l' → cam_rows c l = cam_rows c l'.
Proof.
  intros Hnd Hperm. unfold cam_rows. f_equal. f_equal.
  assert (filter (λ p, p.1 = c) l ≡ₚ filter (λ p, p.1 = c) l') as Hf
    by by rewrite Hperm.
  pose proof (filter_name_NoDup c l Hnd) as Hlen.
  destruct (filter (λ p, p.1 = c) l) as [|p [|q f]]; simpl in Hlen; [| |lia].
  - by apply Permutation_nil_l in Hf.
  - by apply Permutation_singleton_l in Hf.
Qed.

Lemma zip_fst_elem (c : cam_name) (names : list cam_name)
    (all_rows : list (list R)) :
  c ∈ (zip names all_rows).*1 → c ∈ names.
Proof.
  revert all_rows. induction names as [|n names IH];
    intros [|rs all_rows] Hin; simpl in *;
    try by apply elem_of_nil in Hin.
  apply elem_of_cons in Hin as [->|Hin]; [left|right; eauto].
Qed.

(** With distinct names, the records of a name are those of its list. *)
Lemma cam_rows_lookup (names : list cam_name) (all_rows : list (list R))
    (i : nat) c rows :
  NoDup names → names !! i = Some c → all_rows !! i = Some rows →
  cam_rows c (zip names all_rows) = rows.
Proof.
  revert all_rows i. induction names as [|n names IH];
    intros [|rs all_rows] [|i] Hnd Hn Hr; simplify_eq/=.
  - apply NoDup_cons in Hnd as [Hnin _]. rewrite cam_rows_cons. simpl.
    rewrite decide_True by done.
    rewrite (cam_rows_not_named c (zip names all_rows)).
    + by rewrite (right_id_L [] _).
    + intros Hin. apply Hnin. by eapply zip_fst_elem.
  - apply NoDup_cons in Hnd as [Hnin Hnd]. rewrite cam_rows_cons. simpl.
    rewrite decide_False.
    + by apply (IH all_rows i).
    + intros ->. apply Hnin. by eapply list_elem_of_lookup_2.
Qed.

Lemma collect_framenums_zip (names : list cam_name)
    (all_rows : list (list R)) num :
  length names = length all_rows →
  num ∈ (collect frame_of names all_rows).2 ↔
  ∃ rows r, rows ∈ all_rows ∧ r ∈ rows ∧ frame_of r = num.
Proof.
  intros Hlen. unfold collect. rewrite collect_framenums. simpl. split.
  - intros [Hin|(p & r & Hp & Hr & Hk)]; [by apply elem_of_empty in Hin|].
    exists p.2, r. split_and!; [|done..].
    rewrite <-(snd_zip names all_rows) by lia. by apply list_elem_of_fmap_2.
  - intros (rows & r & Hrows & Hr & Hk). right.
    rewrite <-(snd_zip names all_rows) in Hrows by lia.
    apply list_elem_of_fmap in Hrows as (p & -> & Hp). by exists p, r.
Qed.
End merge_rows_order.

(** Keys with a prefix are totally ordered, so that the facts below apply
    to them as they do to plain frame numbers. *)
Global Instance prefixed_le_po : PartialOrder prefixed_le.
Proof.
  split; [split|].
  - intros [p n]. right. simpl. split; [done|lia].
  - intros [p1 n1] [p2 n2] [p3 n3]. unfold prefixed_le. simpl.
    intros [H12|[-> H12]] [H23|[-> H23]].
    + left. by etrans.
    + by left.
    + by left.
    + right. split; [done|lia].
  - intros [p1 n1] [p2 n2]. unfold prefixed_le. simpl.
    intros [[H12 Hn12]|[-> H12]] [[H21 Hn21]|[Heq H21]]; try done.
    + by subst.
    + f_equal. lia.
Qed.

Global Instance prefixed_le_total : Total prefixed_le.
Proof.
  intros [p1 n1] [p2 n2]. unfold prefixed_le. simpl.
  destruct (decide (p1 = p2)) as [->|Hne].
  - destruct (total Z.le n1 n2); [left|right]; by right.
  - destruct (total String.le p1 p2) as [Hle|Hle]; [left|right]; left;
      (split; [done|]); intros Hge; apply Hne;
      by apply (anti_symm String.le).
Qed.

(** Frames of two capture sessions are ordered by session first, not
    interleaved by frame number. *)
Example merge_rows_prefixed :
  merge_rows prefixed_le id [[("b", 0); ("a", 5)]; [("a", 1)]] None
  = Ok [ {[CamIdx 1 := ("a", 1)]}; {[CamIdx 0 := ("a", 5)]};
         {[CamIdx 0 := ("b", 0)]} ].
Proof. by vm_compute. Qed.

(** The result of [merge_rows] once the assertion of line 62 holds. *)
Lemma merge_rows_run {K} `{Countable K} (le : relation K)
    `{!RelDecision le} {R} (frame_of : R → K) (all_rows : list (list R))
    (cam_names : option (list cam_name)) :
  (∀ ns, cam_names = Some ns → length ns = length all_rows) →
  let names := default (default_names (length all_rows)) cam_names in
  length names = length all_rows ∧
  merge_rows le frame_of all_rows cam_names
  = Ok (group (collect frame_of names all_rows).1 names
          <$> sorted le (collect frame_of names all_rows).2).
Proof.
  intros Hassert names. split.
  - subst names. destruct cam_names as [ns|]; simpl; [by apply Hassert|].
    unfold default_names. by rewrite length_fmap, length_seq.
  - unfold merge_rows. subst names. destruct cam_names as [ns|]; simpl.
    + rewrite (Hassert ns eq_refl), Nat.eqb_refl. simpl.
      by destruct (collect frame_of ns all_rows).
    + by destruct (collect frame_of _ all_rows).
Qed.

(** C5, as amended.  When an explicit camera-name list is not as long as
    the list of detection lists, the assertion of line 62 fails:
    [merge_rows] raises [AssertionError] and returns no merged groups.  (The
    module defines no [ConfigurationError].) *)
Theorem merge_rows_name_count_mismatch {K} `{Countable K}
    (le : relation K) `{!RelDecision le} {R} (frame_of : R → K)
    (all_rows : list (list R)) (names : list cam_name) :
  length names ≠ length all_rows →
  merge_rows le frame_of all_rows (Some names) = Raise AssertionError.
Proof.
  intros Hlen. unfold merge_rows.
  destruct (Nat.eqb_spec (length all_rows) (length names)) as [Heq|_];
    [congruence|done].
Qed.

Lemma merge_rows_name_count_mismatch_witness :
  length [CamStr "left"; CamStr "right"] ≠ length [[sample_row 0 1]] ∧
  merge_rows Z.le framenum [[sample_row 0 1]] (Some [CamStr "left"; CamStr "right"])
  = Raise AssertionError.
Proof.
  split; [simpl; lia|].
  apply merge_rows_name_count_mismatch. simpl. lia.
Defined.

(** C5 as stated fails: on a name-count mismatch the raised exception is
    not of a class named [ConfigurationError]. *)
Lemma merge_rows_mismatch_class :
  ¬ ∃ e, merge_rows Z.le framenum [[sample_row 0 1]]
                    (Some [CamStr "left"; CamStr "right"]) = Raise e
         ∧ exn_class e = "ConfigurationError".
Proof.
  intros (e & Hraise & Hclass). vm_compute in Hraise.
  injection Hraise as <-. discriminate Hclass.
Qed.



(** C9, as amended.  With pairwise distinct camera names, permuting the
    detection lists together with their names does not change the merged
    groups: the same frame numbers in the same order, each group mapping the
    same names to the same records. *)
Theorem merge_rows_permutation {K} `{Countable K} (le : relation K)
    `{!RelDecision le} {R} (frame_of : R → K)
    (names names' : list cam_name) (all_rows all_rows' : list (list R)) :
  length names = length all_rows →
  length names' = length all_rows' →
  NoDup names →
  zip names all_rows ≡ₚ zip names' all_rows' →
  ∃ merged,
    merge_rows le frame_of all_rows (Some names) = Ok merged ∧
    merge_rows le frame_of all_rows' (Some names') = Ok merged.
Proof.
  intros Hlen Hlen' Hnd Hperm.
  destruct (merge_rows_run le frame_of all_rows (Some names)) as [_ Hrun];
    [by intros ns [= <-]|].
  destruct (merge_rows_run le frame_of all_rows' (Some names')) as [_ Hrun'];
    [by intros ns [= <-]|].
  simpl in Hrun, Hrun'. eexists. split; [exact Hrun|]. rewrite Hrun'.
  assert ((collect frame_of names' all_rows').2
          = (collect frame_of names all_rows).2) as ->.
  { apply set_eq. intros num. rewrite !collect_framenums_zip by done.
    assert (∀ rows : list R, rows ∈ all_rows ↔ rows ∈ all_rows') as Hrows.
    { intros rows. rewrite <-(snd_zip names all_rows) by lia.
      rewrite <-(snd_zip names' all_rows') by lia. by rewrite Hperm. }
    split; intros (rows & r & Hin & Hr); exists rows, r;
      (split; [by apply Hrows|done]). }
  f_equal. apply list_fmap_ext. intros _ num _. apply map_eq. intros c.
  rewrite !collect_group by done. f_equal. symmetry.
  apply cam_rows_Permutation; [|done]. by rewrite fst_zip by lia.
Qed.

Lemma merge_rows_permutation_witness :
  let names := [CamStr "left"; CamStr "right"] in
  let names' := [CamStr "right"; CamStr "left"] in
  let all_rows := [[sample_row 0 1; sample_row 1 3]; [sample_row 0 2]] in
  let all_rows' := [[sample_row 0 2]; [sample_row 0 1; sample_row 1 3]] in
  (length names = length all_rows ∧ length names' = length all_rows' ∧
   NoDup names ∧ zip names all_rows ≡ₚ zip names' all_rows') ∧
  ∃ merged,
    merge_rows Z.le framenum all_rows (Some names) = Ok merged ∧
    merge_rows Z.le framenum all_rows' (Some names') = Ok merged.
Proof.
  intros names names' all_rows all_rows'.
  assert (NoDup names) as Hnd by (by apply (bool_decide_unpack _)).
  assert (zip names all_rows ≡ₚ zip names' all_rows') as Hperm
    by apply Permutation_swap.
  split; [by split_and!|].
  exact (merge_rows_permutation Z.le framenum names names' all_rows all_rows'
           eq_refl eq_refl Hnd Hperm).
Defined.

(** C9 as stated fails when a camera name is repeated: the two lists given
    under the same name are written to the same dict, so the record kept for
    a frame number that both contain depends on the order of the lists. *)
Lemma merge_rows_duplicate_names_order :
  let names := [CamStr "cam"; CamStr "cam"] in
  let all_rows := [[sample_row 0 1]; [sample_row 0 2]] in
  let all_rows' := [[sample_row 0 2]; [sample_row 0 1]] in
  zip names all_rows ≡ₚ zip names all_rows' ∧
  merge_rows Z.le framenum all_rows (Some names)
  = Ok [{[CamStr "cam" := sample_row 0 2]}] ∧
  merge_rows Z.le framenum all_rows' (Some names)
  = Ok [{[CamStr "cam" := sample_row 0 1]}] ∧
  merge_rows Z.le framenum all_rows (Some names)
  ≠ merge_rows Z.le framenum all_rows' (Some names).
Proof.
  intros names all_rows all_rows'.
  assert (merge_rows Z.le framenum all_rows (Some names)
          = Ok [{[CamStr "cam" := sample_row 0 2]}]) as Hrun
    by (vm_compute; reflexivity).
  assert (merge_rows Z.le framenum all_rows' (Some names)
          = Ok [{[CamStr "cam" := sample_row 0 1]}]) as Hrun'
    by (vm_compute; reflexivity).
  split; [apply Permutation_swap|]. split; [done|]. split; [done|].
  rewrite Hrun, Hrun'. intros Heq.
  apply (f_equal (λ r : result (list (gmap cam_name row)),
                    match r with
                    | Ok [g] => g !! CamStr "cam"
                    | _ => None
                    end)) in Heq.
  rewrite !lookup_singleton_eq in Heq. discriminate Heq.
Qed.

(** ** Calibration objects *)

(** C1 (the code departs from it).  [Checkerboard.estimate_pose_points]
    reads the unbound name [corners] in its first statement, so every call
    raises [NameError], also the calls with fewer than 3 good
    correspondences, for which the None pair is documented. *)
Theorem Checkerboard_estimate_pose_points_NameError (cv : opencv)
    (self : board) (cam : camera) (points : option (list point2))
    (ids : option (list Z)) :
  Checkerboard_estimate_pose_points cv self cam points ids
  = Raise (NameError "corners").
Proof. by destruct points, ids. Qed.

Lemma scatter_lookup (out : list point2) (l : list (Z * point2)) :
  Forall (λ p, 0 ≤ p.1 < Z.of_nat (length out)) l →
  ∃ out', scatter out l = Ok out' ∧ length out' = length out ∧
          ∀ j : nat, out' !! j = scattered_to (Z.of_nat j) l ∪ out !! j.
Proof.
  revert out. induction l as [|[i cxs] l IH]; intros out Hl.
  { exists out. split_and!; [done..|]. intros j.
    unfold scattered_to. simpl. by rewrite (left_id None _). }
  apply Forall_cons in Hl as [Hi Hl]. simpl in Hi |- *.
  unfold setitem. rewrite bool_decide_eq_true_2 by done. simpl.
  destruct (IH (<[Z.to_nat i := cxs]> out)) as (out' & Hrun & Hlen & Hout).
  { by rewrite length_insert. }
  exists out'. split; [done|]. rewrite length_insert in Hlen.
  split; [done|]. intros j. rewrite Hout. unfold scattered_to.
  rewrite filter_cons. simpl.
  destruct (last (filter (λ p, p.1 = Z.of_nat j) l)) as [p|] eqn:Hlast.
  { case_decide; [rewrite last_cons|]; rewrite Hlast; simpl;
      by rewrite !union_Some_l. }
  simpl. rewrite (left_id None _). case_decide as Hj.
  - subst i. rewrite last_cons, Hlast. simpl. rewrite union_Some_l.
    rewrite Nat2Z.id. apply list_lookup_insert_eq. lia.
  - rewrite Hlast. simpl. rewrite (left_id None _).
    apply list_lookup_insert_ne. lia.
Qed.

(** C4, as amended.  [fill_points] returns the all-NaN layout of
    [total_size] slots when [corners] is None or empty.  For corners with
    identifiers, all in [0, total_size), it returns a layout of
    [total_size] slots in which slot [j] holds the last corner zipped with
    identifier [j] and NaN when there is none.  For non-empty corners
    without identifiers, the checkerboard returns the corners as they
    are. *)
Theorem fill_points_layout (b : board) (corners : option (list point2))
    (ids : option (list Z)) :
  (corners = None ∨ corners = Some [] →
   fill_points b corners ids = Ok (replicate (total_size b) nan2)) ∧
  (∀ cs ixs,
     corners = Some cs → ids = Some ixs →
     Forall (λ p, 0 ≤ p.1 < Z.of_nat (total_size b)) (zip ixs cs) →
     ∃ out, fill_points b corners ids = Ok out ∧
            length out = total_size b ∧
            ∀ j, (j < total_size b)%nat →
                 out !! j = Some (default nan2
                                    (scattered_to (Z.of_nat j) (zip ixs cs)))) ∧
  (∀ cs, corners = Some cs → cs ≠ [] → ids = None → kind b = Checker →
         fill_points b corners ids = Ok cs).
Proof.
  split_and!.
  - by intros [->| ->].
  - intros cs ixs -> -> Hin. unfold fill_points.
    destruct (scatter_lookup (get_empty_detection b) (zip ixs cs))
      as (out & Hrun & Hlen & Hout).
    { unfold get_empty_detection. by rewrite length_replicate. }
    unfold get_empty_detection in Hlen. rewrite length_replicate in Hlen.
    exists out. split.
    { destruct cs as [|c cs]; [|by destruct (kind b)].
      rewrite zip_with_nil_r in Hrun. by injection Hrun as <-. }
    split; [done|]. intros j Hj. rewrite Hout. unfold get_empty_detection.
    rewrite lookup_replicate_2 by done.
    by destruct (scattered_to _ _).
  - intros cs -> Hcs -> Hkind. unfold fill_points. rewrite Hkind.
    by destruct cs.
Qed.

Lemma fill_points_layout_witness :
  let b := CharucoBoard 3 3 (Fin 1) in
  let cs := [(Fin 10, Fin 11); (Fin 20, Fin 21)] in
  let ixs := [3; 1] in
  Forall (λ p, 0 ≤ p.1 < Z.of_nat (total_size b)) (zip ixs cs) ∧
  ∃ out, fill_points b (Some cs) (Some ixs) = Ok out ∧
         length out = total_size b ∧
         ∀ j, (j < total_size b)%nat →
              out !! j = Some (default nan2
                                 (scattered_to (Z.of_nat j) (zip ixs cs))).
Proof.
  intros b cs ixs.
  assert (Forall (λ p, 0 ≤ p.1 < Z.of_nat (total_size b)) (zip ixs cs))
    as Hin by (repeat constructor; simpl; lia).
  split; [done|].
  destruct (fill_points_layout b (Some cs) (Some ixs)) as (_ & Hids & _).
  by apply (Hids cs ixs).
Defined.

(** C4 as stated fails: without identifiers the checkerboard returns the
    detected corners unchanged, here one point for a board of four. *)
Lemma fill_points_no_ids_not_padded :
  let b := Checkerboard 2 2 (Fin 1) in
  fill_points b (Some [(Fin 5, Fin 7)]) None = Ok [(Fin 5, Fin 7)] ∧
  ¬ ∃ out, fill_points b (Some [(Fin 5, Fin 7)]) None = Ok out ∧
           length out = total_size b.
Proof.
  split; [reflexivity|]. intros (out & [= <-] & Hlen). discriminate Hlen.
Qed.

(** ** extract_points *)

Lemma mapM_Ok_lookup {A B} (f : A → result B) (l : list A) (k : list B) :
  mapM f l = Ok k →
  ∀ i x, l !! i = Some x → ∃ y, k !! i = Some y ∧ f x = Ok y.
Proof.
  revert k. induction l as [|x l IH]; intros k Hrun i x' Hi; [done|].
  simpl in Hrun. destruct (f x) as [y|] eqn:Hx; [|done]. simpl in Hrun.
  destruct (mapM f l) as [k'|] eqn:Hl; [|done]. simpl in Hrun.
  injection Hrun as <-. destruct i as [|i]; simpl in *.
  - injection Hi as <-. by exists y.
  - by apply (IH k').
Qed.

Lemma mapM_Ok_intro {A B} (f : A → result B) (l : list A) :
  (∀ x, x ∈ l → ∃ y, f x = Ok y) → ∃ k, mapM f l = Ok k.
Proof.
  induction l as [|x l IH]; intros Hall; [by exists []|].
  destruct (Hall x) as [y Hy]; [left|].
  destruct IH as [k Hk]; [intros x' Hx'; apply Hall; by right|].
  exists (y :: k). simpl. by rewrite Hy; simpl; rewrite Hk.
Qed.

Lemma get_is_None_spec {A} (field : option (option A)) :
  get_is_None field = true ↔ field = None ∨ field = Some None.
Proof.
  destruct field as [[?|]|]; simpl; split; try done; auto.
  by intros [?|?].
Qed.

Lemma assign_block_same {A} (n : nat) (src : list A) :
  length src = n → assign_block n src = Ok src.
Proof. intros Hlen. unfold assign_block. by rewrite bool_decide_eq_true_2. Qed.

Lemma visit_points_Ok (b : board) (min_points : Z) (ignore_no_pose : bool)
    (r : row) (pts : list point2) :
  length (objPoints b) = total_size b →
  filled r = Some pts →
  (skip_detection min_points ignore_no_pose r pts = false →
   length pts = total_size b) →
  visit_points b min_points ignore_no_pose r
  = Ok (if skip_detection min_points ignore_no_pose r pts
        then nan_slot (total_size b)
        else (zip_with (λ (bad : bool) o, if bad then nan3 else o)
                       (point_bad <$> pts) (objPoints b), pts)).
Proof.
  intros Hobj Hfilled Hlen. unfold visit_points. rewrite Hfilled. simpl.
  destruct (skip_detection min_points ignore_no_pose r pts); [done|].
  specialize (Hlen eq_refl). rewrite assign_block_same by done. simpl.
  unfold mask_bad, get_object_points.
  rewrite bool_decide_eq_true_2 by (rewrite length_fmap; lia). simpl.
  rewrite assign_block_same; [done|].
  rewrite length_zip_with, length_fmap. lia.
Qed.

Lemma point_bad_observed (p : point2) : point_bad p = negb (observed p).
Proof. by destruct p as [[|x] [|y]]. Qed.

Lemma skip_detection_spec (min_points : Z) (ignore_no_pose : bool) (r : row)
    (pts : list point2) :
  skip_detection min_points ignore_no_pose r pts = true
  ↔ slot_skipped min_points ignore_no_pose r pts.
Proof.
  unfold skip_detection, slot_skipped, lacks_pose.
  rewrite (list_filter_iff (λ p, point_bad p = false)
             (λ p, observed p = true)).
  2:{ intros p. rewrite point_bad_observed. by destruct (observed p). }
  rewrite orb_true_iff, andb_true_iff, orb_true_iff, bool_decide_eq_true.
  rewrite !get_is_None_spec. tauto.
Qed.

Lemma mask_bad_masked (template : list point3) (pts : list point2) :
  zip_with (λ (bad : bool) o, if bad then nan3 else o) (point_bad <$> pts)
           template
  = masked_template template pts.
Proof.
  unfold masked_template. rewrite zip_with_fmap_l.
  apply zip_with_ext; [|done..]. intros p o.
  rewrite point_bad_observed. by destruct (observed p).
Qed.

Lemma masked_template_nan (template : list point3) (n : nat) :
  length template = n →
  masked_template template (replicate n nan2) = replicate n nan3.
Proof.
  intros <-. unfold masked_template.
  induction template as [|o template IH]; [done|]. simpl. by rewrite IH.
Qed.

Lemma all_nan_replicate (pts : list point2) (n : nat) :
  length pts = n → Forall (λ p, p = nan2) pts → pts = replicate n nan2.
Proof.
  intros <-. induction 1 as [|p pts -> _ IH]; [done|].
  simpl. by rewrite <-IH.
Qed.

Lemma observed_count_nan (pts : list point2) :
  Forall (λ p, p = nan2) pts →
  length (filter (λ p, observed p = true) pts) = 0%nat.
Proof.
  induction 1 as [|p pts -> _ IH]; [done|].
  by rewrite filter_cons_False.
Qed.

(** C7, as amended.  In the loop of [extract_points], the slot of a camera
    that is absent from a frame's group stays all NaN.  For a camera that
    is present, the detection is skipped, and its slot stays all NaN, when
    fewer than [min_points] filled points are observed (have no NaN
    coordinate), or when [ignore_no_pose] is set and [rvec] or [tvec] is
    missing or None.  Otherwise the image-point slot is the record's filled
    points and the object-point slot is the board's template with the
    points that the camera did not observe set to NaN.  The slot is all NaN
    exactly when the detection is skipped or every filled point is all
    NaN; for a positive [min_points] that is exactly when it is skipped. *)
Theorem points_loop_slots (b : board) (names : list cam_name)
    (min_points : Z) (ignore_no_pose : bool)
    (merged : list (gmap cam_name row)) :
  length (objPoints b) = total_size b →
  (∀ row cname r,
     row ∈ merged → cname ∈ names → row !! cname = Some r →
     ∃ pts, filled r = Some pts ∧
            (¬ slot_skipped min_points ignore_no_pose r pts →
             length pts = total_size b)) →
  ∃ rows,
    points_loop b names min_points ignore_no_pose merged = Ok rows ∧
    ∀ rix cix row cname,
      merged !! rix = Some row → names !! cix = Some cname →
      ∃ slots objp imgp,
        rows !! rix = Some slots ∧ slots !! cix = Some (objp, imgp) ∧
        (row !! cname = None → (objp, imgp) = nan_slot (total_size b)) ∧
        ∀ r pts,
          row !! cname = Some r → filled r = Some pts →
          let skipped := slot_skipped min_points ignore_no_pose r pts in
          (skipped → (objp, imgp) = nan_slot (total_size b)) ∧
          (¬ skipped →
           imgp = pts ∧ objp = masked_template (objPoints b) pts) ∧
          ((objp, imgp) = nan_slot (total_size b)
           ↔ skipped ∨ Forall (λ p, p = nan2) pts) ∧
          (0 < min_points →
           ((objp, imgp) = nan_slot (total_size b) ↔ skipped)).
Proof.
  intros Hobj Hfilled.
  set (visit := λ (row : gmap cam_name row) cname,
         match row !! cname with
         | Some r => visit_points b min_points ignore_no_pose r
         | None => Ok (nan_slot (total_size b))
         end).
  assert (∀ row cname r pts,
            row ∈ merged → cname ∈ names → row !! cname = Some r →
            filled r = Some pts →
            skip_detection min_points ignore_no_pose r pts = false →
            length pts = total_size b) as Hlen.
  { intros row cname r pts Hrow Hcname Hr Hpts Hskip.
    destruct (Hfilled row cname r) as (pts' & Hpts' & Hlen); [done..|].
    assert (pts' = pts) as -> by congruence. apply Hlen.
    rewrite <-skip_detection_spec. congruence. }
  assert (∀ row cname, row ∈ merged → cname ∈ names →
            ∃ s, visit row cname = Ok s) as Hvisit.
  { intros row cname Hrow Hcname. unfold visit.
    destruct (row !! cname) as [r|] eqn:Hr; [|by eexists].
    destruct (Hfilled row cname r) as (pts & Hpts & _); [done..|].
    eexists. apply visit_points_Ok; [done..|]. by eapply Hlen. }
  destruct (mapM_Ok_intro (λ row, mapM (visit row) names) merged)
    as [rows Hrows].
  { intros row Hrow. apply mapM_Ok_intro. intros cname Hcname.
    by apply Hvisit. }
  exists rows. split; [exact Hrows|].
  intros rix cix row cname Hrix Hcix.
  destruct (mapM_Ok_lookup _ _ _ Hrows rix row Hrix) as (slots & Hs & Hin).
  destruct (mapM_Ok_lookup _ _ _ Hin cix cname Hcix)
    as ([objp imgp] & Hslot & Hv).
  exists slots, objp, imgp. split; [done|]. split; [done|]. split.
  { intros Hnone. unfold visit in Hv. rewrite Hnone in Hv. congruence. }
  intros r pts Hr Hpts skipped.
  unfold visit in Hv. rewrite Hr in Hv.
  assert (skip_detection min_points ignore_no_pose r pts = false →
          length pts = total_size b) as Hlen'.
  { eapply Hlen; [by eapply list_elem_of_lookup_2..|done|done]. }
  rewrite (visit_points_Ok b min_points ignore_no_pose r pts) in Hv by done.
  pose proof (skip_detection_spec min_points ignore_no_pose r pts) as Hskip.
  fold skipped in Hskip.
  destruct (skip_detection min_points ignore_no_pose r pts) eqn:Hcode.
  - (* the detection is skipped *)
    assert (skipped) as Hsk by (by apply Hskip).
    injection Hv as <- <-.
    split; [done|]. split; [done|]. split; [|done]. split; [by left|done].
  - (* the detection is copied *)
    assert (¬ skipped) as Hnsk by (rewrite <-Hskip; congruence).
    specialize (Hlen' eq_refl).
    rewrite mask_bad_masked in Hv. injection Hv as <- <-.
    assert ((masked_template (objPoints b) pts, pts)
            = nan_slot (total_size b)
            ↔ Forall (λ p, p = nan2) pts) as Hnan.
    { unfold nan_slot. split.
      - intros [= _ ->]. apply Forall_replicate. done.
      - intros Hall. rewrite (all_nan_replicate pts _ Hlen' Hall).
        by rewrite masked_template_nan. }
    split; [done|]. split; [done|]. split.
    + rewrite Hnan. tauto.
    + intros Hpos. rewrite Hnan. split; [|done]. intros Hall.
      left. rewrite (observed_count_nan pts Hall). simpl. lia.
Qed.

Lemma points_loop_slots_witness :
  let names := [CamStr "left"; CamStr "right"] in
  (length (objPoints sample_board) = total_size sample_board ∧
   ∀ row cname r,
     row ∈ sample_merged → cname ∈ names → row !! cname = Some r →
     ∃ pts, filled r = Some pts ∧
            (¬ slot_skipped 1 false r pts →
             length pts = total_size sample_board)) ∧
  ∃ rows slots,
    points_loop sample_board names 1 false sample_merged = Ok rows ∧
    rows !! 1%nat = Some slots ∧
    slots !! 0%nat = Some ([(Fin 0, Fin 0, Fin 0); nan3],
                           [(Fin 1, Fin 2); nan2]) ∧
    slots !! 1%nat = Some ([nan3; nan3], [nan2; nan2]).
Proof.
  intros names.
  assert (∀ row cname r,
     row ∈ sample_merged → cname ∈ names → row !! cname = Some r →
     ∃ pts, filled r = Some pts ∧
            (¬ slot_skipped 1 false r pts →
             length pts = total_size sample_board)) as Hfilled.
  { intros row cname r Hrow Hcname Hr.
    repeat (apply elem_of_cons in Hrow as [->|Hrow]);
      [..|by apply elem_of_nil in Hrow];
      (repeat (apply elem_of_cons in Hcname as [->|Hcname]);
       [..|by apply elem_of_nil in Hcname]);
      vm_compute in Hr; simplify_eq;
      eexists; (split; [reflexivity|intros _; reflexivity]). }
  split; [by split|].
  destruct (points_loop_slots sample_board names 1 false sample_merged
              eq_refl Hfilled) as (rows & Hrows & Hslots).
  destruct (Hslots 1%nat 0%nat {[CamStr "left" := partial_row 1]}
              (CamStr "left") eq_refl eq_refl)
    as (slots & objp & imgp & Hrow & Hleft & _ & Hseen).
  destruct (Hslots 1%nat 1%nat {[CamStr "left" := partial_row 1]}
              (CamStr "right") eq_refl eq_refl)
    as (slots' & objp' & imgp' & Hrow' & Hright & Habsent & _).
  assert (slots' = slots) as -> by congruence.
  exists rows, slots. split; [exact Hrows|]. split; [exact Hrow|]. split.
  - destruct (Hseen (partial_row 1) [(Fin 1, Fin 2); nan2])
      as (_ & Hcopied & _); [by vm_compute|reflexivity|].
    destruct Hcopied as [-> ->]; [|exact Hleft].
    intros [Hfew|[? _]]; [|done]. vm_compute in Hfew. done.
  - rewrite Hright. f_equal. apply Habsent. by vm_compute.
Defined.

(** C7 as stated fails: "exactly when" does not hold.  With
    [min_points = 0] a detection whose filled points are all NaN is not
    skipped (its count of observed points, 0, is not below 0, and no pose
    is required), yet the slot is entirely NaN after the copy. *)
Lemma points_loop_all_nan_not_skipped :
  let r := Row 0 (Some (Some [])) (Some (Some [])) (Some [nan2; nan2])
               None None in
  let merged : list (gmap cam_name row) := [ {[CamStr "left" := r]} ] in
  ¬ slot_skipped 0 false r [nan2; nan2] ∧
  skip_detection 0 false r [nan2; nan2] = false ∧
  points_loop sample_board [CamStr "left"] 0 false merged
  = Ok [[nan_slot (total_size sample_board)]].
Proof.
  intros r merged. split; [|split; by vm_compute].
  intros [Hfew|[? _]]; [|done]. vm_compute in Hfew. done.
Qed.

Lemma count_true_cons (b : bool) (mask : list bool) :
  count_true (b :: mask) = ((if b then 1 else 0) + count_true mask)%nat.
Proof. by destruct b. Qed.

Lemma count_true_good_mask_mono (m1 m2 : Z) (num_good : list Z) :
  m1 ≤ m2 →
  (count_true (good_mask m2 num_good) ≤ count_true (good_mask m1 num_good))%nat.
Proof.
  intros Hm. unfold good_mask.
  induction num_good as [|c l IH]; [done|].
  rewrite !fmap_cons, !count_true_cons.
  destruct (bool_decide_reflect (m2 ≤ c)), (bool_decide_reflect (m1 ≤ c)); lia.
Qed.

(** C8.  With all other arguments fixed and [m1 <= m2], a call of
    [extract_points] with [min_cameras = m2] raises exactly when the call
    with [min_cameras = m1] does, and otherwise keeps at most as many
    observation rows. *)
Theorem extract_points_min_cameras_monotone
    (merged : list (gmap cam_name row)) (b : board)
    (cam_names : option (list cam_name)) (m1 m2 min_points : Z)
    (ignore_no_pose : bool) :
  m1 ≤ m2 →
  match extract_points merged b cam_names m1 min_points ignore_no_pose,
        extract_points merged b cam_names m2 min_points ignore_no_pose with
  | Ok (objp1, imgp1), Ok (objp2, imgp2) =>
      (n_rows objp2 ≤ n_rows objp1)%nat ∧ (n_rows imgp2 ≤ n_rows imgp1)%nat
  | Raise e1, Raise e2 => e1 = e2
  | _, _ => False
  end.
Proof.
  intros Hm. unfold extract_points.
  destruct (resolve_cam_names merged cam_names) as [names|]; [simpl|done].
  destruct (points_loop b names min_points ignore_no_pose merged)
    as [rows|]; [simpl|done].
  case_bool_decide; [done|].
  split; by apply count_true_good_mask_mono.
Qed.

Lemma extract_points_min_cameras_monotone_witness :
  1 ≤ 2 ∧
  match extract_points sample_merged sample_board None 1 2 false,
        extract_points sample_merged sample_board None 2 2 false with
  | Ok (objp1, imgp1), Ok (objp2, imgp2) =>
      (n_rows objp2 ≤ n_rows objp1)%nat ∧ (n_rows imgp2 ≤ n_rows imgp1)%nat
  | Raise e1, Raise e2 => e1 = e2
  | _, _ => False
  end.
Proof.
  assert (1 ≤ 2) as Hm by lia. split; [exact Hm|].
  exact (extract_points_min_cameras_monotone sample_merged sample_board None
           1 2 2 false Hm).
Defined.

(** The scenario of two cameras and three frames: with [min_points = 2] the
    partial detection of frame 1 is skipped; [min_cameras = 1] keeps the
    rows of frames 0 and 2, [min_cameras = 2] those of frame 0 only. *)
Example extract_points_scenario :
  n_rows <$> (snd <$> result_to_option
                (extract_points sample_merged sample_board None 1 2 false))
  = Some 4%nat ∧
  n_rows <$> (snd <$> result_to_option
                (extract_points sample_merged sample_board None 2 2 false))
  = Some 2%nat.
Proof. by vm_compute. Qed.

(** ** extract_rtvecs *)

Lemma M_bind_run {A B} (m : M A) (k : A → M B) (σ : state) :
  (m ≫= k) σ
  = match m σ with
    | (Ok a, σ') => k a σ'
    | (Raise e, σ') => (Raise e, σ')
    end.
Proof. reflexivity. Qed.

(** Run the binds at the head of a computation applied to a state. *)
Ltac run_M := simpl; rewrite ?M_bind_run; simpl.

Lemma frozen_refl σ : frozen σ σ.
Proof. by intros l _. Qed.

Lemma frozen_trans σ1 σ2 σ3 : frozen σ1 σ2 → frozen σ2 σ3 → frozen σ1 σ3.
Proof.
  intros H12 H23 l Hl. rewrite <-(H12 l Hl). apply H23. by rewrite (H12 l Hl).
Qed.

Lemma evolves_frozen cv b σ σ' : evolves cv b σ σ' → frozen σ σ'.
Proof.
  intros [Hheap _] l Hl. destruct (Hheap l) as [Heq|[Hno _]]; [done|congruence].
Qed.

Lemma only_new_calls_refl σ : only_new_calls σ σ.
Proof. exists []. split; [done|]. by intros l ?%elem_of_nil. Qed.

Lemma evolves_refl cv b σ : evolves cv b σ σ.
Proof. split; [by left|apply only_new_calls_refl]. Qed.

Lemma evolves_trans cv b σ1 σ2 σ3 :
  evolves cv b σ1 σ2 → evolves cv b σ2 σ3 → evolves cv b σ1 σ3.
Proof.
  intros H12 H23. pose proof (evolves_frozen _ _ _ _ H12) as Hfr.
  destruct H12 as [Hh12 (new1 & Hc1 & Hn1)], H23 as [Hh23 (new2 & Hc2 & Hn2)].
  split.
  - intros l. destruct (Hh12 l) as [Heq|(Hno & Hest)].
    + destruct (Hh23 l) as [Heq'|(Hno' & Hest')]; [left; congruence|].
      right. rewrite Heq in Hno', Hest'. by split.
    + right. split; [done|].
      destruct Hest as (b0 & cam & cs & ixs & p & -> & Hcs & Hixs & Hp & Heq).
      exists b0, cam, cs, ixs, p. split_and!; [done..|].
      destruct (Hh23 l) as [Heq'|(Hno' & _)]; [congruence|].
      by rewrite Heq in Hno'.
  - exists (new2 ++ new1). split; [by rewrite Hc2, Hc1, (assoc_L _)|].
    intros l [Hin|Hin]%elem_of_app; [|by apply Hn1].
    specialize (Hn2 l Hin).
    destruct (has_pose_keys (heap σ1 l)) eqn:Hl; [|done].
    by rewrite (Hfr l Hl), Hl in Hn2.
Qed.

Section preserves.
Context (cv : opencv) (b : option board).

Lemma preserves_ret {A} (a : A) : preserves cv b (mret a).
Proof. intros σ. apply evolves_refl. Qed.


Lemma preserves_bind {A B} (m : M A) (k : A → M B) :
  preserves cv b m → (∀ a, preserves cv b (k a)) → preserves cv b (m ≫= k).
Proof.
  intros Hm Hk σ. rewrite M_bind_run. specialize (Hm σ).
  destruct (m σ) as [[a|e] σ']; [|done].
  eapply evolves_trans; [exact Hm|apply Hk].
Qed.

Lemma preserves_mapM {A B} (f : A → M B) (xs : list A) :
  (∀ x, preserves cv b (f x)) → preserves cv b (mapM f xs).
Proof.
  intros Hf. induction xs as [|x xs IH]; [apply preserves_ret|].
  apply preserves_bind; [apply Hf|]. intros y.
  apply preserves_bind; [apply IH|]. intros ys. apply preserves_ret.
Qed.

Lemma preserves_visit_pose cameras cix l :
  preserves cv b (visit_pose cv b cameras cix l).
Proof.
  intros σ. unfold visit_pose. rewrite M_bind_run. simpl.
  destruct (has_pose_keys (heap σ l)) eqn:Hkeys.
  { run_M. apply evolves_refl. }
  rewrite M_bind_run.
  destruct b as [b0|]; [|apply evolves_refl].
  run_M.
  destruct (get_camera cameras cix) as [cam|]; [|apply evolves_refl].
  run_M.
  destruct (corners (heap σ l)) as [cs|] eqn:Hcs; [|apply evolves_refl].
  run_M.
  destruct (ids (heap σ l)) as [ixs|] eqn:Hixs; [|apply evolves_refl].
  run_M.
  assert (only_new_calls σ (State (heap σ) (l :: pose_calls σ))) as Hlog.
  { exists [l]. split; [done|]. by intros l' ->%list_elem_of_singleton. }
  destruct (estimate_pose_points cv b0 cam cs ixs) as [p|] eqn:Hp; simpl.
  - split; [|exact Hlog]. intros l'. unfold pose_cached. simpl.
    destruct (decide (l' = l)) as [->|Hne].
    + right. split; [done|]. exists b0, cam, cs, ixs, p.
      split_and!; [done..|]. by rewrite fn_lookup_insert.
    + left. by rewrite fn_lookup_insert_ne.
  - split; [by left|exact Hlog].
Qed.

Lemma preserves_visit_cam cameras row p :
  preserves cv b (visit_cam cv b cameras row p).
Proof.
  unfold visit_cam. destruct (row !! p.2);
    [apply preserves_visit_pose|apply preserves_ret].
Qed.


End preserves.

Lemma pose_slot_complete (r : row) :
  has_pose_keys r = true → ∃ v, pose_slot r = Ok v.
Proof.
  unfold has_pose_keys, pose_slot.
  destruct (rvec r) as [[rv|]|], (tvec r) as [[tv|]|]; intros ?;
    simplify_eq/=; by eexists.
Qed.

Lemma visit_pose_complete cv b cameras cix l σ :
  has_pose_keys (heap σ l) = true →
  visit_pose cv b cameras cix l σ = (pose_slot (heap σ l), σ).
Proof.
  intros Hkeys. unfold visit_pose. rewrite M_bind_run. simpl.
  rewrite Hkeys. by rewrite !M_bind_run.
Qed.

Lemma visit_pose_Ok cv b cameras cix l σ v σ' :
  visit_pose cv b cameras cix l σ = (Ok v, σ') →
  has_pose_keys (heap σ' l) = true ∧ pose_slot (heap σ' l) = Ok v.
Proof.
  destruct (has_pose_keys (heap σ l)) eqn:Hkeys.
  { rewrite visit_pose_complete by done. intros [= Hv <-]. by split. }
  unfold visit_pose. rewrite M_bind_run. simpl. rewrite Hkeys.
  rewrite M_bind_run.
  destruct b as [b0|]; [|done].
  run_M.
  destruct (get_camera cameras cix) as [cam|]; [|done].
  run_M.
  destruct (corners (heap σ l)) as [cs|]; [|done].
  run_M.
  destruct (ids (heap σ l)) as [ixs|]; [|done].
  run_M.
  destruct (estimate_pose_points cv b0 cam cs ixs) as [p|]; [|done].
  simpl. unfold lift. intros [= Hv <-]. simpl.
  rewrite fn_lookup_insert in Hv |- *. by split.
Qed.

Lemma visit_cam_replay cv b cameras row p σ v σ' :
  visit_cam cv b cameras row p σ = (Ok v, σ') →
  ∀ cv' σ2, frozen σ' σ2 → visit_cam cv' b cameras row p σ2 = (Ok v, σ2).
Proof.
  unfold visit_cam. destruct (row !! p.2) as [l|].
  - intros [Hkeys Hslot]%visit_pose_Ok cv' σ2 Hfr.
    rewrite visit_pose_complete by (by rewrite (Hfr l Hkeys)).
    by rewrite (Hfr l Hkeys), Hslot.
  - by intros [= <- <-] cv' σ2 _.
Qed.

Lemma mapM_replay {A B} cv b (f g : A → M B) (xs : list A) :
  (∀ x, preserves cv b (f x)) →
  (∀ x σ y σ', f x σ = (Ok y, σ') →
               ∀ σ2, frozen σ' σ2 → g x σ2 = (Ok y, σ2)) →
  ∀ σ ys σ', mapM f xs σ = (Ok ys, σ') →
             ∀ σ2, frozen σ' σ2 → mapM g xs σ2 = (Ok ys, σ2).
Proof.
  intros Hpres Hfg. induction xs as [|x xs IH]; intros σ ys σ' Hrun σ2 Hfr.
  { by injection Hrun as <- <-. }
  simpl in Hrun |- *. rewrite M_bind_run in Hrun |- *.
  destruct (f x σ) as [[y|] σa] eqn:Hx; [|done].
  rewrite M_bind_run in Hrun.
  destruct (mapM f xs σa) as [[ys'|] σb] eqn:Hxs; [|done].
  injection Hrun as <- <-.
  assert (frozen σa σb) as Hab.
  { pose proof (preserves_mapM cv b f xs Hpres σa) as Hev.
    rewrite Hxs in Hev. by eapply evolves_frozen. }
  rewrite (Hfg x σ y σa Hx σ2) by (by eapply frozen_trans).
  rewrite M_bind_run. by rewrite (IH σa ys' σb Hxs σ2 Hfr).
Qed.

Lemma pose_loop_replay cv b cameras names merged σ rows σ' :
  pose_loop cv b cameras names merged σ = (Ok rows, σ') →
  ∀ cv' σ2, frozen σ' σ2 →
            pose_loop cv' b cameras names merged σ2 = (Ok rows, σ2).
Proof.
  intros Hrun cv' σ2 Hfr. unfold pose_loop in *.
  eapply (mapM_replay cv b); [| |exact Hrun|exact Hfr].
  - intros row. apply preserves_mapM. intros p. apply preserves_visit_cam.
  - intros row σa slots σb Hrow σc Hbc.
    eapply (mapM_replay cv b); [| |exact Hrow|exact Hbc].
    + intros p. apply preserves_visit_cam.
    + intros p σd v σe Hp σf Hef. by eapply visit_cam_replay.
Qed.

(** C6.  When a call of [extract_rtvecs] returns a tensor, a second call on
    the same groups with the same arguments, starting from the heap that
    the first call left, returns the same tensor.  The second call writes no
    record and invokes no pose estimate: it returns the same tensor whatever
    the solver would answer. *)
Theorem extract_rtvecs_idempotent (cv cv' : opencv)
    (merged : list (gmap cam_name loc)) (cam_names : option (list cam_name))
    (min_cameras : Z) (b : option board) (cameras : option (list camera))
    (σ σ1 : state) (t : tensor (list scalar)) :
  extract_rtvecs cv merged cam_names min_cameras b cameras σ = (Ok t, σ1) →
  extract_rtvecs cv' merged cam_names min_cameras b cameras σ1 = (Ok t, σ1).
Proof.
  unfold extract_rtvecs. rewrite !M_bind_run. unfold lift.
  destruct (resolve_cam_names merged cam_names) as [names|]; [|done].
  rewrite !M_bind_run.
  destruct (pose_loop cv b cameras names merged σ) as [[rows|] σa] eqn:Hloop;
    [|done].
  intros [= <- <-].
  by rewrite (pose_loop_replay _ _ _ _ _ _ _ _ Hloop cv' σa (frozen_refl σa)).
Qed.

Lemma extract_rtvecs_idempotent_witness :
  let cameras := Some [sample_camera; sample_camera] in
  let run := extract_rtvecs sample_cv sample_groups None 1
               (Some sample_charuco) cameras sample_state in
  let t := Tensor 2 [[[Fin 1; Fin 2; Fin 3; Fin 4; Fin 5; Fin 6];
                      [Fin 7; Fin 8; Fin 9; Fin 10; Fin 11; Fin 12]];
                     [nan6; nan6]] in
  run = (Ok t, run.2) ∧
  extract_rtvecs failing_cv sample_groups None 1 (Some sample_charuco)
                 cameras run.2 = (Ok t, run.2).
Proof.
  intros cameras run t.
  assert (run = (Ok t, run.2)) as Hrun.
  { apply injective_projections; [by vm_compute|reflexivity]. }
  split; [exact Hrun|].
  exact (extract_rtvecs_idempotent sample_cv failing_cv sample_groups None 1
           (Some sample_charuco) cameras sample_state run.2 t Hrun).
Defined.


Lemma enumerate_elem {A} (x : A) (l : list A) :
  x ∈ l → ∃ i, (i, x) ∈ enumerate l.
Proof.
  intros [i Hi]%list_elem_of_lookup_1. exists i.
  apply list_elem_of_lookup_2 with i. unfold enumerate.
  rewrite lookup_zip_with, lookup_seq_lt by by eapply lookup_lt_Some.
  simpl. by rewrite Hi.
Qed.






Section estimated_by.
Context (cv : opencv) (b : board) (cameras : option (list camera)).
Context (visits : nat → loc → Prop).



End estimated_by.





Lemma visit_cam_no_board cv cameras row p σ :
  visit_cam cv None cameras row p σ = (read_cam σ row p, σ).
Proof.
  unfold visit_cam, read_cam. destruct (row !! p.2) as [l|]; [|done].
  destruct (has_pose_keys (heap σ l)) eqn:Hkeys;
    [by apply visit_pose_complete|].
  unfold visit_pose. rewrite M_bind_run. simpl. by rewrite Hkeys.
Qed.

Lemma mapM_read {A B} (f : A → M B) (h : A → result B) (σ : state)
    (xs : list A) :
  (∀ x, f x σ = (h x, σ)) → mapM f xs σ = (mapM h xs, σ).
Proof.
  intros Hf. induction xs as [|x xs IH]; [done|].
  simpl. rewrite M_bind_run, Hf. destruct (h x) as [y|]; [simpl|done].
  rewrite M_bind_run, IH. by destruct (mapM h xs).
Qed.

Lemma mapM_Ok_or_raise {A B} (h : A → result B) (e : exn) (xs : list A) :
  (∀ x, x ∈ xs → h x = Raise e ∨ ∃ y, h x = Ok y) →
  mapM h xs = Raise e ∨ ∃ ys, mapM h xs = Ok ys.
Proof.
  induction xs as [|x xs IH]; intros Hall; [right; by eexists|].
  simpl. destruct (Hall x) as [->|[y ->]]; [left|by left|simpl].
  destruct IH as [->|[ys ->]]; [intros ??; apply Hall; by right|by left|].
  right. by eexists.
Qed.

Lemma mapM_raise {A B} (h : A → result B) (e : exn) (xs : list A) (x : A) :
  (∀ x, x ∈ xs → h x = Raise e ∨ ∃ y, h x = Ok y) →
  x ∈ xs → h x = Raise e → mapM h xs = Raise e.
Proof.
  induction xs as [|x' xs IH]; intros Hall Hin Hx;
    [by apply elem_of_nil in Hin|].
  simpl. destruct (Hall x') as [->|[y Hy]]; [left|done|].
  rewrite Hy. simpl. apply elem_of_cons in Hin as [->|Hin]; [congruence|].
  rewrite IH; [done| |done..]. intros ??. apply Hall. by right.
Qed.

Lemma read_cam_Ok_or_raise σ row p :
  read_cam σ row p = Raise ValueError ∨ ∃ v, read_cam σ row p = Ok v.
Proof.
  unfold read_cam. destruct (row !! p.2) as [l|]; [|right; by eexists].
  destruct (has_pose_keys (heap σ l)) eqn:Hkeys; [right|by left].
  by apply pose_slot_complete.
Qed.

(** C3, as amended.  When no board is given and, in some group, the record
    of a camera of the camera ordering lacks the [rvec] or the [tvec] key,
    [extract_rtvecs] raises [ValueError]: no tensor is returned, and no
    record has been modified.  (The module defines no
    [ConfigurationError]; a record of a camera that is not in the ordering
    is never looked at.) *)
Theorem extract_rtvecs_missing_pose_no_board (cv : opencv)
    (merged : list (gmap cam_name loc)) (cam_names : option (list cam_name))
    (min_cameras : Z) (cameras : option (list camera)) (σ : state)
    (names : list cam_name) (row : gmap cam_name loc) (cname : cam_name)
    (l : loc) :
  resolve_cam_names merged cam_names = Ok names →
  row ∈ merged → cname ∈ names → row !! cname = Some l →
  has_pose_keys (heap σ l) = false →
  extract_rtvecs cv merged cam_names min_cameras None cameras σ
  = (Raise ValueError, σ).
Proof.
  intros Hnames Hrow Hcname Hl Hkeys.
  unfold extract_rtvecs. rewrite M_bind_run. unfold lift. rewrite Hnames.
  rewrite M_bind_run. unfold pose_loop.
  rewrite (mapM_read _ (λ row, mapM (read_cam σ row) (enumerate names)) σ).
  2:{ intros row'. apply mapM_read. intros p. apply visit_cam_no_board. }
  rewrite (mapM_raise _ ValueError merged row); [done| |done|].
  - intros row' _. apply mapM_Ok_or_raise. intros p _.
    apply read_cam_Ok_or_raise.
  - apply enumerate_elem in Hcname as [cix Hcix].
    apply (mapM_raise _ ValueError _ (cix, cname)); [|done|].
    + intros p _. apply read_cam_Ok_or_raise.
    + unfold read_cam. simpl. by rewrite Hl, Hkeys.
Qed.

Lemma extract_rtvecs_missing_pose_no_board_witness :
  let row : gmap cam_name loc :=
    {[CamStr "left" := 0%nat; CamStr "right" := 1%nat]} in
  let names := [CamStr "left"; CamStr "right"] in
  (resolve_cam_names sample_groups None = Ok names ∧
   row ∈ sample_groups ∧ CamStr "right" ∈ names ∧
   row !! CamStr "right" = Some 1%nat ∧
   has_pose_keys (heap sample_state 1%nat) = false) ∧
  extract_rtvecs sample_cv sample_groups None 1 None None sample_state
  = (Raise ValueError, sample_state).
Proof.
  intros row names.
  assert (resolve_cam_names sample_groups None = Ok names) as Hnames
    by (by vm_compute).
  assert (row ∈ sample_groups) as Hrow by left.
  assert (CamStr "right" ∈ names) as Hcname by (right; left).
  assert (row !! CamStr "right" = Some 1%nat) as Hl by (by vm_compute).
  assert (has_pose_keys (heap sample_state 1%nat) = false) as Hkeys
    by reflexivity.
  split; [by split_and!|].
  exact (extract_rtvecs_missing_pose_no_board sample_cv sample_groups None 1
           None sample_state names row (CamStr "right") 1%nat
           Hnames Hrow Hcname Hl Hkeys).
Defined.

(** C3 as stated fails: the exception raised for a missing pose is a
    [ValueError], not of a class named [ConfigurationError].  Moreover the
    error depends on the camera ordering: when the camera whose record lacks
    a pose is present in a group but not in the explicit ordering, no
    exception is raised at all. *)
Lemma extract_rtvecs_missing_pose_outcomes :
  let merged : list (gmap cam_name loc) := [ {[CamStr "left" := 0%nat]} ] in
  has_pose_keys (heap sample_state 0%nat) = false ∧
  (extract_rtvecs sample_cv merged (Some [CamStr "left"]) 1 None None
                  sample_state).1 = Raise ValueError ∧
  (¬ ∃ e σ', extract_rtvecs sample_cv merged (Some [CamStr "left"]) 1 None
                            None sample_state = (Raise e, σ')
             ∧ exn_class e = "ConfigurationError") ∧
  (extract_rtvecs sample_cv merged (Some [CamStr "right"]) 1 None None
                  sample_state).1 = Ok (Tensor 0 [[]]).
Proof.
  intros merged. split; [reflexivity|]. split; [by vm_compute|]. split.
  - intros (e & σ' & Hrun & Hclass).
    apply (f_equal fst) in Hrun. vm_compute in Hrun.
    injection Hrun as <-. discriminate Hclass.
  - by vm_compute.
Qed.

(** ** Shape of the result of extract_points *)

Lemma mapM_Ok_length {A B} (f : A → result B) (l : list A) (k : list B) :
  mapM f l = Ok k → length k = length l.
Proof.
  revert k. induction l as [|x l IH]; intros k Hrun; simpl in Hrun.
  { by injection Hrun as <-. }
  destruct (f x) as [y|]; [|done]. simpl in Hrun.
  destruct (mapM f l) as [k'|]; [|done]. injection Hrun as <-.
  simpl. by rewrite (IH k').
Qed.

Lemma assign_block_length {A} (n : nat) (src dst : list A) :
  assign_block n src = Ok dst → length dst = n.
Proof.
  unfold assign_block. case_bool_decide as Hlen; [by intros [= <-]|].
  destruct src as [|x [|??]]; intros [= <-]. apply length_replicate.
Qed.

Lemma visit_points_shape b min_points ignore_no_pose r s :
  visit_points b min_points ignore_no_pose r = Ok s →
  length s.1 = total_size b ∧ length s.2 = total_size b.
Proof.
  unfold visit_points. destruct (filled r) as [pts|]; [simpl|done].
  destruct (skip_detection min_points ignore_no_pose r pts).
  { intros [= <-]. simpl. by rewrite !length_replicate. }
  destruct (assign_block (total_size b) pts) as [imgp|] eqn:Himg; [|done].
  simpl. destruct (mask_bad _ _) as [masked|]; [simpl|done].
  destruct (assign_block (total_size b) masked) as [objp|] eqn:Hobj; [|done].
  intros [= <-]. simpl. split; by eapply assign_block_length.
Qed.

Lemma points_loop_well_shaped b names min_points ignore_no_pose merged rows :
  points_loop b names min_points ignore_no_pose merged = Ok rows →
  well_shaped (length names) (total_size b) rows.
Proof.
  intros Hrun. apply Forall_lookup. intros rix slots Hslots.
  destruct (lookup_lt_is_Some_2 merged rix) as [row Hrow].
  { rewrite <-(mapM_Ok_length _ _ _ Hrun). by eapply lookup_lt_Some. }
  destruct (mapM_Ok_lookup _ _ _ Hrun rix row Hrow) as (slots' & Hs' & Hin).
  assert (slots' = slots) as -> by congruence.
  split; [by apply mapM_Ok_length in Hin|].
  apply Forall_lookup. intros cix s Hs.
  destruct (lookup_lt_is_Some_2 names cix) as [cname Hcname].
  { rewrite <-(mapM_Ok_length _ _ _ Hin). by eapply lookup_lt_Some. }
  destruct (mapM_Ok_lookup _ _ _ Hin cix cname Hcname) as (s' & Hs'' & Hv).
  assert (s' = s) as -> by congruence.
  destruct (row !! cname) as [r|]; [by eapply visit_points_shape|].
  injection Hv as <-. simpl. by rewrite !length_replicate.
Qed.

Lemma select_length {A} (mask : list bool) (a : list A) :
  length mask = length a → length (select mask a) = count_true mask.
Proof.
  revert a. induction mask as [|m mask IH]; intros [|x a] Hlen;
    simplify_eq/=; [done|].
  unfold select in *. simpl. rewrite filter_cons, count_true_cons.
  destruct m; simpl; by rewrite IH.
Qed.

Lemma good_mask_length n_cams n min_cameras rows :
  well_shaped n_cams n rows →
  length (good_mask min_cameras (rows ≫= num_good_points n))
  = (length rows * n)%nat.
Proof.
  intros _. unfold good_mask. rewrite length_fmap.
  induction rows as [|slots rows IH]; [done|].
  rewrite bind_cons, length_app, IH. unfold num_good_points.
  rewrite length_fmap, length_seq. simpl. lia.
Qed.

Lemma cam_plane_length {A} (f : slot → list A) n_cams n rows cix :
  Forall (λ slots, length slots = n_cams ∧
                   Forall (λ s : slot, length (f s) = n) slots) rows →
  (cix < n_cams)%nat →
  length (concat (f <$> cam_plane rows cix)) = (length rows * n)%nat.
Proof.
  intros Hrows Hcix. induction Hrows as [|slots rows [Hlen Hslots] _ IH];
    [done|].
  destruct (lookup_lt_is_Some_2 slots cix) as [s Hs]; [lia|].
  assert (cam_plane (slots :: rows) cix = s :: cam_plane rows cix) as ->.
  { unfold cam_plane. simpl. by rewrite Hs. }
  rewrite fmap_cons. cbn [concat length]. rewrite length_app, IH.
  rewrite Forall_lookup in Hslots. rewrite (Hslots cix s Hs). lia.
Qed.

(** The two tensors returned by [extract_points] have one plane per camera
    of the ordering, and every plane has [n_rows] entries. *)
(** X1.  When [extract_points] returns, its two arrays have the same shape:
    one plane per camera of the camera ordering, and in every plane one
    entry per kept observation. *)
Lemma extract_points_shape merged b cam_names min_cameras min_points
    ignore_no_pose names objp imgp :
  resolve_cam_names merged cam_names = Ok names →
  extract_points merged b cam_names min_cameras min_points ignore_no_pose
  = Ok (objp, imgp) →
  n_rows objp = n_rows imgp ∧
  length (planes objp) = length names ∧
  length (planes imgp) = length names ∧
  Forall (λ plane, length plane = n_rows objp) (planes objp) ∧
  Forall (λ plane, length plane = n_rows imgp) (planes imgp).
Proof.
  intros Hnames. unfold extract_points. rewrite Hnames. simpl.
  destruct (points_loop b names min_points ignore_no_pose merged)
    as [rows|] eqn:Hloop; [simpl|done].
  case_bool_decide; [done|].
  intros [= <- <-]. simpl.
  pose proof (points_loop_well_shaped _ _ _ _ _ _ Hloop) as Hshape.
  rewrite !length_fmap, !length_seq. split_and!; [done..| |].
  - apply Forall_fmap, Forall_forall. intros cix [_ Hcix]%elem_of_seq.
    simpl. apply select_length.
    rewrite (good_mask_length _ _ _ _ Hshape).
    rewrite (cam_plane_length fst (length names) (total_size b)); [done| |lia].
    eapply Forall_impl; [exact Hshape|]. intros slots [? Hs].
    split; [done|]. eapply Forall_impl; [exact Hs|]. by intros s [? ?].
  - apply Forall_fmap, Forall_forall. intros cix [_ Hcix]%elem_of_seq.
    simpl. apply select_length.
    rewrite (good_mask_length _ _ _ _ Hshape).
    rewrite (cam_plane_length snd (length names) (total_size b)); [done| |lia].
    eapply Forall_impl; [exact Hshape|]. intros slots [? Hs].
    split; [done|]. eapply Forall_impl; [exact Hs|]. by intros s [? ?].
Qed.

(** * Further properties *)

(** ** merge_rows: what a group holds *)

Lemma elem_of_concat {A} (x : A) (ls : list (list A)) :
  x ∈ concat ls ↔ ∃ l, l ∈ ls ∧ x ∈ l.
Proof.
  induction ls as [|l ls IH]; simpl.
  { split; [by intros ?%elem_of_nil|]. by intros (l & ?%elem_of_nil & _). }
  rewrite elem_of_app, IH. split.
  - intros [Hx|(l' & Hl' & Hx)]; [exists l; split; [left|done]|].
    exists l'. split; [by right|done].
  - intros (l' & [->|Hl']%elem_of_cons & Hx); [by left|].
    right. by exists l'.
Qed.

Section merge_rows_more.
Context {K : Type} `{Countable K} (le : relation K) `{!RelDecision le}.
Context {R : Type} (frame_of : R → K).

Lemma cam_rows_elem (l : list (cam_name * list R)) p r :
  p ∈ l → r ∈ p.2 → r ∈ cam_rows p.1 l.
Proof.
  intros Hp Hr. unfold cam_rows. apply elem_of_concat. exists p.2.
  split; [|done]. apply list_elem_of_fmap_2. by apply list_elem_of_filter.
Qed.

Lemma last_with_key_unique (rows : list R) r :
  r ∈ rows → (∀ r', r' ∈ rows → frame_of r' = frame_of r → r' = r) →
  last_with_key frame_of (frame_of r) rows = Some r.
Proof.
  intros Hr Huniq.
  destruct (last_with_key frame_of (frame_of r) rows) as [r'|] eqn:Hlast.
  - apply last_with_key_elem in Hlast as [Hin Hkey]. f_equal.
    by apply Huniq.
  - rewrite last_with_key_None in Hlast. by destruct (Hlast r Hr).
Qed.

(** A run that returns passed the assertion of line 62. *)
Lemma merge_rows_Ok_assert (all_rows : list (list R)) cam_names merged :
  merge_rows le frame_of all_rows cam_names = Ok merged →
  ∀ ns, cam_names = Some ns → length ns = length all_rows.
Proof.
  intros Hrun ns ->. unfold merge_rows in Hrun.
  destruct (Nat.eqb_spec (length all_rows) (length ns)); [done|].
  discriminate Hrun.
Qed.
End merge_rows_more.

(** X2.  [merge_rows] never returns an empty group, and a group has entries
    only for names of the camera list (the given names, or the positions of
    the detection lists). *)
Theorem merge_rows_groups_nonempty {K} `{Countable K} (le : relation K)
    `{!RelDecision le} {R} (frame_of : R → K) (all_rows : list (list R))
    (cam_names : option (list cam_name))
    (merged : list (gmap cam_name R)) (g : gmap cam_name R) :
  merge_rows le frame_of all_rows cam_names = Ok merged →
  g ∈ merged →
  let names := default (default_names (length all_rows)) cam_names in
  (∃ c r, g !! c = Some r) ∧ (∀ c, is_Some (g !! c) → c ∈ names).
Proof.
  intros Hrun Hg names.
  destruct (merge_rows_run le frame_of all_rows cam_names) as [Hlen Hform].
  { by eapply merge_rows_Ok_assert. }
  fold names in Hlen, Hform. rewrite Hform in Hrun. injection Hrun as <-.
  apply list_elem_of_fmap in Hg as (num & -> & Hnum).
  rewrite sorted_elem_of, collect_framenums_zip in Hnum by done.
  destruct Hnum as (rows & r & Hrows & Hr & Hkey). split.
  - rewrite <-(snd_zip names all_rows) in Hrows by lia.
    apply list_elem_of_fmap in Hrows as ([c rows'] & -> & Hp).
    destruct (last_with_key frame_of num (cam_rows c (zip names all_rows)))
      as [r'|] eqn:Hlast.
    + exists c, r'. by rewrite collect_group.
    + rewrite last_with_key_None in Hlast. destruct (Hlast r); [|done].
      by apply (cam_rows_elem _ (c, rows')).
  - intros c [r' Hc]. rewrite group_lookup in Hc. by case_decide.
Qed.

Lemma merge_rows_groups_nonempty_witness :
  let all_rows := [[sample_row 3 1; sample_row 1 2]; []] in
  let merged : list (gmap cam_name row) :=
    [ {[CamIdx 0 := sample_row 1 2]}; {[CamIdx 0 := sample_row 3 1]} ] in
  let g : gmap cam_name row := {[CamIdx 0 := sample_row 3 1]} in
  (merge_rows Z.le framenum all_rows None = Ok merged ∧ g ∈ merged) ∧
  (∃ c r, g !! c = Some r) ∧
  (∀ c, is_Some (g !! c) → c ∈ default_names (length all_rows)).
Proof.
  intros all_rows merged g.
  assert (merge_rows Z.le framenum all_rows None = Ok merged) as Hrun
    by (by vm_compute).
  assert (g ∈ merged) as Hg by (right; left).
  split; [by split|].
  exact (merge_rows_groups_nonempty Z.le framenum all_rows None merged g
           Hrun Hg).
Defined.

(** X3.  When the camera names are distinct and a frame key occurs once in a
    camera's list, the record with that key is not lost: it is the entry of
    that camera in the group of its key. *)
Theorem merge_rows_keeps_unique {K} `{Countable K} (le : relation K)
    `{!RelDecision le} {R} (frame_of : R → K) (all_rows : list (list R))
    (cam_names : option (list cam_name)) (i : nat) (c : cam_name)
    (rows : list R) (r : R) :
  (∀ ns, cam_names = Some ns → length ns = length all_rows) →
  let names := default (default_names (length all_rows)) cam_names in
  NoDup names → names !! i = Some c → all_rows !! i = Some rows →
  r ∈ rows →
  (∀ r', r' ∈ rows → frame_of r' = frame_of r → r' = r) →
  ∃ merged g,
    merge_rows le frame_of all_rows cam_names = Ok merged ∧
    g ∈ merged ∧ g !! c = Some r.
Proof.
  intros Hassert names Hnd Hc Hrows Hr Huniq.
  destruct (merge_rows_run le frame_of all_rows cam_names Hassert)
    as [Hlen Hform]. fold names in Hlen, Hform.
  eexists _, (group (collect frame_of names all_rows).1 names (frame_of r)).
  split; [exact Hform|]. split.
  - apply list_elem_of_fmap_2. rewrite sorted_elem_of.
    rewrite collect_framenums_zip by done. exists rows, r.
    split_and!; [|done..]. by eapply list_elem_of_lookup_2.
  - rewrite collect_group by done.
    rewrite (cam_rows_lookup names all_rows i c rows) by done.
    by apply last_with_key_unique.
Qed.

Lemma merge_rows_keeps_unique_witness :
  let all_rows := [[sample_row 3 1; sample_row 1 2]; [sample_row 3 5]] in
  let cam_names := Some [CamStr "left"; CamStr "right"] in
  ((∀ ns, cam_names = Some ns → length ns = length all_rows) ∧
   NoDup [CamStr "left"; CamStr "right"] ∧
   (∀ r', r' ∈ [sample_row 3 5] → framenum r' = framenum (sample_row 3 5) →
          r' = sample_row 3 5)) ∧
  ∃ merged g,
    merge_rows Z.le framenum all_rows cam_names = Ok merged ∧
    g ∈ merged ∧ g !! CamStr "right" = Some (sample_row 3 5).
Proof.
  intros all_rows cam_names.
  assert (∀ ns, cam_names = Some ns → length ns = length all_rows) as Hlen.
  { intros ns [= <-]. reflexivity. }
  assert (NoDup [CamStr "left"; CamStr "right"]) as Hnd
    by (by apply (bool_decide_unpack _)).
  assert (∀ r', r' ∈ [sample_row 3 5] →
            framenum r' = framenum (sample_row 3 5) → r' = sample_row 3 5)
    as Huniq by (by intros r' ->%list_elem_of_singleton).
  split; [by split_and!|].
  apply (merge_rows_keeps_unique Z.le framenum all_rows cam_names 1
           (CamStr "right") [sample_row 3 5] (sample_row 3 5));
    [exact Hlen|exact Hnd|reflexivity|reflexivity|left|exact Huniq].
Defined.

(** ** The camera ordering derived from the groups *)

Lemma NoDup_omap {A B} (f : A → option B) (l : list A) :
  (∀ x y z, f x = Some z → f y = Some z → x = y) →
  NoDup l → NoDup (omap f l).
Proof.
  intros Hinj. induction 1 as [|x l Hx Hl IH]; simpl; [constructor|].
  destruct (f x) as [z|] eqn:Hfx; [|done]. constructor; [|done].
  intros (y & Hy & Hfy)%list_elem_of_omap.
  by rewrite (Hinj x y z Hfx Hfy) in Hx.
Qed.

Lemma cam_idx_Some c i : cam_idx c = Some i ↔ c = CamIdx i.
Proof. destruct c; simpl; split; congruence. Qed.

Lemma cam_str_Some c s : cam_str c = Some s ↔ c = CamStr s.
Proof. destruct c; simpl; split; congruence. Qed.

Lemma elem_of_key_union {V} (merged : list (gmap cam_name V)) c :
  c ∈ ⋃ (dom <$> merged) ↔ ∃ g, g ∈ merged ∧ is_Some (g !! c).
Proof.
  rewrite elem_of_union_list. split.
  - intros (X & (g & -> & Hg)%list_elem_of_fmap & Hc).
    exists g. by rewrite <-elem_of_dom.
  - intros (g & Hg & Hc). exists (dom g).
    split; [by apply list_elem_of_fmap_2|by apply elem_of_dom].
Qed.

Section sorted_kind.
Context {A : Type} (le : relation A) `{!RelDecision le}.
Context `{!PartialOrder le, !Total le}.
Context (inj : A → cam_name) (proj : cam_name → option A).
Context (Hproj : ∀ c a, proj c = Some a ↔ c = inj a).

(** Sorting the names of one kind: no repetition, the same names, in
    ascending order. *)
Lemma sorted_kind_spec (l : list cam_name) :
  NoDup l → (∀ c, c ∈ l → is_Some (proj c)) →
  let names := inj <$> merge_sort le (omap proj l) in
  NoDup names ∧ (∀ c, c ∈ names ↔ c ∈ l) ∧
  StronglySorted (strict le) (merge_sort le (omap proj l)).
Proof.
  intros Hnd Hkind names.
  assert (NoDup (merge_sort le (omap proj l))) as Hnd'.
  { rewrite merge_sort_Permutation. apply NoDup_omap; [|done].
    intros x y z Hx%Hproj Hy%Hproj. congruence. }
  assert (Inj (=) (=) inj) as Hinj.
  { intros a a' Heq. assert (proj (inj a) = Some a') as Ha'
      by (by apply Hproj).
    assert (proj (inj a) = Some a) as Ha by (by apply Hproj). congruence. }
  split_and!.
  - by apply (NoDup_fmap_2 inj).
  - intros c. subst names. rewrite list_elem_of_fmap. split.
    + intros (a & -> & Ha). rewrite merge_sort_Permutation in Ha.
      apply list_elem_of_omap in Ha as (c & Hc & Hpc).
      apply Hproj in Hpc. by subst c.
    + intros Hc. destruct (Hkind c Hc) as [a Ha]. exists a.
      split; [by apply Hproj|]. rewrite merge_sort_Permutation.
      apply list_elem_of_omap. by exists c.
  - apply (StronglySorted_strict le);
      [apply (StronglySorted_merge_sort _)|exact Hnd'].
Qed.
End sorted_kind.

(** X4.  Lines 103-105 and 166-168.  When no camera names are given, the
    ordering is made of the names that occur in some group, without
    repetition, in ascending order: all of them positions or all of them
    strings.  The computation raises [TypeError] when there is no group at
    all, or when the groups mix positions and strings. *)
Theorem resolve_cam_names_order {V} (merged : list (gmap cam_name V)) :
  match resolve_cam_names merged None with
  | Ok names =>
      merged ≠ [] ∧ NoDup names ∧
      (∀ c, c ∈ names ↔ ∃ g, g ∈ merged ∧ is_Some (g !! c)) ∧
      ((∃ idxs, names = CamIdx <$> idxs ∧
                StronglySorted (strict Nat.le) idxs) ∨
       (∃ strs, names = CamStr <$> strs ∧
                StronglySorted (strict String.le) strs))
  | Raise e =>
      e = TypeError ∧
      (merged = [] ∨
       ∃ g1 g2 i s, g1 ∈ merged ∧ g2 ∈ merged ∧
                    is_Some (g1 !! CamIdx i) ∧ is_Some (g2 !! CamStr s))
  end.
Proof.
  unfold resolve_cam_names.
  destruct merged as [|g0 merged0] eqn:Hmerged; [by split; [|left]|].
  rewrite <-Hmerged. assert (merged ≠ []) as Hne by (by rewrite Hmerged).
  clear Hmerged. unfold sorted_names.
  set (l := elements (⋃ (dom <$> merged))).
  assert (NoDup l) as Hnd by apply NoDup_elements.
  assert (∀ c, c ∈ l ↔ ∃ g, g ∈ merged ∧ is_Some (g !! c)) as Hl.
  { intros c. unfold l. by rewrite elem_of_elements, elem_of_key_union. }
  destruct (omap cam_str l) as [|s strs] eqn:Hstrs.
  - assert (∀ c, c ∈ l → is_Some (cam_idx c)) as Hkind.
    { intros [i|s] Hc; [by eexists|].
      assert (s ∈ omap cam_str l) as Hs
        by (apply list_elem_of_omap; by exists (CamStr s)).
      rewrite Hstrs in Hs. by apply elem_of_nil in Hs. }
    destruct (sorted_kind_spec Nat.le CamIdx cam_idx cam_idx_Some l Hnd Hkind)
      as (Hnd' & Hin & Hsorted).
    destruct (omap cam_idx l);
      (split_and!; [done|done|intros c; by rewrite Hin|left; by eexists]).
  - destruct (omap cam_idx l) as [|i idxs] eqn:Hidxs.
    + assert (∀ c, c ∈ l → is_Some (cam_str c)) as Hkind.
      { intros [i|s'] Hc; [|by eexists].
        assert (i ∈ omap cam_idx l) as Hi
          by (apply list_elem_of_omap; by exists (CamIdx i)).
        rewrite Hidxs in Hi. by apply elem_of_nil in Hi. }
      destruct (sorted_kind_spec String.le CamStr cam_str cam_str_Some l
                  Hnd Hkind) as (Hnd' & Hin & Hsorted).
      rewrite Hstrs in Hnd', Hin, Hsorted.
      split_and!; [done|done| |right; by eexists].
      intros c. by rewrite Hin.
    + split; [done|]. right.
      assert (i ∈ omap cam_idx l) as Hi by (rewrite Hidxs; left).
      assert (s ∈ omap cam_str l) as Hs by (rewrite Hstrs; left).
      apply list_elem_of_omap in Hi as (c1 & [g1 [Hg1 Hc1]]%Hl & ->%cam_idx_Some).
      apply list_elem_of_omap in Hs as (c2 & [g2 [Hg2 Hc2]]%Hl & ->%cam_str_Some).
      by exists g1, g2, i, s.
Qed.

(** ** Rows kept by the extractors *)

Lemma extract_points_shape_witness :
  let objp := Tensor 4 [[(Fin 0, Fin 0, Fin 0); (Fin 0, Fin 1, Fin 0);
                         nan3; nan3];
                        [(Fin 0, Fin 0, Fin 0); (Fin 0, Fin 1, Fin 0);
                         (Fin 0, Fin 0, Fin 0); (Fin 0, Fin 1, Fin 0)]] in
  let imgp := Tensor 4 [[(Fin 1, Fin 2); (Fin 3, Fin 4); nan2; nan2];
                        [(Fin 1, Fin 2); (Fin 3, Fin 4);
                         (Fin 1, Fin 2); (Fin 3, Fin 4)]] in
  let names := [CamStr "left"; CamStr "right"] in
  (resolve_cam_names sample_merged None = Ok names ∧
   extract_points sample_merged sample_board None 1 2 false
   = Ok (objp, imgp)) ∧
  n_rows objp = n_rows imgp ∧
  length (planes objp) = length names ∧
  length (planes imgp) = length names ∧
  Forall (λ plane, length plane = n_rows objp) (planes objp) ∧
  Forall (λ plane, length plane = n_rows imgp) (planes imgp).
Proof.
  intros objp imgp names.
  assert (resolve_cam_names sample_merged None = Ok names) as Hnames
    by (by vm_compute).
  assert (extract_points sample_merged sample_board None 1 2 false
          = Ok (objp, imgp)) as Hrun by (by vm_compute).
  split; [by split|].
  exact (extract_points_shape sample_merged sample_board None 1 2 false
           names objp imgp Hnames Hrun).
Defined.

Lemma true_index_Some (mask : list bool) (j : nat) :
  (j < count_true mask)%nat →
  ∃ i, true_index mask j = Some i ∧ mask !! i = Some true.
Proof.
  revert j. induction mask as [|m mask IH]; intros j Hj;
    [unfold count_true in Hj; simpl in Hj; lia|].
  rewrite count_true_cons in Hj. destruct m; simpl.
  - destruct j as [|j]; [by exists O|].
    destruct (IH j) as (i & -> & Hi); [lia|]. by exists (S i).
  - destruct (IH j) as (i & -> & Hi); [lia|]. by exists (S i).
Qed.

Lemma select_lookup {A} (mask : list bool) (a : list A) (j i : nat) :
  true_index mask j = Some i → select mask a !! j = a !! i.
Proof.
  revert a j i. induction mask as [|m mask IH]; intros a j i Hi; [done|].
  destruct a as [|x a].
  { unfold select. rewrite zip_with_nil_r. simpl. by rewrite lookup_nil. }
  unfold select in *. simpl. rewrite filter_cons. destruct m; simpl in *.
  - destruct j as [|j]; [by injection Hi as <-|].
    destruct (true_index mask j) as [i'|] eqn:Hi'; simplify_eq/=.
    by apply IH.
  - destruct (true_index mask j) as [i'|] eqn:Hi'; simplify_eq/=.
    by apply IH.
Qed.

Lemma cam_plane_lookup {A} (table : list (list A)) (m c i : nat) :
  Forall (λ r, length r = m) table → (c < m)%nat →
  cam_plane table c !! i = table !! i ≫= (.!! c).
Proof.
  intros Htable Hc. revert i.
  induction Htable as [|r table Hr _ IH]; intros i; [done|].
  destruct (lookup_lt_is_Some_2 r c) as [x Hx]; [lia|].
  unfold cam_plane in *. simpl. rewrite Hx. simpl.
  destruct i as [|i]; simpl; [done|apply IH].
Qed.

Lemma length_filter_fmap {A B} (f : A → B) (P : B → Prop)
    `{!∀ y, Decision (P y)} (l : list A) :
  length (filter P (f <$> l)) = length (filter (λ x, P (f x)) l).
Proof.
  induction l as [|x l IH]; [done|].
  rewrite fmap_cons, !filter_cons. case_decide; simpl; by rewrite IH.
Qed.

Lemma filter_seq_lookup {A} (good : A → bool) (r : list A) :
  length (filter (λ c, from_option good false (r !! c) = true)
                 (seq 0 (length r)))
  = length (filter (λ x, good x = true) r).
Proof.
  induction r as [|x r IH]; [done|].
  cbn [length seq]. rewrite <-fmap_S_seq, !filter_cons.
  assert (length (filter
                    (λ c, from_option good false ((x :: r) !! c) = true)
                    (S <$> seq 0 (length r)))
          = length (filter (λ x, good x = true) r)) as Htail.
  { rewrite length_filter_fmap. exact IH. }
  simpl. destruct (good x); simpl; by rewrite Htail.
Qed.

Lemma filter_ext_elem {A} (P Q : A → Prop) `{!∀ x, Decision (P x)}
    `{!∀ x, Decision (Q x)} (l : list A) :
  (∀ x, x ∈ l → P x ↔ Q x) → filter P l = filter Q l.
Proof.
  induction l as [|x l IH]; intros Hext; [done|].
  rewrite !filter_cons. rewrite IH by (intros y Hy; apply Hext; by right).
  destruct (decide (P x)) as [HP|HP], (decide (Q x)) as [HQ|HQ]; try done;
    exfalso; apply (Hext x) in HP || apply (Hext x) in HQ; done || by left.
Qed.

(** Row [j] of the planes selected by the mask of lines 142-146 and
    203-204 has data in at least [min] cameras. *)
Lemma kept_column_count {X} (good : X → bool) (table : list (list X))
    (m : nat) (min : Z) (j : nat) :
  Forall (λ r, length r = m) table →
  let mask :=
    good_mask min
      ((λ r, Z.of_nat (length (filter (λ x, good x = true) r))) <$> table) in
  (j < count_true mask)%nat →
  min ≤ Z.of_nat (length (filter
           (λ plane, from_option good false (plane !! j) = true)
           ((λ c, select mask (cam_plane table c)) <$> seq 0 m))).
Proof.
  intros Htable mask Hj.
  destruct (true_index_Some mask j Hj) as (i & Hi & Hmask).
  unfold mask, good_mask in Hmask. rewrite !list_lookup_fmap in Hmask.
  destruct (table !! i) as [r|] eqn:Hr; [simpl in Hmask|done].
  injection Hmask as Hmin%bool_decide_eq_true.
  rewrite length_filter_fmap.
  rewrite (filter_ext_elem _
             (λ c, from_option good false (r !! c) = true)).
  - rewrite Forall_lookup in Htable. rewrite <-(Htable i r Hr).
    by rewrite filter_seq_lookup.
  - intros c [_ Hc]%elem_of_seq. rewrite (select_lookup _ _ _ _ Hi).
    rewrite (cam_plane_lookup table m c i) by (done || lia).
    by rewrite Hr.
Qed.

Lemma mapM_M_length {A B} (f : A → M B) (xs : list A) σ ys σ' :
  mapM f xs σ = (Ok ys, σ') → length ys = length xs.
Proof.
  revert σ ys σ'. induction xs as [|x xs IH]; intros σ ys σ' Hrun.
  { by injection Hrun as <- _. }
  simpl in Hrun. rewrite M_bind_run in Hrun.
  destruct (f x σ) as [[y|] σa]; [|done]. rewrite M_bind_run in Hrun.
  destruct (mapM f xs σa) as [[ys'|] σb] eqn:Hxs; [|done].
  injection Hrun as <- _. simpl. by rewrite (IH σa ys' σb).
Qed.

Lemma mapM_M_Forall {A B} (f : A → M B) (Q : B → Prop) (xs : list A) σ ys σ' :
  (∀ x σa y σb, f x σa = (Ok y, σb) → Q y) →
  mapM f xs σ = (Ok ys, σ') → Forall Q ys.
Proof.
  intros Hf. revert σ ys σ'.
  induction xs as [|x xs IH]; intros σ ys σ' Hrun.
  { injection Hrun as <- _. constructor. }
  simpl in Hrun. rewrite M_bind_run in Hrun.
  destruct (f x σ) as [[y|] σa] eqn:Hx; [|done]. rewrite M_bind_run in Hrun.
  destruct (mapM f xs σa) as [[ys'|] σb] eqn:Hxs; [|done].
  injection Hrun as <- _. constructor; [by eapply Hf|by eapply IH].
Qed.

Lemma pose_slot_length r v : pose_slot r = Ok v → length v = 6%nat.
Proof.
  unfold pose_slot. destruct (rvec r) as [[rv|]|], (tvec r) as [[tv|]|];
    simpl; by intros [= <-].
Qed.

Lemma pose_loop_shape cv b cameras names merged σ rows σ' :
  pose_loop cv b cameras names merged σ = (Ok rows, σ') →
  length rows = length merged ∧
  Forall (λ slots, length slots = length names ∧
                   Forall (λ v : list scalar, length v = 6%nat) slots) rows.
Proof.
  intros Hrun. split; [by eapply mapM_M_length|].
  eapply mapM_M_Forall; [|exact Hrun].
  intros row σa slots σb Hrow. split.
  - apply mapM_M_length in Hrow. rewrite Hrow. unfold enumerate.
    rewrite length_zip_with, length_seq. lia.
  - eapply mapM_M_Forall; [|exact Hrow].
    intros p σc v σd Hv. unfold visit_cam in Hv.
    destruct (row !! p.2) as [l|]; [|by injection Hv as <- _].
    apply visit_pose_Ok in Hv as [_ Hv]. by eapply pose_slot_length.
Qed.

Lemma extract_rtvecs_Ok cv merged cam_names min_cameras b cameras σ t σ' :
  extract_rtvecs cv merged cam_names min_cameras b cameras σ = (Ok t, σ') →
  ∃ names rows,
    resolve_cam_names merged cam_names = Ok names ∧
    pose_loop cv b cameras names merged σ = (Ok rows, σ') ∧
    t = Tensor (count_true (good_mask min_cameras (num_good_poses <$> rows)))
               ((λ cix, select (good_mask min_cameras
                                          (num_good_poses <$> rows))
                               (cam_plane rows cix))
                  <$> seq 0 (length names)).
Proof.
  unfold extract_rtvecs. rewrite !M_bind_run. unfold lift.
  destruct (resolve_cam_names merged cam_names) as [names|]; [|done].
  rewrite !M_bind_run.
  destruct (pose_loop cv b cameras names merged σ) as [[rows|] σa] eqn:Hloop;
    [|done].
  intros [= <- <-]. by exists names, rows.
Qed.

(** X5.  The tensor returned by [extract_rtvecs] has one plane per camera of
    the ordering; every plane has [n_rows] entries of 6 components, and
    [n_rows] is at most the number of groups. *)
Theorem extract_rtvecs_shape (cv : opencv)
    (merged : list (gmap cam_name loc)) (cam_names : option (list cam_name))
    (min_cameras : Z) (b : option board) (cameras : option (list camera))
    (σ σ' : state) (t : tensor (list scalar)) (names : list cam_name) :
  extract_rtvecs cv merged cam_names min_cameras b cameras σ = (Ok t, σ') →
  resolve_cam_names merged cam_names = Ok names →
  length (planes t) = length names ∧
  (n_rows t ≤ length merged)%nat ∧
  Forall (λ plane, length plane = n_rows t ∧
                   Forall (λ v : list scalar, length v = 6%nat) plane)
         (planes t).
Proof.
  intros (names' & rows & Hnames' & Hloop & ->)%extract_rtvecs_Ok Hnames.
  assert (names' = names) as -> by congruence.
  apply pose_loop_shape in Hloop as [Hlen Hrows]. simpl.
  set (good := good_mask min_cameras (num_good_poses <$> rows)).
  assert (length good = length rows) as Hgood
    by (unfold good, good_mask; by rewrite !length_fmap).
  split_and!.
  - by rewrite length_fmap, length_seq.
  - rewrite <-Hlen, <-Hgood. unfold count_true. apply length_filter.
  - apply Forall_fmap, Forall_forall. intros cix [_ Hcix]%elem_of_seq. simpl.
    assert (Forall (λ r : list (list scalar), length r = length names) rows)
      as Hlens by (eapply Forall_impl; [exact Hrows|]; by intros r [? _]).
    split.
    + apply select_length. rewrite Hgood.
      clear -Hlens Hcix. induction Hlens as [|r rows Hr _ IH]; [done|].
      destruct (lookup_lt_is_Some_2 r cix) as [x Hx]; [lia|].
      unfold cam_plane in *. simpl. rewrite Hx. simpl. by rewrite IH.
    + apply Forall_forall. intros v Hv. unfold select in Hv.
      apply list_elem_of_fmap in Hv as ([m v'] & -> & Hv).
      apply list_elem_of_filter in Hv as [_ Hv].
      apply elem_of_zip_r in Hv. unfold cam_plane in Hv.
      apply list_elem_of_omap in Hv as (r & Hr & Hrv).
      rewrite Forall_forall in Hrows. destruct (Hrows r Hr) as [_ Hsix].
      rewrite Forall_forall in Hsix. apply Hsix.
      by eapply list_elem_of_lookup_2.
Qed.

Lemma extract_rtvecs_shape_witness :
  let cameras := Some [sample_camera; sample_camera] in
  let run := extract_rtvecs sample_cv sample_groups None 1
               (Some sample_charuco) cameras sample_state in
  let t := Tensor 2 [[[Fin 1; Fin 2; Fin 3; Fin 4; Fin 5; Fin 6];
                      [Fin 7; Fin 8; Fin 9; Fin 10; Fin 11; Fin 12]];
                     [nan6; nan6]] in
  let names := [CamStr "left"; CamStr "right"] in
  (run = (Ok t, run.2) ∧ resolve_cam_names sample_groups None = Ok names) ∧
  length (planes t) = length names ∧
  (n_rows t ≤ length sample_groups)%nat ∧
  Forall (λ plane, length plane = n_rows t ∧
                   Forall (λ v : list scalar, length v = 6%nat) plane)
         (planes t).
Proof.
  intros cameras run t names.
  assert (run = (Ok t, run.2)) as Hrun.
  { apply injective_projections; [by vm_compute|reflexivity]. }
  assert (resolve_cam_names sample_groups None = Ok names) as Hnames
    by (by vm_compute).
  split; [by split|].
  exact (extract_rtvecs_shape sample_cv sample_groups None 1
           (Some sample_charuco) cameras sample_state run.2 t names
           Hrun Hnames).
Defined.

(** X6.  Raising [min_cameras] in [extract_rtvecs] changes neither the records
    nor whether the call raises, and never increases the number of frames
    kept. *)
Theorem extract_rtvecs_min_cameras_monotone (cv : opencv)
    (merged : list (gmap cam_name loc)) (cam_names : option (list cam_name))
    (m1 m2 : Z) (b : option board) (cameras : option (list camera))
    (σ : state) :
  m1 ≤ m2 →
  let run1 := extract_rtvecs cv merged cam_names m1 b cameras σ in
  let run2 := extract_rtvecs cv merged cam_names m2 b cameras σ in
  run1.2 = run2.2 ∧
  match run1.1, run2.1 with
  | Ok t1, Ok t2 => (n_rows t2 ≤ n_rows t1)%nat
  | Raise e1, Raise e2 => e1 = e2
  | _, _ => False
  end.
Proof.
  intros Hm. unfold extract_rtvecs. simpl. rewrite !M_bind_run. unfold lift.
  destruct (resolve_cam_names merged cam_names) as [names|]; [|done].
  rewrite !M_bind_run.
  destruct (pose_loop cv b cameras names merged σ) as [[rows|] σa];
    [|done].
  simpl. split; [done|]. by apply count_true_good_mask_mono.
Qed.

Lemma extract_rtvecs_min_cameras_monotone_witness :
  let cameras := Some [sample_camera; sample_camera] in
  let run1 := extract_rtvecs sample_cv sample_groups None 1
                (Some sample_charuco) cameras sample_state in
  let run2 := extract_rtvecs sample_cv sample_groups None 2
                (Some sample_charuco) cameras sample_state in
  1 ≤ 2 ∧ run1.2 = run2.2 ∧
  match run1.1, run2.1 with
  | Ok t1, Ok t2 => (n_rows t2 ≤ n_rows t1)%nat
  | Raise e1, Raise e2 => e1 = e2
  | _, _ => False
  end.
Proof.
  intros cameras run1 run2. assert (1 ≤ 2) as Hm by lia.
  split; [exact Hm|].
  exact (extract_rtvecs_min_cameras_monotone sample_cv sample_groups None
           1 2 (Some sample_charuco) cameras sample_state Hm).
Defined.

(** X7.  Every frame that [extract_rtvecs] keeps has a pose, with a first
    component that is not NaN, for at least [min_cameras] cameras. *)
Theorem extract_rtvecs_kept_frames (cv : opencv)
    (merged : list (gmap cam_name loc)) (cam_names : option (list cam_name))
    (min_cameras : Z) (b : option board) (cameras : option (list camera))
    (σ σ' : state) (t : tensor (list scalar)) (j : nat) :
  extract_rtvecs cv merged cam_names min_cameras b cameras σ = (Ok t, σ') →
  (j < n_rows t)%nat →
  min_cameras
  ≤ Z.of_nat (length (filter (λ plane, good_pose_at j plane = true)
                             (planes t))).
Proof.
  intros (names & rows & Hnames & Hloop & ->)%extract_rtvecs_Ok Hj.
  apply pose_loop_shape in Hloop as [_ Hrows]. simpl in *.
  set (good := λ v : list scalar, negb (isnan (default NaN (head v)))).
  assert (num_good_poses <$> rows
          = (λ r, Z.of_nat (length (filter (λ x, good x = true) r)))
              <$> rows) as Hcount.
  { apply list_fmap_ext. intros _ r _. unfold num_good_poses. do 2 f_equal.
    apply list_filter_iff. intros v. unfold good.
    by rewrite negb_true_iff. }
  rewrite Hcount in Hj |- *.
  rewrite (list_filter_iff _
             (λ plane, from_option good false (plane !! j) = true)).
  - apply kept_column_count; [|done].
    eapply Forall_impl; [exact Hrows|]. by intros r [? _].
  - intros plane. unfold good_pose_at. by destruct (plane !! j).
Qed.

Lemma extract_rtvecs_kept_frames_witness :
  let cameras := Some [sample_camera; sample_camera] in
  let run := extract_rtvecs sample_cv sample_groups None 1
               (Some sample_charuco) cameras sample_state in
  let t := Tensor 2 [[[Fin 1; Fin 2; Fin 3; Fin 4; Fin 5; Fin 6];
                      [Fin 7; Fin 8; Fin 9; Fin 10; Fin 11; Fin 12]];
                     [nan6; nan6]] in
  (run = (Ok t, run.2) ∧ (1 < n_rows t)%nat) ∧
  1 ≤ Z.of_nat (length (filter (λ plane, good_pose_at 1 plane = true)
                               (planes t))).
Proof.
  intros cameras run t.
  assert (run = (Ok t, run.2)) as Hrun.
  { apply injective_projections; [by vm_compute|reflexivity]. }
  assert (1 < n_rows t)%nat as Hj by (simpl; lia).
  split; [by split|].
  exact (extract_rtvecs_kept_frames sample_cv sample_groups None 1
           (Some sample_charuco) cameras sample_state run.2 t 1 Hrun Hj).
Defined.

Lemma seq_lookup_id {A} (d : A) (l : list A) :
  (λ i, default d (l !! i)) <$> seq 0 (length l) = l.
Proof.
  induction l as [|x l IH]; [done|].
  cbn [length seq]. rewrite <-fmap_S_seq, fmap_cons, <-list_fmap_compose.
  simpl. f_equal. exact IH.
Qed.

Lemma cam_plane_app {A} (t1 t2 : list (list A)) c :
  cam_plane (t1 ++ t2) c = cam_plane t1 c ++ cam_plane t2 c.
Proof. unfold cam_plane. apply omap_app. Qed.

Lemma cam_plane_point_table n slots c (s : slot) :
  slots !! c = Some s → length s.2 = n →
  cam_plane (point_table n slots) c = s.2.
Proof.
  intros Hs Hlen. rewrite <-(seq_lookup_id nan2 s.2) at 1. rewrite Hlen.
  unfold cam_plane, point_table. induction (seq 0 n) as [|pix l IH]; [done|].
  simpl. rewrite list_lookup_fmap, Hs. simpl. f_equal. exact IH.
Qed.

Lemma point_planes_table n_cams n rows c :
  well_shaped n_cams n rows → (c < n_cams)%nat →
  concat (snd <$> cam_plane rows c) = cam_plane (rows ≫= point_table n) c.
Proof.
  intros Hrows Hc. induction Hrows as [|slots rows [Hlen Hslots] _ IH];
    [done|].
  destruct (lookup_lt_is_Some_2 slots c) as [s Hs]; [lia|].
  assert (cam_plane (slots :: rows) c = s :: cam_plane rows c) as ->.
  { unfold cam_plane. simpl. by rewrite Hs. }
  rewrite bind_cons, cam_plane_app, fmap_cons. cbn [concat]. rewrite IH.
  f_equal. symmetry. apply cam_plane_point_table; [done|].
  rewrite Forall_lookup in Hslots. by destruct (Hslots c s Hs).
Qed.

Lemma num_good_points_table n rows :
  rows ≫= num_good_points n
  = (λ r, Z.of_nat (length (filter (λ p : point2, negb (isnan p.1) = true) r)))
      <$> (rows ≫= point_table n).
Proof.
  induction rows as [|slots rows IH]; [done|].
  rewrite !bind_cons, fmap_app, IH. f_equal.
  unfold num_good_points, point_table. rewrite <-list_fmap_compose.
  apply list_fmap_ext. intros _ pix _. simpl. f_equal.
  rewrite length_filter_fmap. f_equal. apply list_filter_iff. intros s.
  by rewrite negb_true_iff.
Qed.

Lemma point_table_lengths n_cams n rows :
  well_shaped n_cams n rows →
  Forall (λ r, length r = n_cams) (rows ≫= point_table n).
Proof.
  induction 1 as [|slots rows [Hlen _] _ IH]; [constructor|].
  rewrite bind_cons. apply Forall_app. split; [|done].
  unfold point_table. apply Forall_fmap, Forall_forall. intros pix _.
  simpl. by rewrite length_fmap.
Qed.

(** X8.  Every observation row that [extract_points] keeps has an image point,
    with a first coordinate that is not NaN, in at least [min_cameras]
    cameras. *)
Theorem extract_points_kept_rows (merged : list (gmap cam_name row))
    (b : board) (cam_names : option (list cam_name))
    (min_cameras min_points : Z) (ignore_no_pose : bool)
    (objp : tensor point3) (imgp : tensor point2) (j : nat) :
  extract_points merged b cam_names min_cameras min_points ignore_no_pose
  = Ok (objp, imgp) →
  (j < n_rows imgp)%nat →
  min_cameras
  ≤ Z.of_nat (length (filter (λ plane, good_point_at j plane = true)
                             (planes imgp))).
Proof.
  unfold extract_points.
  destruct (resolve_cam_names merged cam_names) as [names|]; [simpl|done].
  destruct (points_loop b names min_points ignore_no_pose merged)
    as [rows|] eqn:Hloop; [simpl|done].
  case_bool_decide; [done|]. intros [= <- <-] Hj. simpl in *.
  pose proof (points_loop_well_shaped _ _ _ _ _ _ Hloop) as Hshape.
  set (good := λ p : point2, negb (isnan p.1)).
  rewrite num_good_points_table in Hj |- *.
  rewrite (list_filter_iff _
             (λ plane, from_option good false (plane !! j) = true)).
  2:{ intros plane. unfold good_point_at. by destruct (plane !! j). }
  set (mask := good_mask min_cameras _) in Hj |- *.
  rewrite (list_fmap_ext
             (λ cix, select mask (concat (snd <$> cam_plane rows cix)))
             (λ cix, select mask
                       (cam_plane (rows ≫= point_table (total_size b)) cix))
             (seq 0 (length names))).
  2:{ intros _ cix [_ Hcix]%list_elem_of_lookup_2%elem_of_seq.
      f_equal. by eapply point_planes_table. }
  subst mask.
  apply kept_column_count; [|done]. by eapply point_table_lengths.
Qed.

Lemma extract_points_kept_rows_witness :
  let objp := Tensor 2 [[(Fin 0, Fin 0, Fin 0); (Fin 0, Fin 1, Fin 0)];
                        [(Fin 0, Fin 0, Fin 0); (Fin 0, Fin 1, Fin 0)]] in
  let imgp := Tensor 2 [[(Fin 1, Fin 2); (Fin 3, Fin 4)];
                        [(Fin 1, Fin 2); (Fin 3, Fin 4)]] in
  (extract_points sample_merged sample_board None 2 2 false = Ok (objp, imgp)
   ∧ (1 < n_rows imgp)%nat) ∧
  2 ≤ Z.of_nat (length (filter (λ plane, good_point_at 1 plane = true)
                               (planes imgp))).
Proof.
  intros objp imgp.
  assert (extract_points sample_merged sample_board None 2 2 false
          = Ok (objp, imgp)) as Hrun by (by vm_compute).
  assert (1 < n_rows imgp)%nat as Hj by (simpl; lia).
  split; [by split|].
  exact (extract_points_kept_rows sample_merged sample_board None 2 2 false
           objp imgp 1 Hrun Hj).
Defined.

(** ** fill_points: identifiers at and beyond the bounds *)

Lemma setitem_length {A} (out out' : list A) i x :
  setitem out i x = Ok out' → length out' = length out.
Proof.
  unfold setitem. repeat case_bool_decide; intros [= <-];
    by rewrite length_insert.
Qed.

Lemma setitem_Ok_or_IndexError {A} (out : list A) i x :
  (∃ out', setitem out i x = Ok out') ∨ setitem out i x = Raise IndexError.
Proof. unfold setitem. repeat case_bool_decide; eauto. Qed.

Lemma scatter_out_of_range (out : list point2) (l : list (Z * point2)) :
  Exists (λ p, ¬ (- Z.of_nat (length out) ≤ p.1 < Z.of_nat (length out))) l →
  scatter out l = Raise IndexError.
Proof.
  intros Hex. revert out Hex. induction l as [|[i cxs] l IH]; intros out Hex.
  { by apply Exists_nil in Hex. }
  simpl. destruct (setitem out i cxs) as [out'|e] eqn:Hset; simpl.
  - apply IH. rewrite (setitem_length _ _ _ _ Hset).
    apply Exists_cons in Hex as [Hi|Hex]; [|done].
    exfalso. unfold setitem in Hset. simpl in Hi.
    repeat case_bool_decide; try done; lia.
  - destruct (setitem_Ok_or_IndexError out i cxs) as [[out' Hok]|Herr];
      congruence.
Qed.

Lemma scatter_lookup_wrap (out : list point2) (l : list (Z * point2)) :
  let n := Z.of_nat (length out) in
  Forall (λ p, - n ≤ p.1 < n) l →
  ∃ out', scatter out l = Ok out' ∧ length out' = length out ∧
          ∀ j : nat,
            out' !! j
            = (snd <$> last (filter (λ p, p.1 `mod` n = Z.of_nat j) l))
              ∪ out !! j.
Proof.
  revert out. induction l as [|[i cxs] l IH]; intros out n Hl.
  { exists out. split_and!; [done..|]. intros j. simpl.
    by rewrite (left_id None _). }
  apply Forall_cons in Hl as [Hi Hl]. simpl in Hi.
  set (k := Z.to_nat (i `mod` n)).
  assert (0 < n) as Hn by lia.
  assert (setitem out i cxs = Ok (<[k := cxs]> out)) as Hset.
  { unfold setitem, k. fold n. case_bool_decide as Hpos.
    - by rewrite Z.mod_small by lia.
    - rewrite bool_decide_eq_true_2 by lia. do 3 f_equal.
      rewrite <-(Z.mod_add i 1 n) by lia. rewrite Z.mod_small; lia. }
  assert (Z.of_nat k = i `mod` n ∧ (k < length out)%nat) as [Hk Hklt].
  { unfold k. pose proof (Z.mod_pos_bound i n Hn). lia. }
  simpl. rewrite Hset. simpl.
  destruct (IH (<[k := cxs]> out)) as (out' & Hrun & Hlen & Hout).
  { by rewrite length_insert. }
  rewrite length_insert in Hlen, Hout. fold n in Hout.
  exists out'. split; [done|]. split; [done|]. intros j. rewrite Hout.
  rewrite filter_cons. simpl.
  destruct (last (filter (λ p, p.1 `mod` n = Z.of_nat j) l)) as [p|] eqn:Hlast.
  { case_decide; [rewrite last_cons|]; rewrite Hlast; simpl;
      by rewrite !union_Some_l. }
  simpl. rewrite (left_id None _). case_decide as Hj.
  - rewrite last_cons, Hlast. simpl. rewrite union_Some_l.
    assert (j = k) as -> by lia. by apply list_lookup_insert_eq.
  - rewrite Hlast. simpl. rewrite (left_id None _).
    apply list_lookup_insert_ne. lia.
Qed.

(** X9.  For detected corners with identifiers, [fill_points] indexes the
    layout as numpy does.  An identifier outside [-total_size, total_size)
    raises [IndexError].  Otherwise identifier [i] names slot
    [i mod total_size] (a negative one counts from the end): the result has
    [total_size] slots, each holding the last corner written to it and NaN
    when there is none. *)
Theorem fill_points_index_bounds (b : board) (cs : list point2)
    (ixs : list Z) :
  cs ≠ [] →
  let n := Z.of_nat (total_size b) in
  (Exists (λ p, ¬ (- n ≤ p.1 < n)) (zip ixs cs) →
   fill_points b (Some cs) (Some ixs) = Raise IndexError) ∧
  (Forall (λ p, - n ≤ p.1 < n) (zip ixs cs) →
   ∃ out, fill_points b (Some cs) (Some ixs) = Ok out ∧
          length out = total_size b ∧
          ∀ j, (j < total_size b)%nat →
               out !! j
               = Some (default nan2
                         (snd <$> last (filter
                                          (λ p, p.1 `mod` n = Z.of_nat j)
                                          (zip ixs cs))))).
Proof.
  intros Hcs n.
  assert (fill_points b (Some cs) (Some ixs)
          = scatter (get_empty_detection b) (zip ixs cs)) as ->.
  { unfold fill_points. destruct cs; [done|]. by destruct (kind b). }
  assert (length (get_empty_detection b) = total_size b) as Hlen.
  { unfold get_empty_detection. by rewrite length_replicate. }
  split.
  - intros Hex. apply scatter_out_of_range. by rewrite Hlen.
  - intros Hall.
    destruct (scatter_lookup_wrap (get_empty_detection b) (zip ixs cs))
      as (out & Hrun & Hlen' & Hout); [by rewrite Hlen|].
    rewrite Hlen in Hlen', Hout. exists out. split; [done|]. split; [done|].
    intros j Hj. rewrite Hout. unfold get_empty_detection.
    rewrite lookup_replicate_2 by done. fold n.
    by destruct (last _).
Qed.

Lemma fill_points_index_bounds_witness :
  let b := CharucoBoard 3 3 (Fin 1) in
  let cs := [(Fin 10, Fin 11); (Fin 20, Fin 21)] in
  (cs ≠ [] ∧
   Exists (λ p, ¬ (- Z.of_nat (total_size b) ≤ p.1 < Z.of_nat (total_size b)))
          (zip [1; 4] cs) ∧
   Forall (λ p, - Z.of_nat (total_size b) ≤ p.1 < Z.of_nat (total_size b))
          (zip [-1; 0] cs)) ∧
  fill_points b (Some cs) (Some [1; 4]) = Raise IndexError ∧
  ∃ out, fill_points b (Some cs) (Some [-1; 0]) = Ok out ∧
         length out = total_size b.
Proof.
  intros b cs.
  assert (cs ≠ []) as Hcs by done.
  assert (Exists (λ p, ¬ (- Z.of_nat (total_size b) ≤ p.1
                          < Z.of_nat (total_size b))) (zip [1; 4] cs)) as Hex
    by (right; left; simpl; lia).
  assert (Forall (λ p, - Z.of_nat (total_size b) ≤ p.1
                       < Z.of_nat (total_size b)) (zip [-1; 0] cs)) as Hall
    by (repeat constructor; simpl; lia).
  split; [by split_and!|]. split.
  - by apply (fill_points_index_bounds b cs [1; 4] Hcs).
  - destruct (fill_points_index_bounds b cs [-1; 0] Hcs) as [_ Hok].
    destruct (Hok Hall) as (out & Hrun & Hlen & _). by exists out.
Defined.

Lemma scatter_seq (pre rest : list point2) (cs : list point2) :
  scatter (pre ++ rest)
          (zip (Z.of_nat <$> seq (length pre) (length rest)) cs)
  = Ok (pre ++ take (length rest) cs ++ drop (length cs) rest).
Proof.
  revert pre rest. induction cs as [|c cs IH]; intros pre rest.
  { rewrite zip_with_nil_r. simpl. by rewrite take_nil. }
  destruct rest as [|r rest]; simpl; [done|].
  unfold setitem. rewrite bool_decide_eq_true_2
    by (rewrite length_app; simpl; lia).
  simpl. rewrite Nat2Z.id.
  rewrite (insert_app_r_alt pre (r :: rest)) by lia.
  rewrite Nat.sub_diag. simpl.
  pose proof (IH (pre ++ [c]) rest) as Hrest.
  rewrite length_app in Hrest. simpl in Hrest.
  rewrite Nat.add_1_r, <-!(assoc_L (++)) in Hrest. exact Hrest.
Qed.

Lemma fill_points_seq (b : board) (cs : list point2) :
  fill_points b (Some cs) (Some (board_ids b))
  = Ok (take (total_size b) cs
        ++ replicate (total_size b - length cs) nan2).
Proof.
  unfold fill_points, get_empty_detection, board_ids.
  pose proof (scatter_seq [] (replicate (total_size b) nan2) cs) as Hs.
  rewrite length_replicate, drop_replicate in Hs. simpl in Hs.
  destruct cs as [|c cs]; [|destruct (kind b); exact Hs].
  rewrite take_nil. simpl. by rewrite Nat.sub_0_r.
Qed.

(** X10.  With the identifiers of a checkerboard, [0 .. total_size - 1] in
    order, corner [k] goes to slot [k]: the result is the corners, cut or
    padded with NaN to [total_size] slots.  A full detection is returned as
    it is, as it is when no identifiers are given. *)
Theorem fill_points_board_ids (b : board) (cs : list point2) :
  fill_points b (Some cs) (Some (board_ids b))
  = Ok (take (total_size b) cs
        ++ replicate (total_size b - length cs) nan2) ∧
  (length cs = total_size b → cs ≠ [] → kind b = Checker →
   fill_points b (Some cs) (Some (board_ids b)) = fill_points b (Some cs) None).
Proof.
  pose proof (fill_points_seq b cs) as Hfill.
  split; [exact Hfill|]. intros Hlen Hcs Hkind. rewrite Hfill.
  unfold fill_points. rewrite Hkind. destruct cs as [|c cs]; [done|].
  rewrite <-Hlen, firstn_all, Nat.sub_diag. simpl. by rewrite app_nil_r.
Qed.

Lemma fill_points_board_ids_witness :
  let b := Checkerboard 2 1 (Fin 1) in
  let cs := [(Fin 1, Fin 2); (Fin 3, Fin 4)] in
  (length cs = total_size b ∧ cs ≠ [] ∧ kind b = Checker) ∧
  fill_points b (Some cs) (Some (board_ids b)) = fill_points b (Some cs) None.
Proof.
  intros b cs. split; [done|].
  by apply (fill_points_board_ids b cs).
Defined.

(** ** The geometry built by the board constructors *)

Lemma bind_singleton_fmap {A B} (f : A → B) (l : list A) :
  l ≫= (λ x, [f x]) = f <$> l.
Proof. induction l as [|x l IH]; [done|]. by rewrite bind_cons, IH. Qed.

Lemma bind_lookup_block {A B} (h : A → list B) (m : nat) (l : list A)
    (i k : nat) :
  (∀ a, length (h a) = m) → (k < m)%nat →
  (l ≫= h) !! (i * m + k)%nat = l !! i ≫= (λ a, h a !! k).
Proof.
  intros Hlen Hk. revert i. induction l as [|a l IH]; intros i; [done|].
  rewrite bind_cons. destruct i as [|i]; simpl.
  - rewrite lookup_app_l by (rewrite Hlen; lia). done.
  - rewrite lookup_app_r by (rewrite Hlen; lia). rewrite Hlen.
    replace (m + i * m + k - m)%nat with (i * m + k)%nat by lia. apply IH.
Qed.

Lemma grid_points_rows (ny nx : nat) (square_length : scalar) :
  grid_points ny nx square_length
  = seq 0 nx ≫= (λ x, (λ y, (scale square_length y, scale square_length x,
                              scale square_length 0)) <$> seq 0 ny).
Proof.
  unfold grid_points. f_equal.
Qed.

Lemma bind_length_block {A B} (h : A → list B) (m : nat) (l : list A) :
  (∀ a, length (h a) = m) → length (l ≫= h) = (length l * m)%nat.
Proof.
  intros Hlen. induction l as [|a l IH]; [done|].
  rewrite bind_cons, length_app, IH, Hlen. simpl. lia.
Qed.

Lemma grid_points_length (ny nx : nat) (square_length : scalar) :
  length (grid_points ny nx square_length) = (nx * ny)%nat.
Proof.
  rewrite grid_points_rows, (bind_length_block _ ny), length_seq; [done|].
  intros a. by rewrite length_fmap, length_seq.
Qed.

Lemma grid_points_lookup (ny nx : nat) (square_length : scalar) (x y : nat) :
  (x < nx)%nat → (y < ny)%nat →
  grid_points ny nx square_length !! (x * ny + y)%nat
  = Some (scale square_length y, scale square_length x,
          scale square_length 0).
Proof.
  intros Hx Hy. rewrite grid_points_rows.
  rewrite (bind_lookup_block _ ny) by (done || intros a;
    by rewrite length_fmap, length_seq).
  rewrite lookup_seq_lt by done. simpl.
  by rewrite list_lookup_fmap, lookup_seq_lt.
Qed.

(** X11.  Both constructors build an object-point template with one point per
    slot of the empty detection.  Point [x * ny + y] of the template, for
    column [x] and row [y] of the grid of inner points ([ny] rows), is
    [(y, x, 0)] scaled by the square length. *)
Theorem board_object_points (squaresX squaresY : nat) (square_length : scalar)
    (x y : nat) :
  let cb := Checkerboard squaresX squaresY square_length in
  let ch := CharucoBoard squaresX squaresY square_length in
  length (get_object_points cb) = length (get_empty_detection cb) ∧
  length (get_object_points ch) = length (get_empty_detection ch) ∧
  ((x < squaresX)%nat → (y < squaresY)%nat →
   get_object_points cb !! (x * squaresY + y)%nat
   = Some (scale square_length y, scale square_length x,
           scale square_length 0)) ∧
  ((x < squaresX - 1)%nat → (y < squaresY - 1)%nat →
   get_object_points ch !! (x * (squaresY - 1) + y)%nat
   = Some (scale square_length y, scale square_length x,
           scale square_length 0)).
Proof.
  intros cb ch. unfold get_object_points, get_empty_detection. simpl.
  rewrite !length_replicate, !grid_points_length.
  split_and!; [done|done| |]; intros Hx Hy; by apply grid_points_lookup.
Qed.

Lemma board_object_points_witness :
  let cb := Checkerboard 3 2 (Fin 5) in
  ((2 < 3)%nat ∧ (1 < 2)%nat) ∧
  get_object_points cb !! (2 * 2 + 1)%nat = Some (Fin 5, Fin 10, Fin 0).
Proof.
  intros cb. assert (2 < 3)%nat as Hx by lia. assert (1 < 2)%nat as Hy by lia.
  split; [by split|].
  destruct (board_object_points 3 2 (Fin 5) 2 1) as (_ & _ & Hcb & _).
  exact (Hcb Hx Hy).
Defined.

(** ** fill_points_rows and estimate_pose_rows *)

Section rows_update.
(** A loop that replaces each listed record [r] by [upd r], where doing it
    twice is the same as doing it once; [tick] tells whether a step is
    traced as a pose estimate. *)
Context (upd : row → result row) (tick : bool) (step : loc → M ()).
Context (Hidem : ∀ r r', upd r = Ok r' → upd r' = Ok r').
Context (Hstep : ∀ l σ σ',
  step l σ = (Ok (), σ') →
  ∃ r', upd (heap σ l) = Ok r' ∧ heap σ' = <[l := r']> (heap σ) ∧
        pose_calls σ' = (if tick then [l] else []) ++ pose_calls σ).

Lemma rows_update_spec (rows : list loc) σ ys σ' :
  mapM step rows σ = (Ok ys, σ') →
  pose_calls σ' = (if tick then reverse rows else []) ++ pose_calls σ ∧
  ∀ l, (l ∉ rows → heap σ' l = heap σ l) ∧
       (l ∈ rows → upd (heap σ l) = Ok (heap σ' l)).
Proof.
  revert σ ys σ'. induction rows as [|l0 rows IH]; intros σ ys σ' Hrun.
  { injection Hrun as _ <-. split; [by destruct tick|].
    intros l. split; [done|]. by intros ?%elem_of_nil. }
  simpl in Hrun. rewrite M_bind_run in Hrun.
  destruct (step l0 σ) as [[[]|] σa] eqn:Hl0; [|done].
  rewrite M_bind_run in Hrun.
  destruct (mapM step rows σa) as [[ys'|] σb] eqn:Hrows; [|done].
  injection Hrun as _ <-.
  destruct (Hstep l0 σ σa Hl0) as (r0 & Hupd0 & Hheap & Hcalls).
  destruct (IH σa ys' σb Hrows) as [Hcalls' Hrest]. split.
  - rewrite Hcalls', Hcalls. destruct tick; [|done].
    rewrite reverse_cons, <-(assoc_L (++)). done.
  - intros l. destruct (Hrest l) as [Hout Hin].
    assert (heap σa l = if decide (l = l0) then r0 else heap σ l) as Hσa.
    { rewrite Hheap. case_decide as Hl; [subst l; apply fn_lookup_insert|].
      by apply fn_lookup_insert_ne. }
    split.
    + intros Hnin. rewrite Hout by (intros ?; apply Hnin; by right).
      rewrite Hσa, decide_False; [done|]. intros ->. apply Hnin. left.
    + intros Hl. destruct (decide (l ∈ rows)) as [Hlrows|Hlrows].
      * specialize (Hin Hlrows). rewrite Hσa in Hin.
        case_decide as Hl0eq; [|done]. subst l.
        pose proof (Hidem _ _ Hupd0) as Hr0. congruence.
      * apply elem_of_cons in Hl as [->|?]; [|done].
        rewrite Hout, Hσa, decide_True by done. done.
Qed.
End rows_update.

Lemma filled_row_idem b r r' : filled_row b r = Ok r' → filled_row b r' = Ok r'.
Proof.
  unfold filled_row. destruct (corners r) as [cs|] eqn:Hcs; [simpl|done].
  destruct (ids r) as [ixs|] eqn:Hixs; [simpl|done].
  destruct (fill_points b cs ixs) as [pts|] eqn:Hfill; [simpl|done].
  intros [= <-]. simpl. rewrite Hcs, Hixs. simpl. by rewrite Hfill.
Qed.

Lemma posed_row_idem cv b cam r r' :
  posed_row cv b cam r = Ok r' → posed_row cv b cam r' = Ok r'.
Proof.
  unfold posed_row. destruct (corners r) as [cs|] eqn:Hcs; [simpl|done].
  destruct (ids r) as [ixs|] eqn:Hixs; [simpl|done].
  destruct (estimate_pose_points cv b cam cs ixs) as [p|] eqn:Hp;
    [simpl|done].
  intros [= <-]. simpl. rewrite Hcs, Hixs. simpl. by rewrite Hp.
Qed.

Lemma fill_points_rows_step b l σ σ' :
  (r ← deref l; r' ← lift (filled_row b r); store_row l r') σ = (Ok (), σ') →
  ∃ r', filled_row b (heap σ l) = Ok r' ∧ heap σ' = <[l := r']> (heap σ) ∧
        pose_calls σ' = [] ++ pose_calls σ.
Proof.
  run_M. destruct (filled_row b (heap σ l)) as [r'|]; [|done].
  run_M. unfold store_row. intros [= <-]. by exists r'.
Qed.

Lemma estimate_pose_rows_step cv b cam l σ σ' :
  (r ← deref l;
   cs ← lift (getitem "corners" (corners r));
   ixs ← lift (getitem "ids" (ids r));
   _ ← log_pose_call l;
   p ← lift (estimate_pose_points cv b cam cs ixs);
   store_pose l p.1 p.2) σ = (Ok (), σ') →
  ∃ r', posed_row cv b cam (heap σ l) = Ok r' ∧
        heap σ' = <[l := r']> (heap σ) ∧
        pose_calls σ' = [l] ++ pose_calls σ.
Proof.
  run_M. unfold posed_row.
  destruct (corners (heap σ l)) as [cs|]; [|done]. run_M.
  destruct (ids (heap σ l)) as [ixs|]; [|done]. run_M.
  destruct (estimate_pose_points cv b cam cs ixs) as [p|]; [|done].
  run_M. unfold store_pose. intros [= <-]. by eexists.
Qed.

(** X12.  [fill_points_rows] returns the list it was given.  On return every
    listed record has its [filled] key set to the result of [fill_points]
    on its own corners and identifiers, nothing else of it has changed, the
    records that are not listed are untouched and no pose was estimated.  A
    record that is listed twice is filled to the same value twice. *)
Theorem fill_points_rows_fills (b : board) (rows : list loc) (σ : state)
    (rows' : list loc) (σ' : state) :
  fill_points_rows b rows σ = (Ok rows', σ') →
  rows' = rows ∧ pose_calls σ' = pose_calls σ ∧
  ∀ l, (l ∉ rows → heap σ' l = heap σ l) ∧
       (l ∈ rows →
        ∃ cs ixs pts,
          corners (heap σ l) = Some cs ∧ ids (heap σ l) = Some ixs ∧
          fill_points b cs ixs = Ok pts ∧
          heap σ' l = set_filled pts (heap σ l)).
Proof.
  unfold fill_points_rows. rewrite M_bind_run.
  destruct (mapM (M := M) _ rows σ) as [[ys|] σa] eqn:Hrun; [|done].
  intros [= <- <-].
  destruct (rows_update_spec (filled_row b) false _ (filled_row_idem b)
              (fill_points_rows_step b) rows σ ys σa Hrun) as [Hcalls Hheap].
  split_and!; [done..|]. intros l. destruct (Hheap l) as [Hout Hin].
  split; [done|]. intros Hl. specialize (Hin Hl).
  unfold filled_row in Hin.
  destruct (corners (heap σ l)) as [cs|]; [simpl in Hin|done].
  destruct (ids (heap σ l)) as [ixs|]; [simpl in Hin|done].
  destruct (fill_points b cs ixs) as [pts|] eqn:Hfill; [simpl in Hin|done].
  exists cs, ixs, pts. by injection Hin as <-.
Qed.

Lemma fill_points_rows_fills_witness :
  let rows := [0%nat; 1%nat; 0%nat] in
  let run := fill_points_rows sample_charuco rows sample_state in
  run = (Ok rows, run.2) ∧
  pose_calls run.2 = [] ∧
  heap run.2 2%nat = sample_heap 2%nat ∧
  filled (heap run.2 0%nat)
  = Some [(Fin 1, Fin 1); (Fin 2, Fin 2); (Fin 3, Fin 3); nan2].
Proof.
  intros rows run.
  assert (run = (Ok rows, run.2)) as Hrun.
  { apply injective_projections; [by vm_compute|reflexivity]. }
  split; [exact Hrun|].
  destruct (fill_points_rows_fills sample_charuco rows sample_state rows
              run.2 Hrun) as (_ & Hcalls & Hheap).
  split; [exact Hcalls|]. split.
  - apply (Hheap 2%nat). apply (bool_decide_unpack _). by vm_compute.
  - by vm_compute.
Defined.

(** X13.  [estimate_pose_rows] returns the list it was given.  On return the
    estimator has been invoked once for every entry of the list, in order
    (also for the records that had a pose already), every listed record
    has both pose keys, set to the estimate for its own corners and
    identifiers, and the records that are not listed are untouched. *)
Theorem estimate_pose_rows_poses (cv : opencv) (b : board) (cam : camera)
    (rows : list loc) (σ : state) (rows' : list loc) (σ' : state) :
  estimate_pose_rows cv b cam rows σ = (Ok rows', σ') →
  rows' = rows ∧ pose_calls σ' = reverse rows ++ pose_calls σ ∧
  ∀ l, (l ∉ rows → heap σ' l = heap σ l) ∧
       (l ∈ rows →
        has_pose_keys (heap σ' l) = true ∧
        ∃ cs ixs p,
          corners (heap σ l) = Some cs ∧ ids (heap σ l) = Some ixs ∧
          estimate_pose_points cv b cam cs ixs = Ok p ∧
          heap σ' l = set_pose_keys p.1 p.2 (heap σ l)).
Proof.
  unfold estimate_pose_rows. rewrite M_bind_run.
  destruct (mapM (M := M) _ rows σ) as [[ys|] σa] eqn:Hrun; [|done].
  intros [= <- <-].
  destruct (rows_update_spec (posed_row cv b cam) true _
              (posed_row_idem cv b cam) (estimate_pose_rows_step cv b cam)
              rows σ ys σa Hrun) as [Hcalls Hheap].
  split_and!; [done..|]. intros l. destruct (Hheap l) as [Hout Hin].
  split; [done|]. intros Hl. specialize (Hin Hl).
  unfold posed_row in Hin.
  destruct (corners (heap σ l)) as [cs|]; [simpl in Hin|done].
  destruct (ids (heap σ l)) as [ixs|]; [simpl in Hin|done].
  destruct (estimate_pose_points cv b cam cs ixs) as [p|] eqn:Hp;
    [simpl in Hin|done].
  injection Hin as <-. split; [done|]. by exists cs, ixs, p.
Qed.

Lemma estimate_pose_rows_poses_witness :
  let rows := [1%nat; 2%nat; 1%nat] in
  let run := estimate_pose_rows sample_cv sample_charuco sample_camera rows
               sample_state in
  run = (Ok rows, run.2) ∧
  pose_calls run.2 = [1%nat; 2%nat; 1%nat] ∧
  heap run.2 0%nat = sample_heap 0%nat ∧
  has_pose_keys (heap run.2 1%nat) = true.
Proof.
  intros rows run.
  assert (run = (Ok rows, run.2)) as Hrun.
  { apply injective_projections; [by vm_compute|reflexivity]. }
  split; [exact Hrun|].
  destruct (estimate_pose_rows_poses sample_cv sample_charuco sample_camera
              rows sample_state rows run.2 Hrun) as (_ & Hcalls & Hheap).
  split; [exact Hcalls|]. split.
  - apply (Hheap 0%nat). apply (bool_decide_unpack _). by vm_compute.
  - apply (Hheap 1%nat). left.
Defined.

Lemma extract_rtvecs_no_board_complete cv merged cam_names min_cameras
    cameras σ names :
  resolve_cam_names merged cam_names = Ok names →
  (∀ row cname l, row ∈ merged → cname ∈ names → row !! cname = Some l →
                  has_pose_keys (heap σ l) = true) →
  ∃ t, extract_rtvecs cv merged cam_names min_cameras None cameras σ
       = (Ok t, σ).
Proof.
  intros Hnames Hkeys.
  unfold extract_rtvecs. rewrite M_bind_run. unfold lift. rewrite Hnames.
  rewrite M_bind_run. unfold pose_loop.
  rewrite (mapM_read _ (λ row, mapM (read_cam σ row) (enumerate names)) σ).
  2:{ intros row'. apply mapM_read. intros p. apply visit_cam_no_board. }
  destruct (mapM_Ok_intro
              (λ row, mapM (read_cam σ row) (enumerate names)) merged)
    as [rows ->]; [|by eexists].
  intros row Hrow. apply mapM_Ok_intro. intros [cix cname] Hp.
  unfold read_cam. simpl. destruct (row !! cname) as [l|] eqn:Hl;
    [|by eexists].
  assert (has_pose_keys (heap σ l) = true) as Hk.
  { apply (Hkeys row cname l); [done| |done].
    unfold enumerate in Hp. by apply elem_of_zip_r in Hp. }
  rewrite Hk. by apply pose_slot_complete.
Qed.

(** X14.  The contract of the docstring of [extract_rtvecs]: once
    [estimate_pose_rows] has returned for a list of records, the groups
    built from these records can be extracted without a board.  The
    extraction returns a tensor, estimates nothing and leaves every record
    as it is. *)
Theorem estimate_pose_rows_then_extract (cv : opencv) (b : board)
    (cam : camera) (rows : list loc) (σ : state) (rows' : list loc)
    (σ' : state) (merged : list (gmap cam_name loc))
    (cam_names : option (list cam_name)) (names : list cam_name)
    (min_cameras : Z) (cameras : option (list camera)) :
  estimate_pose_rows cv b cam rows σ = (Ok rows', σ') →
  (∀ row cname l, row ∈ merged → row !! cname = Some l → l ∈ rows) →
  resolve_cam_names merged cam_names = Ok names →
  ∃ t, extract_rtvecs cv merged cam_names min_cameras None cameras σ'
       = (Ok t, σ').
Proof.
  intros Hrun Hrows Hnames.
  eapply extract_rtvecs_no_board_complete; [done|].
  intros row cname l Hrow _ Hl.
  unfold estimate_pose_rows in Hrun. rewrite M_bind_run in Hrun.
  destruct (mapM (M := M) _ rows σ) as [[ys|] σa] eqn:Hloop; [|done].
  injection Hrun as _ <-.
  destruct (rows_update_spec (posed_row cv b cam) true _
              (posed_row_idem cv b cam) (estimate_pose_rows_step cv b cam)
              rows σ ys σa Hloop) as [_ Hheap].
  destruct (Hheap l) as [_ Hin]. specialize (Hin (Hrows _ _ _ Hrow Hl)).
  unfold posed_row in Hin.
  destruct (corners (heap σ l)) as [cs|]; [simpl in Hin|done].
  destruct (ids (heap σ l)) as [ixs|]; [simpl in Hin|done].
  destruct (estimate_pose_points cv b cam cs ixs) as [p|]; [simpl in Hin|done].
  by injection Hin as <-.
Qed.

Lemma estimate_pose_rows_then_extract_witness :
  let rows := [0%nat; 1%nat; 2%nat] in
  let run := estimate_pose_rows sample_cv sample_charuco sample_camera rows
               sample_state in
  let names := [CamStr "left"; CamStr "right"] in
  (run = (Ok rows, run.2) ∧
   resolve_cam_names sample_groups None = Ok names) ∧
  ∃ t, extract_rtvecs failing_cv sample_groups None 1 None None run.2
       = (Ok t, run.2).
Proof.
  intros rows run names.
  assert (run = (Ok rows, run.2)) as Hrun.
  { apply injective_projections; [by vm_compute|reflexivity]. }
  assert (resolve_cam_names sample_groups None = Ok names) as Hnames
    by (by vm_compute).
  split; [by split|].
  apply (estimate_pose_rows_then_extract sample_cv sample_charuco
           sample_camera rows sample_state rows run.2 sample_groups None
           names 1 None Hrun); [|exact Hnames].
  intros row cname l Hrow Hl.
  assert (l < 3)%nat as Hlt.
  { unfold sample_groups in Hrow.
    apply elem_of_cons in Hrow as [->|Hrow].
    - destruct (decide (cname = CamStr "left")) as [->|?].
      { vm_compute in Hl. injection Hl as <-. lia. }
      destruct (decide (cname = CamStr "right")) as [->|?].
      { vm_compute in Hl. injection Hl as <-. lia. }
      rewrite lookup_insert_ne, lookup_singleton_ne in Hl by done. done.
    - apply list_elem_of_singleton in Hrow as ->.
      apply lookup_singleton_Some in Hl as [_ <-]. lia. }
  destruct l as [|[|[|l]]]; [left|right; left|right; right; left|lia].
Defined.

(** X15.  With a checkerboard, [estimate_pose_rows] on a list that is not empty
    never returns: the first record stops it, with a [KeyError] when a
    detection key is missing and with the [NameError] of
    [Checkerboard.estimate_pose_points] otherwise.  No record has been
    written. *)
Theorem estimate_pose_rows_checkerboard (cv : opencv) (b : board)
    (cam : camera) (l : loc) (rows : list loc) (σ : state) :
  kind b = Checker →
  ∃ e σ',
    estimate_pose_rows cv b cam (l :: rows) σ = (Raise e, σ') ∧
    heap σ' = heap σ ∧
    e = match corners (heap σ l), ids (heap σ l) with
        | None, _ => KeyError "corners"
        | Some _, None => KeyError "ids"
        | Some _, Some _ => NameError "corners"
        end.
Proof.
  intros Hkind. unfold estimate_pose_rows. rewrite M_bind_run. simpl.
  rewrite !M_bind_run. simpl.
  destruct (corners (heap σ l)) as [cs|]; [|by eexists _, _].
  run_M. destruct (ids (heap σ l)) as [ixs|]; [|by eexists _, _].
  run_M. unfold estimate_pose_points. rewrite Hkind.
  destruct cs, ixs; by eexists _, _.
Qed.

Lemma estimate_pose_rows_checkerboard_witness :
  kind sample_board = Checker ∧
  ∃ e σ',
    estimate_pose_rows sample_cv sample_board sample_camera [0%nat]
      sample_state = (Raise e, σ') ∧
    heap σ' = heap sample_state ∧ e = NameError "corners".
Proof.
  split; [reflexivity|].
  exact (estimate_pose_rows_checkerboard sample_cv sample_board
           sample_camera 0%nat [] sample_state eq_refl).
Defined.

(** ** Filled records are fit for extract_points *)

Lemma scatter_length (out out' : list point2) (l : list (Z * point2)) :
  scatter out l = Ok out' → length out' = length out.
Proof.
  revert out. induction l as [|[i cxs] l IH]; intros out; simpl.
  { by intros [= <-]. }
  destruct (setitem out i cxs) as [out1|] eqn:Hset; [simpl|done].
  intros Hrest. rewrite (IH _ Hrest). by eapply setitem_length.
Qed.

Lemma fill_points_length (b : board) (cs : option (list point2))
    (ixs : option (list Z)) (pts : list point2) :
  fill_points b cs ixs = Ok pts →
  kind b = Charuco ∨ ixs ≠ None →
  length pts = total_size b.
Proof.
  unfold fill_points, get_empty_detection. intros Hfill Hids.
  destruct cs as [[|c cs]|].
  1,3: injection Hfill as <-; by rewrite length_replicate.
  destruct ixs as [ixs|].
  - assert (scatter (replicate (total_size b) nan2) (zip ixs (c :: cs))
            = Ok pts) as Hsc by (by destruct (kind b)).
    apply scatter_length in Hsc. by rewrite length_replicate in Hsc.
  - destruct Hids as [Hk|?]; [|done]. by rewrite Hk in Hfill.
Qed.

Lemma fill_points_rows_run (b : board) (rows : list loc) (σ : state)
    (rows' : list loc) (σ' : state) :
  fill_points_rows b rows σ = (Ok rows', σ') →
  ∀ l, l ∈ rows → filled_row b (heap σ l) = Ok (heap σ' l).
Proof.
  unfold fill_points_rows. rewrite M_bind_run.
  destruct (mapM (M := M) _ rows σ) as [[ys|] σa] eqn:Hrun; [|done].
  intros [= <- <-] l Hl.
  by apply (rows_update_spec (filled_row b) false _ (filled_row_idem b)
              (fill_points_rows_step b) rows σ ys σa Hrun).
Qed.

(** X16.  Records filled by [fill_points_rows] are fit for [extract_points]:
    for a board whose template has one point per slot and records that
    carry identifiers (a ChArUco board accepts no others), the extraction
    over groups of the filled records returns its two arrays whenever the
    camera ordering resolves to at least one camera.  No [filled] key is
    missing and no block has a wrong length. *)
Theorem fill_points_rows_then_extract_points (b : board) (rows : list loc)
    (σ : state) (rows' : list loc) (σ' : state)
    (merged : list (gmap cam_name loc)) (cam_names : option (list cam_name))
    (names : list cam_name) (min_cameras min_points : Z)
    (ignore_no_pose : bool) :
  let groups := (fmap (M := gmap cam_name) (heap σ')) <$> merged in
  fill_points_rows b rows σ = (Ok rows', σ') →
  length (get_object_points b) = total_size b →
  kind b = Charuco ∨ (∀ l, l ∈ rows → ids (heap σ l) ≠ Some None) →
  (∀ row cname l, row ∈ merged → row !! cname = Some l → l ∈ rows) →
  resolve_cam_names groups cam_names = Ok names →
  names ≠ [] →
  ∃ objp imgp,
    extract_points groups b cam_names min_cameras min_points ignore_no_pose
    = Ok (objp, imgp).
Proof.
  intros groups Hrun Hobj Hids Hrows Hnames Hne.
  unfold extract_points. rewrite Hnames. simpl.
  destruct (mapM_Ok_intro
              (λ row : gmap cam_name row,
                 mapM (λ cname,
                         match row !! cname with
                         | Some r => visit_points b min_points ignore_no_pose r
                         | None => Ok (nan_slot (total_size b))
                         end) names) groups) as [table Htable].
  { intros row' Hrow'. apply mapM_Ok_intro. intros cname _.
    destruct (row' !! cname) as [r|] eqn:Hr; [|by eexists].
    apply list_elem_of_fmap in Hrow' as (row & -> & Hrow).
    rewrite lookup_fmap in Hr.
    destruct (row !! cname) as [l|] eqn:Hl; [|done].
    injection Hr as <-.
    assert (l ∈ rows) as Hin by eauto.
    pose proof (fill_points_rows_run _ _ _ _ _ Hrun l Hin) as Hfilled.
    unfold filled_row in Hfilled.
    destruct (corners (heap σ l)) as [cs|]; [simpl in Hfilled|done].
    destruct (ids (heap σ l)) as [ixs|] eqn:Hixs; [simpl in Hfilled|done].
    destruct (fill_points b cs ixs) as [pts|] eqn:Hfill;
      [simpl in Hfilled|done].
    injection Hfilled as Hfilled.
    erewrite (visit_points_Ok b min_points ignore_no_pose (heap σ' l) pts);
      [by eexists|done|by rewrite <-Hfilled|].
    intros _. apply (fill_points_length b cs ixs); [done|].
    destruct Hids as [?|Hids]; [by left|right].
    intros ->. by apply (Hids l). }
  unfold points_loop. rewrite Htable. simpl.
  rewrite bool_decide_eq_false_2; [by eexists _, _|].
  by destruct names.
Qed.

Lemma fill_points_rows_then_extract_points_witness :
  let rows := [0%nat; 1%nat; 2%nat] in
  let run := fill_points_rows sample_charuco rows sample_state in
  let groups := (fmap (M := gmap cam_name) (heap run.2)) <$> sample_groups in
  let names := [CamStr "left"; CamStr "right"] in
  (run = (Ok rows, run.2) ∧
   length (get_object_points sample_charuco) = total_size sample_charuco ∧
   resolve_cam_names groups None = Ok names ∧ names ≠ []) ∧
  ∃ objp imgp, extract_points groups sample_charuco None 1 3 false
               = Ok (objp, imgp).
Proof.
  intros rows run groups names.
  assert (run = (Ok rows, run.2)) as Hrun.
  { apply injective_projections; [by vm_compute|reflexivity]. }
  assert (resolve_cam_names groups None = Ok names) as Hnames
    by (by vm_compute).
  split; [by split_and!|].
  apply (fill_points_rows_then_extract_points sample_charuco rows
           sample_state rows run.2 sample_groups None names 1 3 false Hrun);
    [reflexivity|by left| |exact Hnames|done].
  intros row cname l Hrow Hl.
  assert (l < 3)%nat as Hlt.
  { unfold sample_groups in Hrow.
    apply elem_of_cons in Hrow as [->|Hrow].
    - destruct (decide (cname = CamStr "left")) as [->|?].
      { vm_compute in Hl. injection Hl as <-. lia. }
      destruct (decide (cname = CamStr "right")) as [->|?].
      { vm_compute in Hl. injection Hl as <-. lia. }
      rewrite lookup_insert_ne, lookup_singleton_ne in Hl by done. done.
    - apply list_elem_of_singleton in Hrow as ->.
      apply lookup_singleton_Some in Hl as [_ <-]. lia. }
  destruct l as [|[|[|l]]]; [left|right; left|right; right; left|lia].
Defined.

(** ** get_all_calibration_points *)

Lemma mapM_Ok_Forall {A B} (f : A → result B) (l : list A) (k : list B) :
  mapM f l = Ok k → Forall (λ y, ∃ x, x ∈ l ∧ f x = Ok y) k.
Proof.
  revert k. induction l as [|x l IH]; intros k Hrun; simpl in Hrun.
  { injection Hrun as <-. constructor. }
  destruct (f x) as [y|] eqn:Hx; [simpl in Hrun|done].
  destruct (mapM f l) as [k'|]; [|done]. injection Hrun as <-.
  constructor; [exists x; split; [left|done]|].
  eapply Forall_impl; [by apply IH|]. intros y' (x' & ? & ?).
  exists x'. split; [by right|done].
Qed.

Lemma Forall2_concat {A B} (P : A → B → Prop) (ls : list (list A))
    (ks : list (list B)) :
  Forall2 (Forall2 P) ls ks → Forall2 P (concat ls) (concat ks).
Proof. induction 1; simpl; [constructor|by apply Forall2_app]. Qed.

Lemma select_cons {A} (m : bool) (mask : list bool) (x : A) (a : list A) :
  select (m :: mask) (x :: a)
  = if m then x :: select mask a else select mask a.
Proof. unfold select. simpl. rewrite filter_cons. by destruct m. Qed.

Lemma good_points_pairs (objpoints : list point3) (pts : list point2)
    (os : list point3) (ps : list point2) :
  good_points objpoints pts = Ok (os, ps) →
  Forall2 (λ o p, point_bad p = false ∧
                  ∃ i : nat, objpoints !! i = Some o ∧ pts !! i = Some p)
          os ps.
Proof.
  unfold good_points. case_bool_decide as Hlen; [|done].
  intros [= <- <-]. rewrite length_fmap in Hlen.
  revert objpoints Hlen. induction pts as [|p pts IH];
    intros [|o objpoints] Hlen; simplify_eq/=; [constructor|].
  rewrite !select_cons.
  assert (Forall2 (λ o' p', point_bad p' = false ∧
                            ∃ i : nat, (o :: objpoints) !! i = Some o' ∧
                                       (p :: pts) !! i = Some p')
            (select ((λ p, negb (point_bad p)) <$> pts) objpoints)
            (select ((λ p, negb (point_bad p)) <$> pts) pts)) as Hrest.
  { eapply Forall2_impl; [by apply IH|]. intros o' p' [? (i & ? & ?)].
    split; [done|]. by exists (S i). }
  destruct (point_bad p) eqn:Hp; simpl; [done|].
  constructor; [|done]. split; [done|]. by exists 0%nat.
Qed.

(** X17.  When [get_all_calibration_points] returns, the list of records was
    not empty, the records have been filled as by [fill_points_rows], and
    the two arrays are aligned: they have the same length, and entry [k]
    of the image points has no NaN coordinate and is the filled point of
    some listed record at the slot whose template point is entry [k] of
    the object points. *)
Theorem get_all_calibration_points_aligned (b : board) (rows : list loc)
    (σ : state) (all_obj : list point3) (all_img : list point2)
    (σ' : state) :
  get_all_calibration_points b rows σ = (Ok (all_obj, all_img), σ') →
  rows ≠ [] ∧
  fill_points_rows b rows σ = (Ok rows, σ') ∧
  Forall2 (λ o p,
             point_bad p = false ∧
             ∃ l pts (i : nat),
               l ∈ rows ∧ filled (heap σ' l) = Some pts ∧
               get_object_points b !! i = Some o ∧ pts !! i = Some p)
          all_obj all_img.
Proof.
  unfold get_all_calibration_points. rewrite M_bind_run.
  destruct (fill_points_rows b rows σ) as [[rows1|] σ1] eqn:Hfill; [|done].
  assert (rows1 = rows) as ->.
  { unfold fill_points_rows in Hfill. rewrite M_bind_run in Hfill.
    destruct (mapM (M := M) _ rows σ) as [[?|] ?]; [|done].
    by injection Hfill as <- _. }
  rewrite M_bind_run.
  rewrite (mapM_read _ (λ l, pts ← getitem "filled" (filled (heap σ1 l));
                             good_points (get_object_points b) pts) σ1).
  2:{ intros l. run_M. by destruct (filled (heap σ1 l)). }
  destruct (mapM _ rows) as [parts|] eqn:Hparts; [|done].
  run_M. unfold vstack.
  destruct parts as [|part parts]; [done|].
  rewrite !fmap_cons. run_M. intros [= <- <- <-].
  split; [by destruct rows|]. split; [done|].
  apply mapM_Ok_Forall in Hparts.
  set (ps := part :: parts) in *.
  change (part.1 ++ concat parts.*1) with (concat (fst <$> ps)).
  change (part.2 ++ concat parts.*2) with (concat (snd <$> ps)).
  apply Forall2_concat, Forall2_fmap.
  apply Forall_Forall2_diag. eapply Forall_impl; [exact Hparts|].
  intros [os ps0] (l & Hl & Hpart). simpl in Hpart.
  destruct (filled (heap σ1 l)) as [pts|] eqn:Hpts; [simpl in Hpart|done].
  eapply Forall2_impl; [by apply good_points_pairs|].
  intros o p [? (i & ? & ?)]. split; [done|]. by exists l, pts, i.
Qed.

Lemma get_all_calibration_points_aligned_witness :
  let rows := [0%nat; 1%nat] in
  let run := get_all_calibration_points sample_charuco rows sample_state in
  let all_obj := [(Fin 0, Fin 0, Fin 0); (Fin 1, Fin 0, Fin 0);
                  (Fin 0, Fin 1, Fin 0);
                  (Fin 0, Fin 0, Fin 0); (Fin 1, Fin 0, Fin 0)] in
  let all_img := [(Fin 1, Fin 1); (Fin 2, Fin 2); (Fin 3, Fin 3);
                  (Fin 1, Fin 1); (Fin 2, Fin 2)] in
  run = (Ok (all_obj, all_img), run.2) ∧
  Forall (λ p, point_bad p = false) all_img ∧
  length all_obj = length all_img.
Proof.
  intros rows run all_obj all_img.
  assert (run = (Ok (all_obj, all_img), run.2)) as Hrun.
  { apply injective_projections; [by vm_compute|reflexivity]. }
  split; [exact Hrun|].
  destruct (get_all_calibration_points_aligned sample_charuco rows
              sample_state all_obj all_img run.2 Hrun) as (_ & _ & Hall).
  split; [|by eapply Forall2_length].
  apply Forall_forall. intros p Hp.
  apply list_elem_of_lookup in Hp as [k Hk].
  destruct (Forall2_lookup_r _ _ _ _ _ Hall Hk) as (o & _ & Hbad & _).
  exact Hbad.
Defined.

(** ** detect_video *)

Lemma mapM_Ok_Forall2 {A B} (f : A → result B) (l : list A) (k : list B) :
  mapM f l = Ok k → Forall2 (λ x y, f x = Ok y) l k.
Proof.
  revert k. induction l as [|x l IH]; intros k Hrun; simpl in Hrun.
  { injection Hrun as <-. constructor. }
  destruct (f x) as [y|] eqn:Hx; [simpl in Hrun|done].
  destruct (mapM f l) as [k'|]; [|done]. injection Hrun as <-.
  constructor; [done|]. by apply IH.
Qed.

(** What the loop of lines 284-301 has produced when it ends. *)
Lemma video_loop_spec (detect : detector) (skip : positive) (n : nat)
    (first go : Z) (frames : list image) (rows : list row) :
  go ≤ Z.pos skip `div` 2 →
  video_loop detect skip n first go frames = Ok rows →
  StronglySorted Z.lt (framenum <$> rows) ∧
  Forall (λ r,
            first ≤ framenum r < first + Z.of_nat n ∧
            sampled skip first go rows (framenum r) ∧
            ∃ frame d,
              frames !! Z.to_nat (framenum r - first) = Some frame ∧
              detect frame = Ok d ∧ found d.1 = true ∧
              r = Row (framenum r) (Some d.1) (Some d.2) None None None)
         rows ∧
  ∀ k frame,
    first ≤ k < first + Z.of_nat n →
    frames !! Z.to_nat (k - first) = Some frame →
    sampled skip first go rows k →
    examined detect rows k frame.
Proof.
  revert first go frames rows.
  induction n as [|n IH]; intros first go frames rows Hgo Hrun.
  { injection Hrun as <-. split_and!; [constructor..|]. lia. }
  destruct frames as [|frame0 frames].
  { injection Hrun as <-. split_and!; [constructor..|]. by intros k frame _ ?. }
  simpl in Hrun.
  assert (0 ≤ Z.pos skip `div` 2) as Hhalf by (apply Z.div_pos; lia).
  assert (∀ k, first < k →
               Z.to_nat (k - first) = S (Z.to_nat (k - (first + 1)))) as Hidx
    by (intros k Hk; lia).
  destruct (bool_decide (first `mod` Z.pos skip ≠ 0) && bool_decide (go ≤ 0))
    eqn:Hcond.
  - (* the frame is passed over *)
    apply andb_true_iff in Hcond as [Hmod%bool_decide_eq_true
                                     Hgo0%bool_decide_eq_true].
    destruct (IH _ _ _ _ Hgo Hrun) as (Hsorted & Hrows & Hexam).
    split; [done|]. split.
    + eapply Forall_impl; [exact Hrows|]. simpl.
      intros r (Hr & Hsam & frame & d & Hframe & Hd & Hfound & Hrow).
      split; [lia|]. split.
      { destruct Hsam as [?|[?|?]]; [by left|lia|by right; right]. }
      exists frame, d. rewrite Hidx by lia. done.
    + intros k frame Hk Hframe Hsam.
      destruct (decide (k = first)) as [->|Hne].
      { destruct Hsam as [?|[?|(r & Hr & Hlt)]]; [done|lia|].
        rewrite Forall_forall in Hrows. destruct (Hrows r Hr) as [? _]. lia. }
      rewrite Hidx in Hframe by lia. simpl in Hframe.
      apply Hexam; [lia|done|].
      destruct Hsam as [?|[?|?]]; [by left|lia|by right; right].
  - (* the frame is examined *)
    destruct (detect frame0) as [d|] eqn:Hd; [simpl in Hrun|done].
    set (go1 := if found d.1 then Z.pos skip `div` 2 else go) in Hrun.
    destruct (video_loop detect skip n (first + 1) (Z.max 0 (go1 - 1)) frames)
      as [rest|] eqn:Hrest; [simpl in Hrun|done].
    injection Hrun as <-.
    assert (go1 ≤ Z.pos skip `div` 2) as Hgo1
      by (unfold go1; destruct (found d.1); lia).
    assert (Z.max 0 (go1 - 1) ≤ Z.pos skip `div` 2) as Hgo2 by lia.
    destruct (IH _ _ _ _ Hgo2 Hrest) as (Hsorted & Hrows & Hexam).
    assert (first `mod` Z.pos skip = 0 ∨ 0 < go) as Hwhy.
    { apply andb_false_iff in Hcond as [Hc|Hc];
        apply bool_decide_eq_false in Hc; [left|right]; [|lia].
      by destruct (decide (first `mod` Z.pos skip = 0)). }
    set (row0 := Row first (Some d.1) (Some d.2) None None None).
    set (rows := if found d.1 then row0 :: rest else rest).
    assert (∀ r, r ∈ rest → r ∈ rows) as Hsub.
    { intros r Hr. unfold rows. destruct (found d.1); [by right|done]. }
    assert (∀ k, first < k →
                 sampled skip first go rows k →
                 sampled skip (first + 1) (Z.max 0 (go1 - 1)) rest k)
      as Hshift.
    { intros k Hk [?|[?|(r & Hr & Hlt)]]; [by left| |].
      - right; left. unfold go1. destruct (found d.1); lia.
      - unfold rows in Hr. destruct (found d.1) eqn:Hfound.
        + apply elem_of_cons in Hr as [->|Hr].
          * right; left. unfold go1. rewrite ?Hfound; simpl. simpl in Hlt. lia.
          * right; right. by exists r.
        + right; right. by exists r. }
    assert (∀ k, sampled skip (first + 1) (Z.max 0 (go1 - 1)) rest k →
                 first < k → sampled skip first go rows k) as Hback.
    { intros k [?|[Hlt|(r & Hr & Hlt)]] Hk; [by left| |].
      - unfold go1 in Hlt. destruct (found d.1) eqn:Hfound.
        + right; right. exists row0. split; [|simpl; lia].
          unfold rows. rewrite ?Hfound; simpl. left.
        + right; left. lia.
      - right; right. exists r. split; [by apply Hsub|done]. }
    split; [|split].
    + unfold rows. destruct (found d.1); [|done].
      rewrite fmap_cons. constructor; [done|].
      apply Forall_fmap. eapply Forall_impl; [exact Hrows|].
      intros r [? _]. simpl. lia.
    + assert (Forall (λ r,
                first ≤ framenum r < first + Z.of_nat (S n) ∧
                sampled skip first go rows (framenum r) ∧
                ∃ frame d,
                  (frame0 :: frames) !! Z.to_nat (framenum r - first)
                  = Some frame ∧
                  detect frame = Ok d ∧ found d.1 = true ∧
                  r = Row (framenum r) (Some d.1) (Some d.2) None None None)
               rest) as Hrest'.
      { eapply Forall_impl; [exact Hrows|]. simpl.
        intros r (Hr & Hsam & frame & d' & Hframe & Hd' & Hfound & Hrow).
        split; [lia|]. split; [apply Hback; [done|lia]|].
        exists frame, d'. rewrite Hidx by lia. done. }
      assert (found d.1 = true → row0 ∈ rows) as Hrow0.
      { intros Hfound. unfold rows. rewrite Hfound. left. }
      rewrite Forall_forall in Hrest'. apply Forall_forall. intros r Hr.
      assert (r = row0 ∧ found d.1 = true ∨ r ∈ rest) as [[-> Hfound]|?].
      { unfold rows in Hr. destruct (found d.1); [|by right].
        apply elem_of_cons in Hr as [->|?]; [by left|by right]. }
      2: by apply Hrest'.
      simpl. split; [lia|]. split.
      { destruct Hwhy; [by left|right; left; lia]. }
      exists frame0, d. by rewrite Z.sub_diag.
    + intros k frame Hk Hframe Hsam.
      destruct (decide (k = first)) as [->|Hne].
      { rewrite Z.sub_diag in Hframe. injection Hframe as <-.
        exists d. split; [done|]. intros Hfound. exists row0.
        split; [|done]. unfold rows. rewrite ?Hfound; simpl. left. }
      rewrite Hidx in Hframe by lia. simpl in Hframe.
      destruct (Hexam k frame ltac:(lia) Hframe (Hshift k ltac:(lia) Hsam))
        as (d' & Hd' & Hrow).
      exists d'. split; [done|]. intros Hfound.
      destruct (Hrow Hfound) as (r & Hr & ?). exists r. by split; [apply Hsub|].
Qed.

Lemma filled_row_Ok (b : board) (r0 r : row) :
  filled_row b r0 = Ok r →
  ∃ cs ixs pts, corners r0 = Some cs ∧ ids r0 = Some ixs ∧
                fill_points b cs ixs = Ok pts ∧ r = set_filled pts r0.
Proof.
  unfold filled_row.
  destruct (corners r0) as [cs|]; [simpl|done].
  destruct (ids r0) as [ixs|]; [simpl|done].
  destruct (fill_points b cs ixs) as [pts|] eqn:Hfill; [simpl|done].
  intros [= <-]. by exists cs, ixs, pts.
Qed.

Lemma detect_video_run (detect : detector) (b : board) (v : video)
    (skip : positive) (rows : list row) :
  detect_video detect b v skip = Ok rows →
  ∃ rows0,
    video_loop detect skip (Z.to_nat (frame_count v)) 0 (Z.pos skip `div` 2)
               (frames v) = Ok rows0 ∧
    Forall2 (λ r0 r, filled_row b r0 = Ok r) rows0 rows.
Proof.
  unfold detect_video.
  destruct (video_loop _ _ _ _ _ _) as [rows0|]; [simpl|done].
  intros Hfill. exists rows0. split; [done|]. by apply mapM_Ok_Forall2.
Qed.

Lemma filled_rows_framenum (b : board) (rows0 rows : list row) :
  Forall2 (λ r0 r, filled_row b r0 = Ok r) rows0 rows →
  framenum <$> rows = framenum <$> rows0.
Proof.
  induction 1 as [|r0 r rows0 rows Hr _ IH]; [done|].
  rewrite !fmap_cons, IH. f_equal.
  by destruct (filled_row_Ok _ _ _ Hr) as (? & ? & ? & _ & _ & _ & ->).
Qed.

Lemma filled_rows_elem (b : board) (rows0 rows : list row) (r0 : row) :
  Forall2 (λ r0 r, filled_row b r0 = Ok r) rows0 rows →
  r0 ∈ rows0 → ∃ r, r ∈ rows ∧ filled_row b r0 = Ok r.
Proof.
  intros Hall [i Hi]%list_elem_of_lookup.
  destruct (Forall2_lookup_l _ _ _ _ _ Hall Hi) as (r & Hr & ?).
  exists r. split; [by eapply list_elem_of_lookup_2|done].
Qed.

Lemma filled_rows_sampled (b : board) (skip : positive) (first go : Z)
    (rows0 rows : list row) (k : Z) :
  Forall2 (λ r0 r, filled_row b r0 = Ok r) rows0 rows →
  sampled skip first go rows0 k → sampled skip first go rows k.
Proof.
  intros Hall [?|[?|(r0 & Hr0 & Hlt)]]; [by left|by right; left|].
  right; right.
  destruct (filled_rows_elem _ _ _ _ Hall Hr0) as (r & Hr & Hfill).
  exists r. split; [done|].
  by destruct (filled_row_Ok _ _ _ Hfill) as (? & ? & ? & _ & _ & _ & ->).
Qed.

(** X18.  The records that [detect_video] returns are in strictly increasing
    order of frame number, so no frame appears twice.  Each of them is the
    detection, with at least one corner, of the frame of its number, which
    lies below the frame count that the container reports; it carries the
    filled points of that detection and no pose.  Its frame was due for
    sampling: a multiple of the stride, one of the first [skip // 2]
    frames, or less than [skip // 2] frames after a returned detection. *)
Theorem detect_video_rows (detect : detector) (b : board) (v : video)
    (skip : positive) (rows : list row) :
  detect_video detect b v skip = Ok rows →
  StronglySorted Z.lt (framenum <$> rows) ∧
  Forall (λ r,
            0 ≤ framenum r < frame_count v ∧
            sampled skip 0 (Z.pos skip `div` 2) rows (framenum r) ∧
            ∃ frame d pts,
              frames v !! Z.to_nat (framenum r) = Some frame ∧
              detect frame = Ok d ∧ found d.1 = true ∧
              fill_points b d.1 d.2 = Ok pts ∧
              r = Row (framenum r) (Some d.1) (Some d.2) (Some pts) None None)
         rows.
Proof.
  intros (rows0 & Hloop & Hfill)%detect_video_run.
  destruct (video_loop_spec _ _ _ _ _ _ _ (Z.le_refl _) Hloop)
    as (Hsorted & Hrows & _).
  split; [by rewrite (filled_rows_framenum _ _ _ Hfill)|].
  apply Forall_forall. intros r [i Hi]%list_elem_of_lookup.
  destruct (Forall2_lookup_r _ _ _ _ _ Hfill Hi) as (r0 & Hi0 & Hr).
  apply list_elem_of_lookup_2 in Hi0. rewrite Forall_forall in Hrows.
  destruct (Hrows r0 Hi0)
    as (Hbound & Hsam & frame & d & Hframe & Hd & Hfound & Hrow0).
  destruct (filled_row_Ok _ _ _ Hr) as (cs & ixs & pts & Hcs & Hixs & Hpts & ->).
  simpl. rewrite Hrow0 in Hcs, Hixs. simpl in Hcs, Hixs.
  injection Hcs as <-. injection Hixs as <-.
  split; [lia|]. split; [by eapply filled_rows_sampled|].
  exists frame, d, pts. rewrite Z.sub_0_r in Hframe.
  split_and!; [done..|]. by rewrite Hrow0.
Qed.

Lemma detect_video_rows_witness :
  let rows := [Row 0 (Some (Some [(Fin 1, Fin 1)])) (Some (Some [0]))
                   (Some [(Fin 1, Fin 1); nan2; nan2; nan2]) None None;
               Row 1 (Some (Some [(Fin 2, Fin 2)])) (Some (Some [0]))
                   (Some [(Fin 2, Fin 2); nan2; nan2; nan2]) None None;
               Row 4 (Some (Some [(Fin 5, Fin 5)])) (Some (Some [0]))
                   (Some [(Fin 5, Fin 5); nan2; nan2; nan2]) None None] in
  detect_video sample_detect sample_charuco sample_video 4 = Ok rows ∧
  StronglySorted Z.lt (framenum <$> rows).
Proof.
  intros rows.
  assert (detect_video sample_detect sample_charuco sample_video 4 = Ok rows)
    as Hrun by (by vm_compute).
  split; [exact Hrun|].
  exact (proj1 (detect_video_rows sample_detect sample_charuco sample_video 4
                  rows Hrun)).
Defined.

(** X19.  [detect_video] looks at every frame that is due for sampling.  When it
    returns, the detector has returned for each frame that was read below
    the reported frame count and is a multiple of the stride, one of the
    first [skip // 2] frames, or less than [skip // 2] frames after a
    returned detection; and when the detector found a corner there, the
    frame has a record among the returned ones, with these corners and
    identifiers. *)
Theorem detect_video_examined (detect : detector) (b : board) (v : video)
    (skip : positive) (rows : list row) (k : Z) (frame : image) :
  detect_video detect b v skip = Ok rows →
  0 ≤ k < frame_count v →
  frames v !! Z.to_nat k = Some frame →
  sampled skip 0 (Z.pos skip `div` 2) rows k →
  examined detect rows k frame.
Proof.
  intros (rows0 & Hloop & Hfill)%detect_video_run Hk Hframe Hsam.
  destruct (video_loop_spec _ _ _ _ _ _ _ (Z.le_refl _) Hloop)
    as (_ & Hrows & Hexam).
  assert (sampled skip 0 (Z.pos skip `div` 2) rows0 k) as Hsam0.
  { destruct Hsam as [?|[?|(r & Hr & Hlt)]]; [by left|by right; left|].
    right; right. apply list_elem_of_lookup in Hr as [i Hi].
    destruct (Forall2_lookup_r _ _ _ _ _ Hfill Hi) as (r0 & Hi0 & Hr).
    exists r0. split; [by eapply list_elem_of_lookup_2|].
    by destruct (filled_row_Ok _ _ _ Hr) as (? & ? & ? & _ & _ & _ & ->). }
  destruct (Hexam k frame) as (d & Hd & Hrow); [lia| |done|].
  { by rewrite Z.sub_0_r. }
  exists d. split; [done|]. intros Hfound.
  destruct (Hrow Hfound) as (r0 & Hr0 & Hnum & Hcs & Hixs).
  destruct (filled_rows_elem _ _ _ _ Hfill Hr0) as (r & Hr & Hfilled).
  exists r. split; [done|].
  by destruct (filled_row_Ok _ _ _ Hfilled) as (? & ? & ? & _ & _ & _ & ->).
Qed.

Lemma detect_video_examined_witness :
  let rows := [Row 0 (Some (Some [(Fin 1, Fin 1)])) (Some (Some [0]))
                   (Some [(Fin 1, Fin 1); nan2; nan2; nan2]) None None;
               Row 1 (Some (Some [(Fin 2, Fin 2)])) (Some (Some [0]))
                   (Some [(Fin 2, Fin 2); nan2; nan2; nan2]) None None;
               Row 4 (Some (Some [(Fin 5, Fin 5)])) (Some (Some [0]))
                   (Some [(Fin 5, Fin 5); nan2; nan2; nan2]) None None] in
  (detect_video sample_detect sample_charuco sample_video 4 = Ok rows ∧
   0 ≤ 1 < frame_count sample_video ∧
   frames sample_video !! Z.to_nat 1 = Some [[2]] ∧
   sampled 4 0 (4 `div` 2) rows 1) ∧
  examined sample_detect rows 1 [[2]].
Proof.
  intros rows.
  assert (detect_video sample_detect sample_charuco sample_video 4 = Ok rows)
    as Hrun by (by vm_compute).
  assert (0 ≤ 1 < frame_count sample_video) as Hk by (simpl; lia).
  assert (sampled 4 0 (4 `div` 2) rows 1) as Hsam
    by (right; left; reflexivity).
  split; [by split_and!|].
  exact (detect_video_examined sample_detect sample_charuco sample_video 4
           rows 1 [[2]] Hrun Hk eq_refl Hsam).
Defined.

(** ** detect_images *)

Lemma images_loop_Ok (imread : string → option image) (detect : detector)
    (first : Z) (images : list string) :
  Forall (λ imname, ∃ frame d, imread imname = Some frame ∧
                               detect frame = Ok d) images →
  ∃ rows, images_loop imread detect first images = Ok rows.
Proof.
  intros Hall. revert first.
  induction Hall as [|imname images (frame & d & Hread & Hd) _ IH];
    intros first; [by eexists|].
  simpl. rewrite Hread, Hd. simpl.
  destruct (IH (first + 1)) as [rest ->]. by eexists.
Qed.

Lemma load_cap : load_name [] "cap" = Raise (NameError "cap").
Proof. by vm_compute. Qed.

(** X20.  [detect_images] never returns: after its loop it reads the name
    [cap], which is bound neither in the function nor in the module.  When
    every image can be read and the detector returns for each of them, the
    exception is this [NameError], also for an empty list of images. *)
Theorem detect_images_raises (imread : string → option image)
    (detect : detector) (b : board) (images : list string) :
  (∃ e, detect_images imread detect b images = Raise e) ∧
  (Forall (λ imname, ∃ frame d, imread imname = Some frame ∧
                                detect frame = Ok d) images →
   detect_images imread detect b images = Raise (NameError "cap")).
Proof.
  unfold detect_images. split.
  - destruct (images_loop imread detect 0 images) as [rows|e];
      [|by eexists].
    exists (NameError "cap"). cbn [mbind result_bind]. by rewrite load_cap.
  - intros Hall. destruct (images_loop_Ok imread detect 0 images Hall)
      as [rows ->]. cbn [mbind result_bind]. by rewrite load_cap.
Qed.

Lemma detect_images_raises_witness :
  let imread := λ name : string,
    if bool_decide (name = "a.png") then Some [[1]] else None in
  Forall (λ imname, ∃ frame d, imread imname = Some frame ∧
                               sample_detect frame = Ok d) ["a.png"] ∧
  detect_images imread sample_detect sample_charuco ["a.png"]
  = Raise (NameError "cap").
Proof.
  intros imread.
  assert (Forall (λ imname, ∃ frame d, imread imname = Some frame ∧
                                       sample_detect frame = Ok d) ["a.png"])
    as Hall.
  { constructor; [|constructor]. by eexists [[1]], _. }
  split; [exact Hall|].
  exact (proj2 (detect_images_raises imread sample_detect sample_charuco
                  ["a.png"]) Hall).
Defined.

(** ** Checkerboard.detect_image *)

Lemma Checkerboard_detect_image_Ok (cv : chessboard_cv) (b : board)
    (subpix : bool) (img : image) d :
  Checkerboard_detect_image cv b subpix img = Ok d →
  d = (None, None) ∨ ∃ cs, d = (Some cs, Some (board_ids b)).
Proof.
  unfold Checkerboard_detect_image.
  destruct (to_gray cv img) as [gray|]; [simpl|done].
  destruct (findChessboardCorners cv gray) as [fd|]; [simpl|done].
  destruct (if fd.1 && subpix then cornerSubPix cv gray fd.2 else Ok fd.2)
    as [[cs|]|]; [simpl..|done]; intros [= <-]; [right|left]; by eauto.
Qed.

Lemma video_loop_Ok (detect : detector) (skip : positive) (n : nat)
    (first go : Z) (frames : list image) :
  Forall (λ frame, ∃ d, detect frame = Ok d) frames →
  ∃ rows, video_loop detect skip n first go frames = Ok rows.
Proof.
  intros Hall. revert n first go.
  induction Hall as [|frame frames [d Hd] _ IH]; intros n first go.
  { destruct n; by eexists. }
  destruct n as [|n]; [by eexists|]. simpl.
  destruct (_ && _); [apply IH|]. rewrite Hd. simpl.
  destruct (IH n (first + 1)
              (Z.max 0 ((if found d.1 then Z.pos skip `div` 2 else go) - 1)))
    as [rest ->]. by eexists.
Qed.

(** X21.  What [Checkerboard.detect_image] returns can always be filled: the
    identifiers are None exactly when the corners are, and otherwise they
    are the identifiers of the board, so [fill_points] gives the corners
    cut or padded with NaN to [total_size] slots.  The detector never leads
    [fill_points] to its branch without identifiers. *)
Theorem Checkerboard_detect_image_fill (cv : chessboard_cv) (b : board)
    (subpix : bool) (img : image)
    (d : option (list point2) * option (list Z)) :
  Checkerboard_detect_image cv b subpix img = Ok d →
  (d.1 = None ↔ d.2 = None) ∧
  ∃ pts, fill_points b d.1 d.2 = Ok pts ∧ length pts = total_size b ∧
         ∀ cs, d.1 = Some cs →
               pts = take (total_size b) cs
                     ++ replicate (total_size b - length cs) nan2.
Proof.
  intros [->|[cs ->]]%Checkerboard_detect_image_Ok; cbn [fst snd].
  - split; [done|]. exists (get_empty_detection b).
    split_and!; [done| |done]. apply length_replicate.
  - split; [done|]. rewrite fill_points_seq. eexists. split; [done|].
    split; [|by intros ? [= <-]].
    rewrite length_app, length_take, length_replicate. lia.
Qed.

Lemma Checkerboard_detect_image_fill_witness :
  let cv := ChessboardCV (λ img, Ok img)
              (λ _, Ok (true, Some [(Fin 1, Fin 2)]))
              (λ _ cs, Ok cs) in
  let d := (Some [(Fin 1, Fin 2)], Some [0; 1]) in
  Checkerboard_detect_image cv sample_board true [] = Ok d ∧
  fill_points sample_board d.1 d.2 = Ok [(Fin 1, Fin 2); nan2].
Proof.
  intros cv d.
  assert (Checkerboard_detect_image cv sample_board true [] = Ok d) as Hrun
    by reflexivity.
  split; [exact Hrun|].
  destruct (Checkerboard_detect_image_fill cv sample_board true [] d Hrun)
    as (_ & pts & Hfill & _ & Hpts).
  transitivity (Ok (A := list point2) pts); [exact Hfill|].
  f_equal. exact (Hpts _ eq_refl).
Defined.

(** X22.  With a checkerboard, [detect_video] returns whenever OpenCV returns
    for each frame of the video: filling the detections cannot fail. *)
Theorem detect_video_checkerboard (cv : chessboard_cv) (b : board)
    (v : video) (skip : positive) :
  Forall (λ frame, ∃ d, Checkerboard_detect_image cv b true frame = Ok d)
         (frames v) →
  ∃ rows, detect_video (Checkerboard_detect_image cv b true) b v skip
          = Ok rows.
Proof.
  intros Hall. unfold detect_video.
  destruct (video_loop_Ok (Checkerboard_detect_image cv b true) skip
              (Z.to_nat (frame_count v)) 0 (Z.pos skip `div` 2) (frames v)
              Hall) as [rows0 Hloop].
  rewrite Hloop. simpl. apply mapM_Ok_intro. intros r0 Hr0.
  destruct (video_loop_spec _ _ _ _ _ _ _ (Z.le_refl _) Hloop)
    as (_ & Hrows & _).
  rewrite Forall_forall in Hrows.
  destruct (Hrows r0 Hr0) as (_ & _ & frame & d & _ & Hd & Hfound & ->).
  apply Checkerboard_detect_image_Ok in Hd as [->|[cs ->]]; [done|].
  unfold filled_row. cbn [corners ids getitem mbind result_bind fst snd].
  rewrite fill_points_seq. by eexists.
Qed.

Lemma detect_video_checkerboard_witness :
  let cv := ChessboardCV (λ img, Ok img)
              (λ img, Ok (match img with
                          | [] => (false, None)
                          | _ => (true, Some [(Fin 1, Fin 2)])
                          end))
              (λ _ cs, Ok cs) in
  Forall (λ frame, ∃ d, Checkerboard_detect_image cv sample_board true frame
                        = Ok d) (frames sample_video) ∧
  ∃ rows, detect_video (Checkerboard_detect_image cv sample_board true)
            sample_board sample_video 4 = Ok rows.
Proof.
  intros cv.
  assert (Forall (λ frame, ∃ d, Checkerboard_detect_image cv sample_board
                                  true frame = Ok d) (frames sample_video))
    as Hall.
  { repeat constructor; by eexists. }
  split; [exact Hall|].
  exact (detect_video_checkerboard cv sample_board sample_video 4 Hall).
Defined.

(** ** CharucoBoard.detect_image *)

Lemma scatter_Ok_or_IndexError (out : list point2) (l : list (Z * point2)) :
  (∃ out', scatter out l = Ok out') ∨ scatter out l = Raise IndexError.
Proof.
  revert out. induction l as [|[i cxs] l IH]; intros out; simpl.
  { left. by eexists. }
  destruct (setitem_Ok_or_IndexError out i cxs) as [[out' ->]| ->]; simpl;
    [apply IH|by right].
Qed.

(** X23.  [CharucoBoard.detect_image] never returns None for the identifiers,
    and it returns the empty detection when no marker was found.  So
    [fill_points] on what it returns never fails for want of identifiers:
    it returns a detection of [total_size] slots, or raises [IndexError]
    for an identifier out of bounds. *)
Theorem CharucoBoard_detect_image_fill (cv : aruco_cv) (b : board)
    (cam : option camera) (img : image)
    (d : option (list point2) * option (list Z)) :
  CharucoBoard_detect_image cv b cam img = Ok d →
  d.2 ≠ None ∧
  (∀ res, detect_markers cv b img cam = Ok res → res.1 = [] →
          d = (Some [], Some [])) ∧
  ((∃ pts, fill_points b d.1 d.2 = Ok pts ∧ length pts = total_size b) ∨
   fill_points b d.1 d.2 = Raise IndexError).
Proof.
  intros Hrun.
  assert (d.2 ≠ None) as Hids.
  { unfold CharucoBoard_detect_image in Hrun.
    destruct (aruco_to_gray cv img) as [gray|]; [simpl in Hrun|done].
    destruct (detect_markers cv b img cam) as [res|]; [simpl in Hrun|done].
    destruct (res.1); [by injection Hrun as <-|].
    destruct (interpolateCornersCharuco _ _ _ _ _) as [det|];
      [simpl in Hrun|done].
    destruct (det.2) eqn:Hdet; injection Hrun as <-; [|done].
    by rewrite Hdet. }
  split; [done|]. split.
  - intros res Hres Hnil. unfold CharucoBoard_detect_image in Hrun.
    destruct (aruco_to_gray cv img) as [gray|]; [simpl in Hrun|done].
    rewrite Hres in Hrun. simpl in Hrun. rewrite Hnil in Hrun.
    by injection Hrun as <-.
  - destruct d as [cs [ixs|]]; [simpl|done].
    destruct cs as [[|c cs]|].
    1,3: left; eexists; split; [done|apply length_replicate].
    assert (fill_points b (Some (c :: cs)) (Some ixs)
            = scatter (get_empty_detection b) (zip ixs (c :: cs))) as ->
      by (unfold fill_points; by destruct (kind b)).
    destruct (scatter_Ok_or_IndexError (get_empty_detection b)
                (zip ixs (c :: cs))) as [[pts Hpts]|?]; [left|by right].
    exists pts. split; [done|].
    rewrite (scatter_length _ _ _ Hpts). apply length_replicate.
Qed.

Lemma CharucoBoard_detect_image_fill_witness :
  let cv := ArucoCV (λ img, Ok img)
              (λ _, Ok ([[(Fin 0, Fin 0)]], Some [7], []))
              (λ _ _ ms ixs _ _ _, Ok (ms, Some ixs))
              (λ _ _ _ _, Ok (Some [(Fin 1, Fin 2)], Some [3])) in
  let d := (Some [(Fin 1, Fin 2)], Some [3]) in
  CharucoBoard_detect_image cv sample_charuco None [] = Ok d ∧
  d.2 ≠ None ∧
  fill_points sample_charuco d.1 d.2 = Ok [nan2; nan2; nan2; (Fin 1, Fin 2)].
Proof.
  intros cv d.
  assert (CharucoBoard_detect_image cv sample_charuco None [] = Ok d) as Hrun
    by reflexivity.
  split; [exact Hrun|].
  split; [|reflexivity].
  exact (proj1 (CharucoBoard_detect_image_fill cv sample_charuco None [] d
                  Hrun)).
Defined.

(** ** estimate_pose_image *)

(** X24.  [estimate_pose_image] on a ChArUco board gives the pair of None,
    without consulting the pose solver, for an image in which no marker is
    found.  On a checkerboard it raises the [NameError] of
    [Checkerboard.estimate_pose_points] whenever the detector returns. *)
Theorem estimate_pose_image_outcomes (acv : aruco_cv) (detect : detector)
    (cv : opencv) (b : board) (cam : camera) (img : image) :
  (kind b = Charuco →
   ∀ res, detect_markers acv b img None = Ok res → res.1 = [] →
          estimate_pose_image (CharucoBoard_detect_image acv b None) cv b cam
            img = Ok (None, None)) ∧
  (kind b = Checker →
   ∀ d, detect img = Ok d →
        estimate_pose_image detect cv b cam img
        = Raise (NameError "corners")).
Proof.
  split.
  - intros Hkind res Hres Hnil.
    unfold estimate_pose_image, CharucoBoard_detect_image.
    assert (∃ gray, aruco_to_gray acv img = Ok gray) as [gray Hgray].
    { unfold detect_markers in Hres.
      destruct (aruco_to_gray acv img); [by eexists|done]. }
    rewrite Hgray. cbn [mbind result_bind]. rewrite Hres.
    cbn [mbind result_bind]. rewrite Hnil. cbn [mbind result_bind fst snd].
    unfold estimate_pose_points. by rewrite Hkind.
  - intros Hkind d Hd. unfold estimate_pose_image. rewrite Hd.
    cbn [mbind result_bind]. unfold estimate_pose_points. rewrite Hkind.
    by destruct (d.1), (d.2).
Qed.

Lemma estimate_pose_image_outcomes_witness :
  let acv := ArucoCV (λ img, Ok img) (λ _, Ok ([], None, []))
               (λ _ _ ms ixs _ _ _, Ok (ms, Some ixs))
               (λ _ _ _ _, Raise cv2_error) in
  (kind sample_charuco = Charuco ∧
   detect_markers acv sample_charuco [] None = Ok ([], Some [])) ∧
  estimate_pose_image (CharucoBoard_detect_image acv sample_charuco None)
    failing_cv sample_charuco sample_camera [] = Ok (None, None).
Proof.
  intros acv. split; [by split|].
  exact (proj1 (estimate_pose_image_outcomes acv sample_detect failing_cv
                  sample_charuco sample_camera [])
           eq_refl ([], Some []) eq_refl eq_refl).
Defined.
